(** * claudeee: the JSONL ingestion pipeline, the database and the client

    A shallow embedding of [backend/internal/services] (the JSONL parser that
    is concatenated after [database/db.go]) and of the services it drives,
    of [database] itself (the opening of the database and its tables), and of
    the client of the frontend ([frontend/lib/api.ts]), followed by their
    properties.

    Go strings are byte strings ([string]); timestamps and token counters are
    integers ([Z], timestamps in seconds); the tables [sessions] and
    [messages] are finite maps on their primary key, [session_windows] is a
    list in creation order. A value that a column cannot hold makes the
    database call fail; failing calls are part of the model. *)

From Stdlib Require Import ZArith Ascii String List Lia Bool DecimalString.
From stdpp Require Import base option list gmap strings fin_maps.

Set Warnings "-clear-no-such-hyp".

Local Open Scope string_scope.
Local Open Scope list_scope.
Local Open Scope Z_scope.

(* ===================================================================== *)
(** * Go's string helpers used by the parser *)
(* ===================================================================== *)

Module GoStrings.

(** [strings.HasPrefix]. *)
Fixpoint HasPrefix (s p : string) {struct p} : bool :=
  match p with
  | EmptyString => true
  | String c p' =>
      match s with
      | EmptyString => false
      | String d s' => Ascii.eqb d c && HasPrefix s' p'
      end
  end.

(** [strings.ReplaceAll s old new] where [old] and [new] are one byte
    each, which is the only way the parser calls it. *)
Fixpoint ReplaceAll (s : string) (old new : ascii) : string :=
  match s with
  | EmptyString => EmptyString
  | String c s' =>
      String (if Ascii.eqb c old then new else c) (ReplaceAll s' old new)
  end.

(** [strings.Split s sep] for a one-byte separator. The result is never
    empty: [Split "" sep] is the one-element list holding "". *)
Fixpoint Split (s : string) (sep : ascii) : list string :=
  match s with
  | EmptyString => [EmptyString]
  | String c s' =>
      if Ascii.eqb c sep then EmptyString :: Split s' sep
      else match Split s' sep with
           | [] => [String c EmptyString]
           | p :: ps => String c p :: ps
           end
  end.

(** [s[1:]]: the string without its first byte. *)
Definition tail1 (s : string) : string :=
  match s with
  | EmptyString => EmptyString
  | String _ s' => s'
  end.

(** The bytes of the white-space code points of [unicode.IsSpace], as
    UTF-8: the six ASCII ones, U+0085 and U+00A0 (two bytes), and U+1680,
    U+2000..U+200A, U+2028, U+2029, U+202F, U+205F, U+3000 (three bytes).
    [space_prefix l] is the number of bytes of the white-space code point
    [l] starts with, or 0. *)
Definition ascii_space (n : N) : bool :=
  ((9 <=? n) && (n <=? 13) || (n =? 32))%N.

Definition space2 (a b : N) : bool :=
  ((a =? 194) && ((b =? 133) || (b =? 160)))%N.

Definition space3 (a b c : N) : bool :=
  ((a =? 225) && (b =? 154) && (c =? 128)
   || (a =? 226) && (b =? 128)
      && ((128 <=? c) && (c <=? 138) || (c =? 168) || (c =? 169) || (c =? 175))
   || (a =? 226) && (b =? 129) && (c =? 159)
   || (a =? 227) && (b =? 128) && (c =? 128))%N.

Definition space_prefix (l : list N) : nat :=
  match l with
  | a :: r1 =>
      if ascii_space a then 1%nat
      else match r1 with
           | b :: r2 =>
               if space2 a b then 2%nat
               else match r2 with
                    | c :: _ => if space3 a b c then 3%nat else 0%nat
                    | [] => 0%nat
                    end
           | [] => 0%nat
           end
  | [] => 0%nat
  end.

(** The same from the end of the string: [l] is the reversed byte list. *)
Definition space_suffix (l : list N) : nat :=
  match l with
  | a :: r1 =>
      if ascii_space a then 1%nat
      else match r1 with
           | b :: r2 =>
               if space2 b a then 2%nat
               else match r2 with
                    | c :: _ => if space3 c b a then 3%nat else 0%nat
                    | [] => 0%nat
                    end
           | [] => 0%nat
           end
  | [] => 0%nat
  end.

(** Strip white-space code points from the front, as [strings.TrimLeftFunc
    s unicode.IsSpace]. [skip] counts the bytes of the current code point
    that are still to be dropped. *)
Fixpoint trim_front (pre : list N -> nat) (skip : nat) (l : list N) : list N :=
  match skip with
  | S k => match l with
           | _ :: r => trim_front pre k r
           | [] => []
           end
  | O => match l with
         | [] => []
         | x :: r =>
             match pre l with
             | O => l
             | S k => trim_front pre k r
             end
         end
  end.

Definition bytes_of (s : string) : list N :=
  List.map N_of_ascii (list_ascii_of_string s).

Definition string_of (l : list N) : string :=
  string_of_list_ascii (List.map ascii_of_N l).

(** [strings.TrimSpace]: leading and trailing white space removed. *)
Definition TrimSpace (s : string) : string :=
  let front := trim_front space_prefix 0 (bytes_of s) in
  string_of (List.rev (trim_front space_suffix 0 (List.rev front))).

(** A string made of white-space code points only. *)
Definition only_space (s : string) : bool :=
  match trim_front space_prefix 0 (bytes_of s) with
  | [] => true
  | _ :: _ => false
  end.

End GoStrings.

(* ===================================================================== *)
(** * [path/filepath] *)
(* ===================================================================== *)

Module Filepath.
Import GoStrings.

Definition slash : ascii := "/"%char.

(** One step of [filepath.Clean] on the stack of kept elements (deepest
    first): empty and "." elements are dropped, ".." removes the element
    before it when there is one to remove, is dropped at the root, and is
    kept in front of a relative path. *)
Definition clean_step (rooted : bool) (stack : list string) (c : string)
  : list string :=
  if String.eqb c "" || String.eqb c "." then stack
  else if String.eqb c ".." then
    match stack with
    | top :: below =>
        if String.eqb top ".." then c :: stack else below
    | [] => if rooted then [] else [c]
    end
  else c :: stack.

(** [filepath.Clean] on a Unix path. *)
Definition Clean (path : string) : string :=
  if String.eqb path "" then "."
  else
    let rooted := HasPrefix path "/" in
    let stack := fold_left (clean_step rooted) (Split path slash) [] in
    let body := String.concat "/" (List.rev stack) in
    let out := if rooted then String slash body else body in
    if String.eqb out "" then "." else out.

End Filepath.

(* ===================================================================== *)
(** * [models]: the records the parser reads and writes *)
(* ===================================================================== *)

(** The declarations of the [models] package are outside the files read
    here; the records below carry the fields that [processLogEntry] and
    [insertMessage] read and write, pointers as [option]. The field
    [Message] of a log entry is [EntryMessage] here, since [Message] also
    names the stored record. *)

(** [entry.Message.Usage]. *)
Record Usage := mkUsage {
  InputTokens : Z;
  CacheCreationInputTokens : Z;
  CacheReadInputTokens : Z;
  OutputTokens : Z;
  ServiceTier : string
}.

(** [entry.Message.Content], an [interface{}] after decoding: a string, a
    JSON object, a JSON array (both known by their [json.Marshal] text), or
    any other value (known by its [%v] text). *)
Inductive Content :=
| ContentString (v : string)
| ContentObject (marshalled : string)
| ContentArray (marshalled : string)
| ContentOther (printed : string).

Record LogMessage := mkLogMessage {
  lm_Type : option string;
  lm_Role : string;
  lm_Model : option string;
  lm_Content : option Content;
  lm_Usage : option Usage
}.

Record LogEntry := mkLogEntry {
  UUID : string;
  ParentUUID : option string;
  SessionID : string;
  IsSidechain : bool;
  UserType : string;
  Cwd : string;
  Timestamp : Z;
  RequestID : option string;
  EntryMessage : LogMessage
}.

(** [models.Message], the value handed to [insertMessage]. Window ids are
    numbers. *)
Record Message := mkMessage {
  m_ID : string;
  m_SessionID : string;
  m_SessionWindowID : option nat;
  m_ParentUUID : option string;
  m_IsSidechain : bool;
  m_UserType : option string;
  m_MessageType : option string;
  m_MessageRole : option string;
  m_Model : option string;
  m_Content : option string;
  m_InputTokens : Z;
  m_CacheCreationInputTokens : Z;
  m_CacheReadInputTokens : Z;
  m_OutputTokens : Z;
  m_ServiceTier : option string;
  m_RequestID : option string;
  m_Timestamp : Z
}.

(** An entry of a user message with no usage record, for examples. *)
Definition sample_entry (cwd : string) : LogEntry :=
  mkLogEntry "m1" None "s1" false "external" cwd 0 None
    (mkLogMessage None "user" None None None).

(* ===================================================================== *)
(** * Project resolution *)
(* ===================================================================== *)

Module Resolver.
Import GoStrings Filepath.

(** [convertProjectNameToPath]. *)
Definition convertProjectNameToPath (projectName : string) : string :=
  if HasPrefix projectName "-"
  then String.append "/" (ReplaceAll (tail1 projectName) "-"%char "/"%char)
  else projectName.

Definition commonSubdirs : list string := ["frontend"; "backend"; "src"; "lib"].

(** [part != "" && part != "." && part != ".."]. *)
Definition meaningful (part : string) : bool :=
  negb (String.eqb part "") && negb (String.eqb part ".")
  && negb (String.eqb part "..").

(** The inner [for _, subdir := range commonSubdirs] loop. *)
Definition isCommonSubdir (part : string) : bool :=
  existsb (String.eqb part) commonSubdirs.

(** The loop [for j := i - 1; j >= 0; j--]; the argument is [j + 1]. *)
Fixpoint parent_loop (parts : list string) (j1 : nat) : option string :=
  match j1 with
  | O => None
  | S j =>
      let parentPart := nth j parts "" in
      if meaningful parentPart && negb (isCommonSubdir parentPart)
      then Some parentPart
      else parent_loop parts j
  end.

(** The loop [for i := len(parts) - 1; i >= 0; i--]; the argument is
    [i + 1]. *)
Fixpoint part_loop (parts : list string) (i1 : nat) : string :=
  match i1 with
  | O => "unknown"
  | S i =>
      let part := nth i parts "" in
      if meaningful part then
        if isCommonSubdir part then
          match parent_loop parts i with
          | Some parentPart => parentPart
          | None => part
          end
        else part
      else part_loop parts i
  end.

(** [extractProjectNameFromCwd]. *)
Definition extractProjectNameFromCwd (cwd : string) : string :=
  if String.eqb cwd "" then "unknown"
  else
    let cleanPath := Clean cwd in
    let parts := Split cleanPath slash in
    if Nat.eqb (length parts) 0 then "unknown"
    else part_loop parts (length parts).

(** The first statement of [processLogEntry]: the pair
    [(actualProjectName, actualProjectPath)]. *)
Definition resolveProject (entry : LogEntry) (projectName : string)
  : string * string :=
  if negb (String.eqb (Cwd entry) "")
  then (extractProjectNameFromCwd (Cwd entry), Cwd entry)
  else (projectName, convertProjectNameToPath projectName).

(** The resolution in the words of the specification: walk the path
    elements from the deepest one backward, leave out the elements of the
    generic set, and take the innermost element that is left; when only
    generic elements exist take the deepest of them. *)
Definition name_by_walk (parts : list string) : string :=
  let walk := List.filter meaningful (List.rev parts) in
  match List.find (fun p => negb (isCommonSubdir p)) walk with
  | Some ancestor => ancestor
  | None => List.hd "unknown" walk
  end.

End Resolver.

(* ===================================================================== *)
(** * The store: the tables of [createTables] *)
(* ===================================================================== *)

(** A row of [sessions] (the id is the key of the table), with the columns
    that the data model of the specification names; [end_time] may be
    null. *)
Record Session := mkSession {
  s_project_name : string;
  s_project_path : string;
  s_start_time : Z;
  s_end_time : option Z;
  s_total_input_tokens : Z;
  s_total_output_tokens : Z;
  s_total_tokens : Z;
  s_message_count : Z;
  s_status : string
}.

(** A row of [session_windows], with the columns that the data model of
    the specification names. *)
Record SessionWindow := mkSessionWindow {
  w_id : nat;
  window_start : Z;
  window_end : Z;
  reset_time : Z;
  w_total_input_tokens : Z;
  w_total_output_tokens : Z;
  w_total_tokens : Z;
  w_message_count : Z;
  w_session_count : Z;
  is_active : bool
}.

(** A row of [messages]: the seventeen columns taken from the message and
    [created_at]. *)
Record MessageRow := mkMessageRow {
  row_message : Message;
  created_at : Z
}.

Record Store := mkStore {
  sessions : gmap string Session;
  messages : gmap string MessageRow;
  session_windows : list SessionWindow
}.

Definition empty_store : Store := mkStore ∅ ∅ [].

Definition with_sessions (st : Store) (s : gmap string Session) : Store :=
  mkStore s (messages st) (session_windows st).

Definition with_messages (st : Store) (m : gmap string MessageRow) : Store :=
  mkStore (sessions st) m (session_windows st).

Definition with_windows (st : Store) (ws : list SessionWindow) : Store :=
  mkStore (sessions st) (messages st) ws.

(** Sums and counts over the rows of [messages] that satisfy [sel], as the
    aggregate queries of the services compute them. *)
Definition selected (sel : Message -> bool) (msgs : gmap string MessageRow)
  : gmap string MessageRow :=
  filter (fun kv => sel (row_message kv.2) = true) msgs.

Definition sum_over (f : Message -> Z) (msgs : gmap string MessageRow) : Z :=
  map_fold (fun _ r acc => f (row_message r) + acc) 0 msgs.

Definition session_ids (msgs : gmap string MessageRow) : gset string :=
  map_fold (fun _ r acc => {[ m_SessionID (row_message r) ]} ∪ acc) ∅ msgs.

Definition in_window (wid : nat) (m : Message) : bool :=
  bool_decide (m_SessionWindowID m = Some wid).

Definition in_session (sid : string) (m : Message) : bool :=
  String.eqb (m_SessionID m) sid.

(* ===================================================================== *)
(** * SessionRegistry *)
(* ===================================================================== *)

Module SessionService.

(** Modelled from the spec: [SessionService.CreateOrUpdateSession] is
    defined outside the files read here. "Creates a session row if absent
    (status active, start = timestamp); if present, extends
    last-activity/end-time bounds and leaves identity fields unchanged
    (first-write-wins on project name/path)." A session holds its
    "first/last activity timestamps" and is "created on first message,
    updated on every subsequent message belonging to it": in a new row the
    timestamp of the message is both the start and the last activity; the
    last activity of a stored row moves forward to the timestamp when that
    is later (counting from the start for a row whose [end_time] is null,
    which the column allows). *)
Definition CreateOrUpdateSession
    (sessionID projectName projectPath : string) (timestamp : Z)
    (tbl : gmap string Session) : gmap string Session :=
  match tbl !! sessionID with
  | None =>
      <[sessionID := mkSession projectName projectPath timestamp
                       (Some timestamp) 0 0 0 0 "active"]> tbl
  | Some s =>
      <[sessionID := mkSession (s_project_name s) (s_project_path s)
                       (s_start_time s)
                       (Some (Z.max (default (s_start_time s) (s_end_time s))
                                    timestamp))
                       (s_total_input_tokens s) (s_total_output_tokens s)
                       (s_total_tokens s) (s_message_count s)
                       (s_status s)]> tbl
  end.

End SessionService.

(* ===================================================================== *)
(** * TokenUsageComputer: the session aggregate refresh *)
(* ===================================================================== *)

Module TokenService.

(** A session with its running counters summed over the rows [mine]. *)
Definition with_totals (s : Session) (mine : gmap string MessageRow) : Session :=
  mkSession (s_project_name s) (s_project_path s) (s_start_time s) (s_end_time s)
    (sum_over m_InputTokens mine)
    (sum_over m_OutputTokens mine)
    (sum_over (fun m => m_InputTokens m + m_OutputTokens m) mine)
    (Z.of_nat (size mine))
    (s_status s).

(** Modelled from the spec: [TokenService.UpdateSessionTokens] is defined
    outside the files read here. It is the "session aggregate refresh"
    that follows the message write: the running token and message counters
    of the session are summed again over its stored messages. *)
Definition UpdateSessionTokens (sessionID : string) (st : Store) : Store :=
  match sessions st !! sessionID with
  | None => st
  | Some s =>
      with_sessions st
        (<[sessionID := with_totals s (selected (in_session sessionID) (messages st))]>
           (sessions st))
  end.

End TokenService.

(* ===================================================================== *)
(** * WindowAggregator *)
(* ===================================================================== *)

Module SessionWindowService.

(** Modelled from the spec: the constant is declared outside the files read
    here. "A fixed-duration (5-hour) non-overlapping time bucket": five
    hours, in seconds. *)
Definition SessionWindowDuration : Z := 5 * 3600.

Definition contains (timestamp : Z) (w : SessionWindow) : bool :=
  (window_start w <=? timestamp) && (timestamp <? window_end w).

(** Modelled from the spec: the search of [GetOrCreateWindowForMessage].
    "Find the window whose [start, end) contains timestamp"; the stored
    windows are searched in creation order. *)
Definition findWindowForTime (timestamp : Z) (ws : list SessionWindow)
  : option SessionWindow :=
  List.find (contains timestamp) ws.

(** The active window that comes immediately before [timestamp]: among
    the active windows that start before it, the one that starts last. *)
Definition later_active (timestamp : Z) (best : option SessionWindow)
    (w : SessionWindow) : option SessionWindow :=
  if is_active w && (window_start w <? timestamp) then
    match best with
    | Some b => if window_start b <? window_start w then Some w else best
    | None => Some w
    end
  else best.

Definition preceding_active (timestamp : Z) (ws : list SessionWindow)
  : option SessionWindow :=
  fold_left (later_active timestamp) ws None.

Definition deactivate (w : SessionWindow) : SessionWindow :=
  mkSessionWindow (w_id w) (window_start w) (window_end w) (reset_time w)
    (w_total_input_tokens w) (w_total_output_tokens w) (w_total_tokens w)
    (w_message_count w) (w_session_count w) false.

(** [UPDATE session_windows SET ... WHERE id = windowID]. *)
Definition update_where (windowID : nat) (f : SessionWindow -> SessionWindow)
    (ws : list SessionWindow) : list SessionWindow :=
  (fun w => if Nat.eqb (w_id w) windowID then f w else w) <$> ws.

Definition deactivate_preceding (timestamp : Z) (ws : list SessionWindow)
  : list SessionWindow :=
  match preceding_active timestamp ws with
  | Some b =>
      if window_end b <=? timestamp
      then update_where (w_id b) deactivate ws
      else ws
  | None => ws
  end.

(** Modelled from the spec: [GetOrCreateWindowForMessage] is defined
    outside the files read here. "Find the window whose [start, end)
    contains timestamp; if found, use it. Otherwise create a new window
    with start = timestamp, end = start + 5h, reset_time = end, is_active =
    true, and mark the immediately preceding active window (if its end <=
    timestamp) inactive." The id of a new window is the number of windows
    stored before it. *)
Definition GetOrCreateWindowForMessage (timestamp : Z)
    (ws : list SessionWindow) : list SessionWindow * SessionWindow :=
  match findWindowForTime timestamp ws with
  | Some w => (ws, w)
  | None =>
      let windowEnd := timestamp + SessionWindowDuration in
      let w := mkSessionWindow (length ws) timestamp windowEnd windowEnd
                 0 0 0 0 0 true in
      (deactivate_preceding timestamp ws ++ [w], w)
  end.

Definition with_stats (w : SessionWindow) (mine : gmap string MessageRow)
  : SessionWindow :=
  mkSessionWindow (w_id w) (window_start w) (window_end w) (reset_time w)
    (sum_over m_InputTokens mine)
    (sum_over m_OutputTokens mine)
    (sum_over (fun m => m_InputTokens m + m_OutputTokens m) mine)
    (Z.of_nat (size mine))
    (Z.of_nat (size (session_ids mine)))
    (is_active w).

(** Modelled from the spec: [UpdateWindowStats] is defined outside the
    files read here. "recomputeStats re-sums token/message/session counts
    for all messages currently assigned to a window." *)
Definition UpdateWindowStats (windowID : nat) (st : Store) : Store :=
  with_windows st
    (update_where windowID
       (fun w => with_stats w (selected (in_window windowID) (messages st)))
       (session_windows st)).

End SessionWindowService.

(* ===================================================================== *)
(** * Errors, the outside world, and the monad of the parser *)
(* ===================================================================== *)

(** Go's [error] values: the ones the parser meets, and [fmt.Errorf] with
    [%w] around a cause. *)
Inductive Err :=
| ErrStore
| ErrTooLong
| ErrOpen
| ErrHomeDir
| ErrReadDir
| ErrBadPattern
| ErrNotFound (dir : string)
| Wrapped (msg : string) (cause : Err).

(** What [fmt.Printf] writes: one constructor per call in the source. *)
Inductive Event :=
| LookingForProjects (claudeDir : string)
| FoundProjects (n : nat)
| SyncingProject (name : string)
| ErrorSyncingProject (name : string) (e : Err)
| FoundFiles (n : nat) (projectPath : string)
| ProcessingFile (file : string)
| ErrorParsingFile (file : string) (e : Err)
| ErrorUnmarshaling (lineCount : nat) (fileName : string)
| ProblematicLine (line : string)
| ErrorProcessingEntry (lineCount : nat) (fileName uuid sessionID : string) (e : Err)
| EntryDetails (entry : LogEntry)
| Processed (processedCount lineCount : nat) (filePath : string)
| UpsertedAssistant (id sessionID : string) (timestamp tokens : Z).

Inductive StatResult := StatOk | StatNotExist | StatError.

Record DirEntry := mkDirEntry { Name : string; IsDir : bool }.

(** The file system as the parser sees it. A readable file is the list of
    its raw lines: the bytes between line feeds. A file that opens and
    then cannot be read to its end (a directory, a failing disk) is not
    among the files of the model: what is said of a file is said of a
    file that is given by its lines. *)
Record FileSystem := mkFileSystem {
  os_UserHomeDir : option string;
  os_Stat : string -> StatResult;
  os_ReadDir : string -> option (list DirEntry);
  filepath_Glob : string -> option (list string);
  os_Open : string -> option (list string)
}.

(** The state the parser runs in: the store, the outcome of each coming
    database call ([true]: the call fails; past the end of the list every
    call succeeds), the clock, and what was printed. *)
Record World := mkWorld {
  db : Store;
  db_faults : list bool;
  clock : Z;
  stdout : list Event
}.

(** A Go function that returns [(A, error)], or [error] alone when [A] is
    [unit]. *)
Definition M (A : Type) : Type := World -> (Err + A) * World.

#[global] Instance M_ret : MRet M := fun A (a : A) w => (inr a, w).

#[global] Instance M_bind : MBind M := fun A B (k : A -> M B) (m : M A) w =>
  match m w with
  | (inl e, w') => (inl e, w')
  | (inr a, w') => k a w'
  end.

(** [return err]. *)
Definition fail {A} (e : Err) : M A := fun w => (inl e, w).

(** [if err != nil { return fmt.Errorf("msg: %w", err) }]. *)
Definition wrap {A} (msg : string) (m : M A) : M A := fun w =>
  match m w with
  | (inl e, w') => (inl (Wrapped msg e), w')
  | (inr a, w') => (inr a, w')
  end.

(** [if err := m; err != nil { ... }] with a body that goes on. *)
Definition attempt {A} (m : M A) : M (Err + A) := fun w =>
  let '(r, w') := m w in (inr r, w').

Definition printf (e : Event) : M unit := fun w =>
  (inr tt, mkWorld (db w) (db_faults w) (clock w) (stdout w ++ [e])).

(** [time.Now()]: every reading is later than the one before. *)
Definition time_Now : M Z := fun w =>
  (inr (clock w), mkWorld (db w) (db_faults w) (clock w + 1) (stdout w)).

(** One call into the database: it fails and leaves the store as it was, or
    it runs [op]. *)
Definition db_call {A} (op : Store -> Store * A) : M A := fun w =>
  match db_faults w with
  | true :: rest => (inl ErrStore, mkWorld (db w) rest (clock w) (stdout w))
  | false :: rest =>
      let '(st, a) := op (db w) in (inr a, mkWorld st rest (clock w) (stdout w))
  | [] =>
      let '(st, a) := op (db w) in (inr a, mkWorld st [] (clock w) (stdout w))
  end.

(** The services as database calls. *)
Definition CreateOrUpdateSession (sessionID projectName projectPath : string)
    (timestamp : Z) : M unit :=
  db_call (fun st =>
    (with_sessions st
       (SessionService.CreateOrUpdateSession sessionID projectName projectPath
          timestamp (sessions st)), tt)).

Definition GetOrCreateWindowForMessage (timestamp : Z) : M SessionWindow :=
  db_call (fun st =>
    let '(ws, w) :=
      SessionWindowService.GetOrCreateWindowForMessage timestamp (session_windows st) in
    (with_windows st ws, w)).

Definition UpdateWindowStats (windowID : nat) : M unit :=
  db_call (fun st => (SessionWindowService.UpdateWindowStats windowID st, tt)).

Definition UpdateSessionTokens (sessionID : string) : M unit :=
  db_call (fun st => (TokenService.UpdateSessionTokens sessionID st, tt)).

(* ===================================================================== *)
(** * The JSONL parser *)
(* ===================================================================== *)

Module JSONLParser.
Import GoStrings Filepath Resolver.

(** [filepath.Join]: the non-empty elements, joined and cleaned. *)
Definition Join (elems : list string) : string :=
  match List.filter (fun e => negb (String.eqb e "")) elems with
  | [] => ""
  | ne => Clean (String.concat "/" ne)
  end.

(** [filepath.Base]: the last element of the path. *)
Definition Base (path : string) : string :=
  if String.eqb path "" then "."
  else
    match List.filter (fun e => negb (String.eqb e ""))
                      (List.rev (Split path slash)) with
    | [] => "/"
    | e :: _ => e
    end.

(** [convertContentToString]. *)
Definition convertContentToString (content : Content) : string :=
  match content with
  | ContentString v => v
  | ContentObject data => data
  | ContentArray data => data
  | ContentOther v => v
  end.

(** The upsert of [insertMessage] on the table: [INSERT OR REPLACE] on the
    primary key [id], with [time.Now()] in [created_at]. *)
Definition upsert_message (message : Message) (now : Z) (st : Store) : Store :=
  with_messages st (<[m_ID message := mkMessageRow message now]> (messages st)).

(** [insertMessage]. *)
Definition insertMessage (message : Message) : M unit :=
  now ← time_Now;
  wrap "failed to upsert message"
       (db_call (fun st => (upsert_message message now st, tt)));;
  if bool_decide (m_MessageRole message = Some "assistant")
  then printf (UpsertedAssistant (m_ID message) (m_SessionID message)
                 (m_Timestamp message)
                 (m_InputTokens message + m_OutputTokens message))
  else mret tt.

(** The [models.Message] that [processLogEntry] builds from an entry. *)
Definition message_of (entry : LogEntry) (windowID : option nat) : Message :=
  let msg := EntryMessage entry in
  let usage := lm_Usage msg in
  mkMessage (UUID entry) (SessionID entry) windowID (ParentUUID entry)
    (IsSidechain entry) (Some (UserType entry)) (lm_Type msg)
    (Some (lm_Role msg)) (lm_Model msg)
    (convertContentToString <$> lm_Content msg)
    (from_option InputTokens 0 usage)
    (from_option CacheCreationInputTokens 0 usage)
    (from_option CacheReadInputTokens 0 usage)
    (from_option OutputTokens 0 usage)
    (ServiceTier <$> usage)
    (RequestID entry) (Timestamp entry).

(** [processLogEntry]. *)
Definition processLogEntry (entry : LogEntry) (projectName : string) : M unit :=
  let '(actualProjectName, actualProjectPath) := resolveProject entry projectName in
  wrap "failed to create/update session"
       (CreateOrUpdateSession (SessionID entry) actualProjectName
          actualProjectPath (Timestamp entry));;
  window ← wrap "failed to get/create session window"
                (GetOrCreateWindowForMessage (Timestamp entry));
  let message := message_of entry (Some (w_id window)) in
  wrap "failed to insert message" (insertMessage message);;
  wrap "failed to update window stats" (UpdateWindowStats (w_id window));;
  wrap "failed to update session tokens" (UpdateSessionTokens (SessionID entry));;
  mret tt.

(** The scanner of [parseJSONLFile]: [bufio.Scanner] with [ScanLines] and
    a buffer of [maxCapacity] bytes. *)
Definition maxCapacity : Z := 10 * 1024 * 1024.

Inductive ScanResult :=
| Token (text : string) (rest : list string)
| EndOfInput
| ScanError (e : Err).

(** [dropCR] of [bufio.ScanLines]: one carriage return at the end of the
    line is not part of the token. *)
Fixpoint dropCR (line : string) : string :=
  match line with
  | EmptyString => EmptyString
  | String c EmptyString =>
      if Ascii.eqb c "013"%char then EmptyString else line
  | String c rest => String c (dropCR rest)
  end.

(** [scanner.Scan()] followed by [scanner.Text()]. A line and its line
    feed have to fit in the buffer together; a line of [maxCapacity] bytes
    or more fills the buffer and ends the scan with [bufio.ErrTooLong].
    That is the one error of the scanner here: the reader below it gives
    the lines of the file and does not fail (see [FileSystem]). *)
Definition Scan (input : list string) : ScanResult :=
  match input with
  | [] => EndOfInput
  | raw :: rest =>
      if Z.of_nat (String.length raw) <? maxCapacity
      then Token (dropCR raw) rest
      else ScanError ErrTooLong
  end.

Section WithDecoder.

(** [json.Unmarshal] into a [models.LogEntry]: [None] when it returns an
    error. *)
Variable Unmarshal : string -> option LogEntry.

(** The loop [for scanner.Scan() { ... }] of [parseJSONLFile]. It
    returns the two counters and [scanner.Err()]. *)
Fixpoint scan_loop (fileName projectName : string) (input : list string)
    (lineCount processedCount : nat) : M (nat * nat * option Err) :=
  match input with
  | [] => mret (lineCount, processedCount, None)
  | raw :: rest =>
      match Scan input with
      | EndOfInput => mret (lineCount, processedCount, None)
      | ScanError e => mret (lineCount, processedCount, Some e)
      | Token text _ =>
          let lineCount := S lineCount in
          let line := TrimSpace text in
          if String.eqb line "" then
            scan_loop fileName projectName rest lineCount processedCount
          else
            match Unmarshal line with
            | None =>
                printf (ErrorUnmarshaling lineCount fileName);;
                printf (ProblematicLine line);;
                scan_loop fileName projectName rest lineCount processedCount
            | Some entry =>
                r ← attempt (processLogEntry entry projectName);
                match r with
                | inl err =>
                    printf (ErrorProcessingEntry lineCount fileName
                              (UUID entry) (SessionID entry) err);;
                    printf (EntryDetails entry);;
                    scan_loop fileName projectName rest lineCount processedCount
                | inr _ =>
                    scan_loop fileName projectName rest lineCount
                              (S processedCount)
                end
            end
      end
  end.

(** [parseJSONLFile]. *)
Definition parseJSONLFile (fs : FileSystem) (filePath projectName : string)
  : M unit :=
  match os_Open fs filePath with
  | None => fail (Wrapped "failed to open file" ErrOpen)
  | Some input =>
      let fileName := Base filePath in
      '(lineCount, processedCount, scanErr) ←
        scan_loop fileName projectName input 0 0;
      printf (Processed processedCount lineCount filePath);;
      match scanErr with
      | Some e => fail e
      | None => mret tt
      end
  end.

(** The loop [for _, file := range files] of [syncProjectLogs]. *)
Fixpoint files_loop (fs : FileSystem) (projectName : string)
    (files : list string) : M unit :=
  match files with
  | [] => mret tt
  | file :: rest =>
      printf (ProcessingFile file);;
      r ← attempt (parseJSONLFile fs file projectName);
      match r with
      | inl err => printf (ErrorParsingFile file err)
      | inr _ => mret tt
      end;;
      files_loop fs projectName rest
  end.

(** [syncProjectLogs]. *)
Definition syncProjectLogs (fs : FileSystem) (projectPath projectName : string)
  : M unit :=
  match filepath_Glob fs (Join [projectPath; "*.jsonl"]) with
  | None => fail (Wrapped "failed to glob jsonl files" ErrBadPattern)
  | Some files =>
      printf (FoundFiles (length files) projectPath);;
      files_loop fs projectName files
  end.

(** The loop [for _, entry := range entries] of [SyncAllLogs]. *)
Fixpoint entries_loop (fs : FileSystem) (claudeDir : string)
    (entries : list DirEntry) : M unit :=
  match entries with
  | [] => mret tt
  | entry :: rest =>
      (if IsDir entry then
         let projectPath := Join [claudeDir; Name entry] in
         printf (SyncingProject (Name entry));;
         r ← attempt (syncProjectLogs fs projectPath (Name entry));
         match r with
         | inl err => printf (ErrorSyncingProject (Name entry) err)
         | inr _ => mret tt
         end
       else mret tt);;
      entries_loop fs claudeDir rest
  end.

(** [SyncAllLogs]. *)
Definition SyncAllLogs (fs : FileSystem) : M unit :=
  match os_UserHomeDir fs with
  | None => fail (Wrapped "failed to get home directory" ErrHomeDir)
  | Some homeDir =>
      let claudeDir := Join [homeDir; ".claude"; "projects"] in
      printf (LookingForProjects claudeDir);;
      match os_Stat fs claudeDir with
      | StatNotExist => fail (ErrNotFound claudeDir)
      | _ =>
          match os_ReadDir fs claudeDir with
          | None =>
              fail (Wrapped "failed to read claude projects directory" ErrReadDir)
          | Some entries =>
              printf (FoundProjects (length entries));;
              entries_loop fs claudeDir entries
          end
      end
  end.

End WithDecoder.

End JSONLParser.

(* ===================================================================== *)
(** * Notions used in the statements *)
(* ===================================================================== *)

Module Notions.
Import GoStrings JSONLParser.

(** ** Worlds and entries *)

(** The world after the events [es] were printed. *)
Definition print_all (es : list Event) (w : World) : World :=
  mkWorld (db w) (db_faults w) (clock w) (stdout w ++ es).

(** What one entry does to the store when no database call fails: the
    five calls of [processLogEntry] in their order, [now] being the
    reading of the clock in [insertMessage]. *)
Definition ingest (entry : LogEntry) (projectName : string) (now : Z)
    (st : Store) : Store :=
  let '(actualProjectName, actualProjectPath) :=
    Resolver.resolveProject entry projectName in
  let st1 := with_sessions st
               (SessionService.CreateOrUpdateSession (SessionID entry)
                  actualProjectName actualProjectPath (Timestamp entry)
                  (sessions st)) in
  let '(ws, window) :=
    SessionWindowService.GetOrCreateWindowForMessage (Timestamp entry)
      (session_windows st1) in
  let st2 := with_windows st1 ws in
  let st3 := upsert_message (message_of entry (Some (w_id window))) now st2 in
  let st4 := SessionWindowService.UpdateWindowStats (w_id window) st3 in
  TokenService.UpdateSessionTokens (SessionID entry) st4.

(** What [insertMessage] prints for the message of an entry. *)
Definition upsert_events (entry : LogEntry) : list Event :=
  if bool_decide (Some (lm_Role (EntryMessage entry)) = Some "assistant")
  then [UpsertedAssistant (UUID entry) (SessionID entry) (Timestamp entry)
          (from_option InputTokens 0 (lm_Usage (EntryMessage entry))
           + from_option OutputTokens 0 (lm_Usage (EntryMessage entry)))]
  else [].

(** The session table after the first call of [processLogEntry]. *)
Definition session_upsert (entry : LogEntry) (projectName : string)
    (tbl : gmap string Session) : gmap string Session :=
  SessionService.CreateOrUpdateSession (SessionID entry)
    (Resolver.resolveProject entry projectName).1
    (Resolver.resolveProject entry projectName).2
    (Timestamp entry) tbl.

(** The session row that [CreateOrUpdateSession] writes over the row [old]. *)
Definition upserted (projectName projectPath : string) (timestamp : Z)
    (old : option Session) : Session :=
  match old with
  | None =>
      mkSession projectName projectPath timestamp (Some timestamp)
        0 0 0 0 "active"
  | Some s =>
      mkSession (s_project_name s) (s_project_path s) (s_start_time s)
        (Some (Z.max (default (s_start_time s) (s_end_time s)) timestamp))
        (s_total_input_tokens s) (s_total_output_tokens s) (s_total_tokens s)
        (s_message_count s) (s_status s)
  end.

(** The id of the window that [GetOrCreateWindowForMessage] returns. *)
Definition assigned_window (timestamp : Z) (ws : list SessionWindow) : nat :=
  w_id (SessionWindowService.GetOrCreateWindowForMessage timestamp ws).2.

(** The row that [insertMessage] writes for an entry. *)
Definition row_of (entry : LogEntry) (ws : list SessionWindow) (now : Z)
  : MessageRow :=
  mkMessageRow
    (message_of entry (Some (assigned_window (Timestamp entry) ws))) now.

(** The stored messages without their [created_at]. *)
Definition stored_messages (st : Store) : gmap string Message :=
  row_message <$> messages st.

(** Entries with the name of the project directory they were found in. *)
Definition tagged (projectName : string) (entries : list LogEntry)
  : list (string * LogEntry) :=
  (fun entry => (projectName, entry)) <$> entries.

(** The store after a sequence of entries, each with the name of its
    project directory, went through [ingest], the clock being read once for
    each. *)
Fixpoint replay (trace : list (string * LogEntry)) (now : Z) (st : Store)
  : Store :=
  match trace with
  | [] => st
  | (projectName, entry) :: rest =>
      replay rest (now + 1) (ingest entry projectName now st)
  end.

(** [w'] is [w] after the entries of [trace] were processed with no failing
    database call. *)
Definition replays (trace : list (string * LogEntry)) (w w' : World) : Prop :=
  db w' = replay trace (clock w) (db w)
  /\ db_faults w' = []
  /\ clock w' = clock w + Z.of_nat (length trace).

(** The coming [n] database calls succeed. *)
Definition calls_succeed (n : nat) (w : World) : Prop :=
  Forall (fun fails => fails = false) (take n (db_faults w)).

(** ** Lines of a file *)

(** A line the buffer of the scanner has room for. *)
Definition fits (raw : string) : Prop :=
  Z.of_nat (String.length raw) < maxCapacity.

(** What the loop of [parseJSONLFile] makes of a line it was handed. *)
Inductive LineKind :=
| BlankLine
| MalformedLine
| ValidLine (entry : LogEntry).

Definition classify (Unmarshal : string -> option LogEntry) (raw : string)
  : LineKind :=
  let line := TrimSpace (dropCR raw) in
  if String.eqb line "" then BlankLine
  else match Unmarshal line with
       | None => MalformedLine
       | Some entry => ValidLine entry
       end.

(** The entries of the valid lines, in their order. *)
Fixpoint valid_entries (Unmarshal : string -> option LogEntry)
    (input : list string) : list LogEntry :=
  match input with
  | [] => []
  | raw :: rest =>
      match classify Unmarshal raw with
      | ValidLine entry => entry :: valid_entries Unmarshal rest
      | _ => valid_entries Unmarshal rest
      end
  end.

(** The number of malformed lines. *)
Fixpoint malformed_lines (Unmarshal : string -> option LogEntry)
    (input : list string) : nat :=
  match input with
  | [] => O
  | raw :: rest =>
      match classify Unmarshal raw with
      | MalformedLine => S (malformed_lines Unmarshal rest)
      | _ => malformed_lines Unmarshal rest
      end
  end.

(** The entries that the loop of [parseJSONLFile] processes: those of the
    valid lines before the first line that does not fit. *)
Fixpoint scanned_entries (Unmarshal : string -> option LogEntry)
    (input : list string) : list LogEntry :=
  match input with
  | [] => []
  | raw :: rest =>
      if Z.of_nat (String.length raw) <? maxCapacity then
        match classify Unmarshal raw with
        | ValidLine entry => entry :: scanned_entries Unmarshal rest
        | _ => scanned_entries Unmarshal rest
        end
      else []
  end.

(** The parse failures on record: the lines printed for a line that
    [json.Unmarshal] refused. *)
Definition is_parse_failure (e : Event) : bool :=
  match e with
  | ErrorUnmarshaling _ _ => true
  | _ => false
  end.

Definition parse_failures (out : list Event) : nat :=
  length (List.filter is_parse_failure out).

(** ** The entries of a sync run *)

(** The entries that [parseJSONLFile], [syncProjectLogs] and [SyncAllLogs]
    process, in their order. *)
Definition file_trace (Unmarshal : string -> option LogEntry)
    (fs : FileSystem) (projectName file : string) : list (string * LogEntry) :=
  match os_Open fs file with
  | None => []
  | Some input => tagged projectName (scanned_entries Unmarshal input)
  end.

Definition project_trace (Unmarshal : string -> option LogEntry)
    (fs : FileSystem) (projectPath projectName : string)
  : list (string * LogEntry) :=
  match filepath_Glob fs (Join [projectPath; "*.jsonl"]) with
  | None => []
  | Some files => flat_map (file_trace Unmarshal fs projectName) files
  end.

Definition sync_trace (Unmarshal : string -> option LogEntry)
    (fs : FileSystem) : list (string * LogEntry) :=
  match os_UserHomeDir fs with
  | None => []
  | Some homeDir =>
      let claudeDir := Join [homeDir; ".claude"; "projects"] in
      match os_Stat fs claudeDir with
      | StatNotExist => []
      | _ =>
          match os_ReadDir fs claudeDir with
          | None => []
          | Some entries =>
              flat_map (fun entry =>
                          if IsDir entry
                          then project_trace Unmarshal fs
                                 (Join [claudeDir; Name entry]) (Name entry)
                          else [])
                       entries
          end
      end
  end.

(** ** Windows and their counters *)

(** The interval [start, end) of a window. *)
Definition bounds (w : SessionWindow) : Z * Z := (window_start w, window_end w).

(** Every stored window is exactly [SessionWindowDuration] long. *)
Definition fixed_length (ws : list SessionWindow) : Prop :=
  Forall (fun b => b.2 - b.1 = SessionWindowService.SessionWindowDuration)
         (bounds <$> ws).

(** No two stored windows overlap. *)
Definition disjoint_windows (ws : list SessionWindow) : Prop :=
  forall i j a b,
    i <> j ->
    (bounds <$> ws) !! i = Some a ->
    (bounds <$> ws) !! j = Some b ->
    a.2 <= b.1 \/ b.2 <= a.1.

(** No stored window starts in the five hours after [timestamp]. *)
Definition clear_ahead (timestamp : Z) (ws : list SessionWindow) : Prop :=
  Forall (fun b => b.1 <= timestamp
                   \/ timestamp + SessionWindowService.SessionWindowDuration <= b.1)
         (bounds <$> ws).

(** Some stored window has [timestamp] in its interval. *)
Definition covered (timestamp : Z) (ws : list SessionWindow) : Prop :=
  Exists (fun b => b.1 <= timestamp < b.2) (bounds <$> ws).

(** Every stored window starts at [timestamp] or before. *)
Definition started_by (timestamp : Z) (ws : list SessionWindow) : Prop :=
  Forall (fun b => b.1 <= timestamp) (bounds <$> ws).

(** "Summing input_tokens + output_tokens over all messages in a window." *)
Definition token_total (m : Message) : Z := m_InputTokens m + m_OutputTokens m.

Definition window_token_sum (windowID : nat) (msgs : gmap string MessageRow)
  : Z :=
  foldr Z.add 0
    ((fun kv => token_total (row_message kv.2))
       <$> filter (fun kv => m_SessionWindowID (row_message kv.2) = Some windowID)
             (map_to_list msgs)).


(** ** A second run *)










(** ** Examples *)

(** A world with an empty store in which no database call fails. *)
Definition fresh_world : World := mkWorld empty_store [] 0 [].

(** The entry [json.Unmarshal] fills from the line [{}]: an object with no
    field leaves every field at its zero value. *)
Definition blank_entry : LogEntry :=
  mkLogEntry "" None "" false "" "" 0 None
    (mkLogMessage None "" None None None).

(** A decoder for the examples. It does what [json.Unmarshal] does on the
    line [{}] and on text that is no JSON value. *)
Definition decode_braces (line : string) : option LogEntry :=
  if String.eqb line "{}" then Some blank_entry else None.

(** An entry of a user message with the given id and timestamp. *)
Definition entry_at (id : string) (timestamp : Z) : LogEntry :=
  mkLogEntry id None "s1" false "external" "/home/u/proj" timestamp None
    (mkLogMessage None "user" None None None).

(** A file system that holds one log file, [/x.jsonl]. *)
Definition one_file (input : list string) : FileSystem :=
  mkFileSystem (Some "/home/u") (fun _ => StatOk)
    (fun _ => Some [mkDirEntry "-home-u-proj" true])
    (fun _ => Some ["/x.jsonl"])
    (fun _ => Some input).


(** A line of [n] bytes. *)
Fixpoint line_of (n : nat) : string :=
  match n with
  | O => EmptyString
  | S k => String "x"%char (line_of k)
  end.

(** A line of twenty megabytes. *)
Definition long_line : string := line_of (Z.to_nat (20 * 1024 * 1024)).

(** A line of [n] blanks, and one of ten megabytes. *)
Fixpoint blanks (n : nat) : string :=
  match n with
  | O => EmptyString
  | S k => String " "%char (blanks k)
  end.

Definition wide_blank_line : string := blanks (Z.to_nat maxCapacity).

(** The two lines of the end-to-end scenario of the specification: a
    message with the working directory [/home/u/proj/backend], session [s1]
    and 100 + 50 tokens, and ten minutes later a message of the same session
    with 20 + 5 tokens. *)
Definition first_line : LogEntry :=
  mkLogEntry "m1" None "s1" false "external" "/home/u/proj/backend" 1000 None
    (mkLogMessage None "assistant" None None
       (Some (mkUsage 100 0 0 50 "standard"))).

Definition second_line : LogEntry :=
  mkLogEntry "m2" (Some "m1") "s1" false "external" "" 1600 None
    (mkLogMessage None "assistant" None None
       (Some (mkUsage 20 0 0 5 "standard"))).

End Notions.

(* ===================================================================== *)
(** * Further notions: what a run reads, counts and reports *)
(* ===================================================================== *)

Module Ledger.
Import GoStrings Filepath JSONLParser Notions.

(** ** Names and paths *)

(** The string holds the byte [c]. *)
Fixpoint has_byte (c : ascii) (s : string) : bool :=
  match s with
  | EmptyString => false
  | String d s' => Ascii.eqb d c || has_byte c s'
  end.

(** A name of a file or directory: not empty, not a dot element, and
    with no slash in it. *)
Definition plain_name (name : string) : bool :=
  Resolver.meaningful name && negb (has_byte slash name).

(** The path that [filepath.Clean] writes for a stack of kept elements. *)
Definition render (rooted : bool) (stack : list string) : string :=
  (if rooted then "/" else "") +:+ String.concat "/" (List.rev stack).

(** The stacks that [filepath.Clean] builds: plain names, above [..]
    elements when the path is relative. *)
Inductive clean_stack (rooted : bool) : list string -> Prop :=
| clean_bottom : clean_stack rooted []
| clean_up n :
    rooted = false -> clean_stack rooted (replicate (S n) "..")
| clean_name name stack :
    plain_name name = true -> clean_stack rooted stack ->
    clean_stack rooted (name :: stack).

(** ** Database calls *)

(** The error that [processLogEntry] returns when the database call number
    [k] (from 0) is the first one to fail: the calls are, in their order,
    [CreateOrUpdateSession], [GetOrCreateWindowForMessage], the upsert of
    [insertMessage], [UpdateWindowStats] and [UpdateSessionTokens]. *)
Definition stage_error (k : nat) : Err :=
  match k with
  | 0%nat => Wrapped "failed to create/update session" ErrStore
  | 1%nat => Wrapped "failed to get/create session window" ErrStore
  | 2%nat => Wrapped "failed to insert message"
               (Wrapped "failed to upsert message" ErrStore)
  | 3%nat => Wrapped "failed to update window stats" ErrStore
  | _ => Wrapped "failed to update session tokens" ErrStore
  end.

(** What [insertMessage] prints for a message that it has written. *)
Definition upsert_log (message : Message) : list Event :=
  if bool_decide (m_MessageRole message = Some "assistant")
  then [UpsertedAssistant (m_ID message) (m_SessionID message)
          (m_Timestamp message)
          (m_InputTokens message + m_OutputTokens message)]
  else [].

(** Two worlds with the same database, the same coming outcomes of its
    calls and the same clock; what was printed may differ. *)
Definition same_state (w1 w2 : World) : Prop :=
  db w1 = db w2 /\ db_faults w1 = db_faults w2 /\ clock w1 = clock w2.

(** The world after the entries of a sequence, each with the name of its
    project directory, went through [processLogEntry] one after the other,
    an entry that fails being passed by. *)
Fixpoint run_trace (trace : list (string * LogEntry)) (w : World) : World :=
  match trace with
  | [] => w
  | (projectName, entry) :: rest =>
      run_trace rest (processLogEntry entry projectName w).2
  end.

(** ** Lines *)

(** A carriage return, the byte that ends a line of a CRLF file before its
    line feed. *)
Definition CR : string := String "013"%char EmptyString.

(** The lines that the scanner hands to the loop of [parseJSONLFile]: the
    lines before the first one that the buffer has no room for. *)
Fixpoint scanned (input : list string) : list string :=
  match input with
  | [] => []
  | raw :: rest =>
      if Z.of_nat (String.length raw) <? maxCapacity
      then raw :: scanned rest
      else []
  end.

(** The number of lines that are empty once trimmed. *)
Fixpoint blank_lines (Unmarshal : string -> option LogEntry)
    (input : list string) : nat :=
  match input with
  | [] => O
  | raw :: rest =>
      match classify Unmarshal raw with
      | BlankLine => S (blank_lines Unmarshal rest)
      | _ => blank_lines Unmarshal rest
      end
  end.

(** The entries on record as failed: the lines printed for an entry that
    [processLogEntry] returned an error for. *)
Definition is_entry_failure (e : Event) : bool :=
  match e with
  | ErrorProcessingEntry _ _ _ _ _ => true
  | _ => false
  end.

Definition entry_failures (out : list Event) : nat :=
  length (List.filter is_entry_failure out).

(** ** Files *)

(** The files that the output announces, the files it gives the counts
    of, and the files it reports an error of, each in the order of the
    output. *)
Definition announced_file (e : Event) : option string :=
  match e with
  | ProcessingFile file => Some file
  | _ => None
  end.

Definition counted_file (e : Event) : option string :=
  match e with
  | Processed _ _ filePath => Some filePath
  | _ => None
  end.

Definition failed_file (e : Event) : option string :=
  match e with
  | ErrorParsingFile file _ => Some file
  | _ => None
  end.

(** Events that are about no file as a whole. *)
Definition quiet (es : list Event) : Prop :=
  omap announced_file es = [] /\ omap counted_file es = []
  /\ omap failed_file es = [].

(** The file can be opened. *)
Definition opens (fs : FileSystem) (file : string) : bool :=
  match os_Open fs file with
  | Some _ => true
  | None => false
  end.

(** The file can be opened and each of its lines fits the buffer of the
    scanner. *)
Definition reads_to_end (fs : FileSystem) (file : string) : bool :=
  match os_Open fs file with
  | Some input => bool_decide (scanned input = input)
  | None => false
  end.

(** ** Examples *)

(** A project with two log files: [/a.jsonl] cannot be opened and
    [/b.jsonl] holds the lines [input]. *)
Definition two_files (input : list string) : FileSystem :=
  mkFileSystem (Some "/home/u") (fun _ => StatOk)
    (fun _ => Some [mkDirEntry "-home-u-proj" true])
    (fun _ => Some ["/a.jsonl"; "/b.jsonl"])
    (fun file => if String.eqb file "/b.jsonl" then Some input else None).

(** A file system whose projects directory holds a directory whose
    pattern [filepath.Glob] refuses, a plain file, and a project directory
    with the log file [/x.jsonl]. *)
Definition bad_pattern_first (input : list string) : FileSystem :=
  mkFileSystem (Some "/home/u") (fun _ => StatOk)
    (fun _ => Some [mkDirEntry "[" true; mkDirEntry "notes.txt" false;
                    mkDirEntry "-home-u-proj" true])
    (fun pattern =>
       if String.eqb pattern "/home/u/.claude/projects/[/*.jsonl" then None
       else Some ["/x.jsonl"])
    (fun _ => Some input).

End Ledger.

(* ===================================================================== *)
(** * [database]: opening the database and creating its tables *)
(* ===================================================================== *)

Module Database.
Import GoStrings Filepath JSONLParser.

(** A column of a [CREATE TABLE]: its name, its type, and the rest of its
    definition. *)
Record Column := mkColumn {
  c_name : string;
  c_type : string;
  c_constraint : string
}.

(** [FOREIGN KEY (column) REFERENCES table (target)]. *)
Record ForeignKey := mkForeignKey {
  fk_column : string;
  fk_table : string;
  fk_target : string
}.

(** The statements that [createTables] sends; each of them is written with
    [IF NOT EXISTS]. *)
Inductive Query :=
| CreateTable (table : string) (columns : list Column)
    (foreign_keys : list ForeignKey)
| AddColumn (table : string) (column : Column)
| CreateIndex (index table : string) (columns : list string).

(** The slice [queries] of [createTables]. *)
Definition queries : list Query :=
  [ CreateTable "sessions"
      [ mkColumn "id" "VARCHAR" "PRIMARY KEY";
        mkColumn "project_name" "VARCHAR" "NOT NULL";
        mkColumn "project_path" "VARCHAR" "NOT NULL";
        mkColumn "start_time" "TIMESTAMP" "NOT NULL";
        mkColumn "end_time" "TIMESTAMP" "";
        mkColumn "total_input_tokens" "INTEGER" "DEFAULT 0";
        mkColumn "total_output_tokens" "INTEGER" "DEFAULT 0";
        mkColumn "total_tokens" "INTEGER" "DEFAULT 0";
        mkColumn "message_count" "INTEGER" "DEFAULT 0";
        mkColumn "status" "VARCHAR" "DEFAULT 'active'";
        mkColumn "created_at" "TIMESTAMP" "DEFAULT CURRENT_TIMESTAMP" ]
      [];
    CreateTable "messages"
      [ mkColumn "id" "VARCHAR" "PRIMARY KEY";
        mkColumn "session_id" "VARCHAR" "NOT NULL";
        mkColumn "session_window_id" "TEXT" "";
        mkColumn "parent_uuid" "VARCHAR" "";
        mkColumn "is_sidechain" "BOOLEAN" "DEFAULT false";
        mkColumn "user_type" "VARCHAR" "";
        mkColumn "message_type" "VARCHAR" "";
        mkColumn "message_role" "VARCHAR" "";
        mkColumn "model" "VARCHAR" "";
        mkColumn "content" "TEXT" "";
        mkColumn "input_tokens" "INTEGER" "DEFAULT 0";
        mkColumn "cache_creation_input_tokens" "INTEGER" "DEFAULT 0";
        mkColumn "cache_read_input_tokens" "INTEGER" "DEFAULT 0";
        mkColumn "output_tokens" "INTEGER" "DEFAULT 0";
        mkColumn "service_tier" "VARCHAR" "";
        mkColumn "request_id" "VARCHAR" "";
        mkColumn "timestamp" "TIMESTAMP" "NOT NULL";
        mkColumn "created_at" "TIMESTAMP" "DEFAULT CURRENT_TIMESTAMP" ]
      [ mkForeignKey "session_id" "sessions" "id" ];
    CreateTable "session_windows"
      [ mkColumn "id" "TEXT" "PRIMARY KEY";
        mkColumn "window_start" "TIMESTAMP" "NOT NULL";
        mkColumn "window_end" "TIMESTAMP" "NOT NULL";
        mkColumn "reset_time" "TIMESTAMP" "NOT NULL";
        mkColumn "total_input_tokens" "INTEGER" "DEFAULT 0";
        mkColumn "total_output_tokens" "INTEGER" "DEFAULT 0";
        mkColumn "total_tokens" "INTEGER" "DEFAULT 0";
        mkColumn "message_count" "INTEGER" "DEFAULT 0";
        mkColumn "session_count" "INTEGER" "DEFAULT 0";
        mkColumn "is_active" "BOOLEAN" "DEFAULT true";
        mkColumn "created_at" "TIMESTAMP" "DEFAULT CURRENT_TIMESTAMP";
        mkColumn "updated_at" "TIMESTAMP" "DEFAULT CURRENT_TIMESTAMP" ]
      [];
    AddColumn "messages" (mkColumn "session_window_id" "TEXT" "");
    CreateIndex "idx_sessions_project_name" "sessions" ["project_name"];
    CreateIndex "idx_sessions_start_time" "sessions" ["start_time"];
    CreateIndex "idx_sessions_status" "sessions" ["status"];
    CreateIndex "idx_messages_session_id" "messages" ["session_id"];
    CreateIndex "idx_messages_session_window_id" "messages" ["session_window_id"];
    CreateIndex "idx_messages_timestamp" "messages" ["timestamp"];
    CreateIndex "idx_messages_message_role" "messages" ["message_role"];
    CreateIndex "idx_session_windows_times" "session_windows"
      ["window_start"; "window_end"];
    CreateIndex "idx_session_windows_active" "session_windows" ["is_active"];
    CreateIndex "idx_session_windows_reset_time" "session_windows" ["reset_time"] ].

(** The columns that the statement of [insertMessage] names, in its
    order; the eighteen values of the call follow the same order. *)
Definition upsert_columns : list string :=
  [ "id"; "session_id"; "session_window_id"; "parent_uuid"; "is_sidechain";
    "user_type"; "message_type"; "message_role"; "model"; "content";
    "input_tokens"; "cache_creation_input_tokens"; "cache_read_input_tokens";
    "output_tokens"; "service_tier"; "request_id"; "timestamp"; "created_at" ].

(** What the database holds of its schema: the columns of each table, and
    the table and columns of each index. *)
Record Catalog := mkCatalog {
  tables : gmap string (list Column);
  indexes : gmap string (string * list string)
}.

Definition empty_catalog : Catalog := mkCatalog ∅ ∅.

(** The names of the columns of a table, in their order. *)
Definition column_names (c : Catalog) (table : string) : option (list string) :=
  match tables c !! table with
  | Some columns => Some (c_name <$> columns)
  | None => None
  end.

Definition has_column (c : Catalog) (table column : string) : bool :=
  match tables c !! table with
  | Some columns => bool_decide (column ∈ c_name <$> columns)
  | None => false
  end.

(** A statement on a catalog, [None] when the database refuses it. With
    [IF NOT EXISTS] a statement whose table, column or index is there
    already does nothing. A new table needs the tables and columns that
    its foreign keys name (its own columns count), a new column needs its
    table, a new index needs its table and its columns. *)
Definition run_query (q : Query) (c : Catalog) : option Catalog :=
  match q with
  | CreateTable table columns foreign_keys =>
      match tables c !! table with
      | Some _ => Some c
      | None =>
          let c' := mkCatalog (<[table := columns]> (tables c)) (indexes c) in
          if forallb (fun fk => has_column c' table (fk_column fk)
                                && has_column c' (fk_table fk) (fk_target fk))
                     foreign_keys
          then Some c'
          else None
      end
  | AddColumn table column =>
      match tables c !! table with
      | Some columns =>
          if bool_decide (c_name column ∈ c_name <$> columns) then Some c
          else Some (mkCatalog (<[table := columns ++ [column]]> (tables c))
                       (indexes c))
      | None => None
      end
  | CreateIndex index table columns =>
      match indexes c !! index with
      | Some _ => Some c
      | None =>
          if forallb (has_column c table) columns
          then Some (mkCatalog (tables c) (<[index := (table, columns)]> (indexes c)))
          else None
      end
  end.

(** The errors of [Initialize] and [createTables]. *)
Inductive DbErr :=
| ErrNoHome
| ErrMkdir
| ErrDriver
| ErrExec
| QueryFailed (query : Query) (cause : DbErr)
| Because (msg : string) (cause : DbErr).

(** The calls that [Initialize] makes on the file system and on the
    database driver. *)
Inductive Call :=
| MkdirAll (path : string) (perm : N)
| SqlOpen (driverName dataSourceName : string)
| Exec (query : Query).

(** The machine [Initialize] runs on: the home directory of the user, the
    outcome of each coming call ([true]: the call fails for a reason of
    its own, such as a disk that cannot be written; past the end of the
    list no call does), the catalog of the database file, and the calls
    made so far. *)
Record Machine := mkMachine {
  home : option string;
  tape : list bool;
  catalog : Catalog;
  calls : list Call
}.

Definition D (A : Type) : Type := Machine -> (DbErr + A) * Machine.

#[export] Instance D_ret : MRet D := fun A (a : A) m => (inr a, m).

#[export] Instance D_bind : MBind D := fun A B (k : A -> D B) (x : D A) m =>
  match x m with
  | (inl e, m') => (inl e, m')
  | (inr a, m') => k a m'
  end.

(** [if err != nil { return nil, fmt.Errorf("msg: %w", err) }]. *)
Definition because {A} (msg : string) (x : D A) : D A := fun m =>
  match x m with
  | (inl e, m') => (inl (Because msg e), m')
  | (inr a, m') => (inr a, m')
  end.

(** [os.UserHomeDir]. *)
Definition UserHomeDir : D string := fun m =>
  match home m with
  | Some dir => (inr dir, m)
  | None => (inl ErrNoHome, m)
  end.

(** The next outcome on the tape, and the tape after it. *)
Definition next_outcome (outcomes : list bool) : bool * list bool :=
  match outcomes with
  | fails :: rest => (fails, rest)
  | [] => (false, [])
  end.

(** [os.MkdirAll] and [sql.Open]: calls that fail or not, and leave the
    catalog as it is. *)
Definition outside (call : Call) (e : DbErr) : D unit := fun m =>
  let '(fails, rest) := next_outcome (tape m) in
  (if fails then inl e else inr tt,
   mkMachine (home m) rest (catalog m) (calls m ++ [call])).

(** [db.Exec(query)]: the call fails for a reason of its own, or the
    database refuses the statement, or the statement is carried out. *)
Definition db_Exec (query : Query) : D unit := fun m =>
  let '(fails, rest) := next_outcome (tape m) in
  let sent := calls m ++ [Exec query] in
  if fails then (inl ErrDriver, mkMachine (home m) rest (catalog m) sent)
  else
    match run_query query (catalog m) with
    | Some c => (inr tt, mkMachine (home m) rest c sent)
    | None => (inl ErrExec, mkMachine (home m) rest (catalog m) sent)
    end.

(** The body of the loop of [createTables]:
    [if _, err := db.Exec(query); err != nil { return fmt.Errorf(...) }],
    the error holding the statement and the cause. *)
Definition exec_or_return (query : Query) : D unit := fun m =>
  match db_Exec query m with
  | (inl err, m') => (inl (QueryFailed query err), m')
  | (inr _, m') => (inr tt, m')
  end.

(** The loop [for _, query := range queries] of [createTables]. *)
Fixpoint exec_loop (qs : list Query) : D unit :=
  match qs with
  | [] => mret tt
  | query :: rest => exec_or_return query;; exec_loop rest
  end.

(** [createTables]. *)
Definition createTables : D unit := exec_loop queries.

(** [path[:i+1]] where [i] is the place of the last slash of [path]. *)
Fixpoint through_last_slash (path : string) : string :=
  match path with
  | EmptyString => EmptyString
  | String c rest =>
      if existsb (Ascii.eqb slash) (list_ascii_of_string path)
      then String c (through_last_slash rest)
      else EmptyString
  end.

(** [filepath.Dir]. *)
Definition Dir (path : string) : string := Clean (through_last_slash path).

Section WithSyncState.

(** [InitializeSchema] of the file sync state manager, which is declared
    in another file of [services]: any function on the database that
    returns an error or none. *)
Variable InitializeSchema : D unit.

(** [Initialize]; the handle it returns stands for the database file that
    it opened. The permission bits [0755] are 493. *)
Definition Initialize : D string :=
  homeDir ← because "failed to get home directory" UserHomeDir;
  let dbPath := Join [homeDir; ".claudeee"; "claudeee.db"] in
  because "failed to create database directory"
    (outside (MkdirAll (Dir dbPath) 493) ErrMkdir);;
  because "failed to open database"
    (outside (SqlOpen "duckdb" dbPath) ErrDriver);;
  because "failed to create tables" createTables;;
  because "failed to initialize sync schema" InitializeSchema;;
  mret dbPath.

End WithSyncState.

(** The catalog after the statements of a list were carried out one after
    the other, [None] when the database refuses one of them. *)
Fixpoint carry_out (qs : list Query) (c : Catalog) : option Catalog :=
  match qs with
  | [] => Some c
  | q :: rest =>
      match run_query q c with
      | Some c' => carry_out rest c'
      | None => None
      end
  end.

(** A statement that has nothing left to do on a catalog. *)
Definition settled (c : Catalog) (q : Query) : bool :=
  match q with
  | CreateTable table _ _ => bool_decide (is_Some (tables c !! table))
  | AddColumn table column => has_column c table (c_name column)
  | CreateIndex index _ _ => bool_decide (is_Some (indexes c !! index))
  end.

(** The catalog [c'] keeps what the catalog [c] holds: every table with
    its columns in their places, new columns after them, and every
    index. *)
Definition keeps (c c' : Catalog) : Prop :=
  (forall table columns,
      tables c !! table = Some columns ->
      exists more, tables c' !! table = Some (columns ++ more))
  /\ (forall index on,
        indexes c !! index = Some on -> indexes c' !! index = Some on).

(** The coming [n] calls do not fail for a reason of their own. *)
Definition go_well (n : nat) (m : Machine) : Prop :=
  Forall (fun fails => fails = false) (take n (tape m)).

(** The machine after [os.MkdirAll] and [sql.Open] went well, on their way
    to the database file [dbPath]. *)
Definition opened (m : Machine) (dbPath : string) : Machine :=
  mkMachine (home m) (drop 2 (tape m)) (catalog m)
    (calls m ++ [MkdirAll (Dir dbPath) 493; SqlOpen "duckdb" dbPath]).

(** A machine with an empty database file on which no call fails. *)
Definition new_machine : Machine := mkMachine (Some "/home/u") [] empty_catalog [].

(** A machine with a database file of an earlier version, whose table
    [messages] has no column [session_window_id] yet. *)
Definition old_machine : Machine :=
  mkMachine (Some "/home/u") []
    (mkCatalog
       {[ "sessions" := [ mkColumn "id" "VARCHAR" "PRIMARY KEY";
                          mkColumn "project_name" "VARCHAR" "NOT NULL";
                          mkColumn "start_time" "TIMESTAMP" "NOT NULL";
                          mkColumn "status" "VARCHAR" "DEFAULT 'active'" ];
          "messages" := [ mkColumn "id" "VARCHAR" "PRIMARY KEY";
                          mkColumn "session_id" "VARCHAR" "NOT NULL";
                          mkColumn "message_role" "VARCHAR" "";
                          mkColumn "timestamp" "TIMESTAMP" "NOT NULL" ] ]}
       {[ "idx_messages_session_id" := ("messages", ["session_id"]) ]})
    [].

End Database.

(* ===================================================================== *)
(** * [frontend/lib/api.ts]: the client of the backend *)
(* ===================================================================== *)

Module ApiClient.

(** [API_BASE_URL], from [process.env.NEXT_PUBLIC_API_URL]: a variable
    that is not set or is empty is falsy. *)
Definition API_BASE_URL (NEXT_PUBLIC_API_URL : option string) : string :=
  match NEXT_PUBLIC_API_URL with
  | Some url =>
      if String.eqb url "" then "http://localhost:8080/api"
      else url +:+ "/api"
  | None => "http://localhost:8080/api"
  end.

(** The properties of a [RequestInit] that the client sets; [None] is a
    property that the object does not have. The headers are a plain
    object. *)
Record RequestInit := mkRequestInit {
  method : option string;
  headers : option (gmap string string);
  body : option string
}.

(** [{}], the default of [options]. *)
Definition no_options : RequestInit := mkRequestInit None None None.

(** [...spread] into an object literal, one property at a time: a
    property of the object spread last wins. *)
Definition spread {A} (last first : option A) : option A :=
  match last with
  | Some a => Some a
  | None => first
  end.

(** [{ 'Content-Type': 'application/json', ...options.headers }]. *)
Definition merged_headers (options : RequestInit) : gmap string string :=
  match headers options with
  | Some given => given ∪ {[ "Content-Type" := "application/json" ]}
  | None => {[ "Content-Type" := "application/json" ]}
  end.

(** The second argument of [fetch] in [request]:
    [{ headers: { ... }, ...options }]. *)
Definition fetch_init (options : RequestInit) : RequestInit :=
  let literal := mkRequestInit None (Some (merged_headers options)) None in
  mkRequestInit (spread (method options) (method literal))
                (spread (headers options) (headers literal))
                (spread (body options) (body literal)).

(** What [fetch] resolves to: [response.ok], [response.status], and what
    [response.json()] resolves to, [None] when it rejects. *)
Record Response (Json : Type) := mkResponse {
  ok : bool;
  status : Z;
  json : option Json
}.
Arguments mkResponse {Json} _ _ _.
Arguments ok {Json} _.
Arguments status {Json} _.
Arguments json {Json} _.

(** What a promise of the client settles to. *)
Inductive Settled (A : Type) :=
| Fulfilled (value : A)
| RejectedError (message : string)
| RejectedByFetch
| RejectedByJson.
Arguments Fulfilled {A} _.
Arguments RejectedError {A} _.
Arguments RejectedByFetch {A}.
Arguments RejectedByJson {A}.

(** [n.toString()] and [n] in a template literal, for an integer below
    ten to the twenty-first. *)
Definition decimal (n : Z) : string := NilZero.string_of_int (Z.to_int n).

(** [URLSearchParams.toString()] for names and values made of letters,
    digits, [-] and [_], which are written as they are. *)
Definition serialize (params : list (string * string)) : string :=
  String.concat "&" ((fun p => p.1 +:+ "=" +:+ p.2) <$> params).

(** The path and query that [getSessionDetail] asks for. *)
Definition session_detail_url (sessionId : string) (page pageSize : option Z)
  : string :=
  let url := "/sessions/" +:+ sessionId in
  if bool_decide (page <> None) || bool_decide (pageSize <> None) then
    let params := [] in
    let params := match page with
                  | Some n => params ++ [("page", decimal n)]
                  | None => params
                  end in
    let params := match pageSize with
                  | Some n => params ++ [("page_size", decimal n)]
                  | None => params
                  end in
    url +:+ "?" +:+ serialize params
  else url.

Section Client.

Variable Json : Type.

(** [fetch]: [None] when its promise rejects. *)
Variable fetch : string -> RequestInit -> option (Response Json).

(** [new ApiClient(baseURL)]. *)
Variable baseURL : string.

(** [request]. *)
Definition request (endpoint : string) (options : RequestInit) : Settled Json :=
  let url := baseURL +:+ endpoint in
  match fetch url (fetch_init options) with
  | None => RejectedByFetch
  | Some response =>
      if negb (ok response)
      then RejectedError ("HTTP error! status: " +:+ decimal (status response))
      else match json response with
           | Some value => Fulfilled value
           | None => RejectedByJson
           end
  end.

Definition getTokenUsage : Settled Json := request "/token-usage" no_options.

Definition getSessions : Settled Json :=
  request "/claude/sessions/recent" no_options.

Definition getSessionDetail (sessionId : string) (page pageSize : option Z)
  : Settled Json :=
  request (session_detail_url sessionId page pageSize) no_options.

(** [plan] has the default ['pro']. *)
Definition getAvailableTokens (plan : option string) : Settled Json :=
  request ("/claude/available-tokens?plan=" +:+ default "pro" plan) no_options.

Definition getCurrentMonthCosts : Settled Json :=
  request "/costs/current-month" no_options.

Definition getTasks : Settled Json := request "/tasks" no_options.

Definition syncLogs : Settled Json :=
  request "/sync-logs" (mkRequestInit (Some "POST") None None).

End Client.

(** A server for the examples: it answers a [POST] to [/api/sync-logs]
    with 200 and any other request with 404. *)
Definition sync_only (url : string) (init : RequestInit) : option (Response string) :=
  if String.eqb url "/api/sync-logs" && bool_decide (method init = Some "POST")
  then Some (mkResponse true 200 (Some "synced"))
  else Some (mkResponse false 404 (Some "not found")).

End ApiClient.

(* ===================================================================== *)
(** * The model on small inputs *)
(* ===================================================================== *)

Module Scenario.
Import GoStrings Filepath Resolver JSONLParser Notions.

Example clean_dots :
  Clean "/home//u/./code/../myproj/backend/" = "/home/u/myproj/backend".
Proof. reflexivity. Qed.

Example clean_relative : Clean "../../a/../.." = "../../..".
Proof. reflexivity. Qed.

Example name_of_generic_path : extractProjectNameFromCwd "/src/lib" = "lib".
Proof. reflexivity. Qed.

Example name_of_root : extractProjectNameFromCwd "/" = "unknown".
Proof. reflexivity. Qed.

Example path_of_directory_name :
  convertProjectNameToPath "-home-u-my-proj" = "/home/u/my/proj".
Proof. reflexivity. Qed.

Example trim_both_ends : TrimSpace (String "009" "  a b  ") = "a b".
Proof. reflexivity. Qed.

(** The end-to-end scenario of the specification: one session [s1] with 175
    tokens, and one window of five hours from the first timestamp with two
    messages and 175 tokens. *)
Example end_to_end :
  let st := db (processLogEntry second_line "-home-u-proj"
                  (processLogEntry first_line "-home-u-proj" fresh_world).2).2 in
  map_to_list (sessions st)
  = [("s1", mkSession "proj" "/home/u/proj/backend" 1000 (Some 1600)
              120 55 175 2 "active")]
  /\ session_windows st
     = [mkSessionWindow 0 1000 19000 19000 120 55 175 2 1 true].
Proof. split; vm_compute; reflexivity. Qed.

End Scenario.

(* ===================================================================== *)
(** * Properties of the project resolution *)
(* ===================================================================== *)

Module ResolverFacts.
Import GoStrings Filepath Resolver.

Lemma firstn_snoc_nth (parts : list string) (i : nat) :
  (i < length parts)%nat ->
  firstn (S i) parts = firstn i parts ++ [nth i parts ""].
Proof.
  revert i. induction parts as [|p parts IH]; intros i Hi; simpl in Hi.
  - lia.
  - destruct i as [|i]; [reflexivity|].
    change (firstn (S (S i)) (p :: parts)) with (p :: firstn (S i) parts).
    rewrite IH by lia. reflexivity.
Qed.

Lemma find_filter {A} (f g : A -> bool) (l : list A) :
  List.find g (List.filter f l) = List.find (fun x => f x && g x) l.
Proof.
  induction l as [|x l IH]; simpl; [reflexivity|].
  destruct (f x); simpl; [|exact IH].
  destruct (g x); [reflexivity | exact IH].
Qed.

(** The inner loop finds the innermost meaningful element above position
    [j] that is not generic. *)
Lemma parent_loop_find (parts : list string) (j : nat) :
  (j <= length parts)%nat ->
  parent_loop parts j =
  List.find (fun p => negb (isCommonSubdir p))
            (List.filter meaningful (List.rev (firstn j parts))).
Proof.
  induction j as [|j IH]; intros Hj; [reflexivity|].
  rewrite firstn_snoc_nth by lia.
  rewrite rev_app_distr. cbn [List.rev List.app parent_loop List.filter].
  destruct (meaningful (nth j parts "")) eqn:Hm; cbn [andb].
  - cbn [List.find].
    destruct (negb (isCommonSubdir (nth j parts ""))); [reflexivity|].
    apply IH; lia.
  - apply IH; lia.
Qed.

(** The outer loop is the walk of the specification. *)
Lemma part_loop_walk (parts : list string) (i : nat) :
  (i <= length parts)%nat ->
  part_loop parts i = name_by_walk (firstn i parts).
Proof.
  induction i as [|i IH]; intros Hi; [reflexivity|].
  unfold name_by_walk. rewrite firstn_snoc_nth by lia.
  rewrite rev_app_distr. cbn [List.rev List.app part_loop List.filter].
  destruct (meaningful (nth i parts "")) eqn:Hm.
  - cbn [List.find List.hd].
    destruct (isCommonSubdir (nth i parts "")) eqn:Hc; cbn [negb]; [|reflexivity].
    rewrite parent_loop_find by lia.
    destruct (List.find _ _); reflexivity.
  - rewrite IH by lia. reflexivity.
Qed.

Lemma extract_is_walk (cwd : string) :
  cwd <> "" ->
  extractProjectNameFromCwd cwd = name_by_walk (Split (Clean cwd) slash).
Proof.
  intros Hne. unfold extractProjectNameFromCwd.
  destruct (String.eqb_spec cwd ""); [contradiction|].
  destruct (Nat.eqb_spec (length (Split (Clean cwd) slash)) 0) as [H0|_].
  - destruct (Split (Clean cwd) slash); [reflexivity | discriminate H0].
  - rewrite part_loop_walk by lia. rewrite firstn_all. reflexivity.
Qed.

Lemma prefix_dash (s : string) :
  HasPrefix s "-" = true -> exists s', s = String "-"%char s'.
Proof.
  destruct s as [|c s]; cbn [HasPrefix]; [discriminate|].
  destruct (Ascii.eqb_spec c "-"%char) as [->|]; [eauto | discriminate].
Qed.

(** C7. With a working directory in the entry, the project path is that
    directory as it is, and the project name is found by walking the
    elements of the cleaned path from the deepest one backward, leaving
    out the generic ones ([frontend], [backend], [src], [lib]) and taking
    the innermost element that is left (the deepest element when all are
    generic). The pair depends on the working directory alone, and
    [/home/u/code/myproj/backend] gives the name [myproj]. *)
Theorem resolve_with_cwd (entry : LogEntry) (projectName : string) :
  Cwd entry <> "" ->
  resolveProject entry projectName
    = (name_by_walk (Split (Clean (Cwd entry)) slash), Cwd entry)
  /\ (forall entry' projectName',
         Cwd entry' = Cwd entry ->
         resolveProject entry' projectName' = resolveProject entry projectName)
  /\ (Cwd entry = "/home/u/code/myproj/backend" ->
      resolveProject entry projectName
        = ("myproj", "/home/u/code/myproj/backend")).
Proof.
  intros Hne.
  assert (Hres : forall e pn, Cwd e = Cwd entry ->
            resolveProject e pn
            = (name_by_walk (Split (Clean (Cwd entry)) slash), Cwd entry)).
  { intros e pn He. unfold resolveProject. rewrite He.
    destruct (String.eqb_spec (Cwd entry) ""); [contradiction|].
    cbn [negb]. rewrite extract_is_walk by assumption. reflexivity. }
  split; [apply Hres; reflexivity|]. split.
  - intros e pn He. rewrite (Hres e pn He), (Hres entry projectName eq_refl).
    reflexivity.
  - intros Hcwd. rewrite (Hres entry projectName eq_refl), Hcwd. reflexivity.
Qed.

Lemma resolve_with_cwd_witness :
  resolveProject (sample_entry "/home/u/code/myproj/backend") "-home-u-code-myproj"
    = ("myproj", "/home/u/code/myproj/backend").
Proof.
  refine (proj2 (proj2 (resolve_with_cwd
            (sample_entry "/home/u/code/myproj/backend")
            "-home-u-code-myproj" _)) eq_refl).
  discriminate.
Defined.

(** C8. Without a working directory in the entry, the project name is the
    name of the directory of the log file as it is, whatever that name is.
    When the name begins with [-], the project path is the name with every
    [-] replaced by [/], which begins with [/]; a name that does not begin
    with [-] is the project path as it is. *)
Theorem resolve_without_cwd (entry : LogEntry) (projectName : string) :
  Cwd entry = "" ->
  resolveProject entry projectName
    = (projectName,
       if HasPrefix projectName "-"
       then ReplaceAll projectName "-"%char "/"%char
       else projectName)
  /\ (HasPrefix projectName "-" = true ->
      HasPrefix (ReplaceAll projectName "-"%char "/"%char) "/" = true).
Proof.
  intros Hcwd. unfold resolveProject, convertProjectNameToPath.
  rewrite Hcwd. cbn [String.eqb negb].
  destruct (HasPrefix projectName "-") eqn:Hpre.
  - destruct (prefix_dash _ Hpre) as [s' ->]. split; reflexivity.
  - split; [reflexivity | discriminate].
Qed.

Lemma resolve_without_cwd_witness :
  resolveProject (sample_entry "") "-home-u-my-proj"
    = ("-home-u-my-proj", "/home/u/my/proj")
  /\ resolveProject (sample_entry "") "notes" = ("notes", "notes").
Proof.
  split.
  - exact (proj1 (resolve_without_cwd (sample_entry "") "-home-u-my-proj"
                    eq_refl)).
  - exact (proj1 (resolve_without_cwd (sample_entry "") "notes" eq_refl)).
Defined.

End ResolverFacts.

(* ===================================================================== *)
(** * Properties of the scanner and of the loop over the lines *)
(* ===================================================================== *)

Module ScannerFacts.
Import GoStrings JSONLParser Notions.

Lemma length_line_of (n : nat) : String.length (line_of n) = n.
Proof.
  induction n as [|n IH]; [reflexivity|].
  cbn [line_of String.length]. congruence.
Qed.

Lemma scan_fits (raw : string) (rest : list string) :
  fits raw -> Scan (raw :: rest) = Token (dropCR raw) rest.
Proof.
  unfold fits, Scan. intros H.
  destruct (Z.ltb_spec (Z.of_nat (String.length raw)) maxCapacity);
    [reflexivity | lia].
Qed.

Lemma scan_too_long (raw : string) (rest : list string) :
  maxCapacity <= Z.of_nat (String.length raw) ->
  Scan (raw :: rest) = ScanError ErrTooLong.
Proof.
  unfold Scan. intros H.
  destruct (Z.ltb_spec (Z.of_nat (String.length raw)) maxCapacity);
    [lia | reflexivity].
Qed.

Lemma length_long_line :
  Z.of_nat (String.length long_line) = 20 * 1024 * 1024.
Proof.
  unfold long_line. rewrite length_line_of. apply Z2Nat.id. discriminate.
Qed.

(** ** White space *)

Lemma space2_cr (a : N) : space2 a 13 = false.
Proof. unfold space2. cbn. apply andb_false_r. Qed.

Lemma space3_cr (a b : N) : space3 a b 13 = false.
Proof. unfold space3. cbn. rewrite !andb_false_r. reflexivity. Qed.

(** A carriage return after a white-space code point does not change
    where that code point ends. *)
Lemma space_prefix_cr (a : N) (l : list N) (k : nat) :
  space_prefix (a :: l ++ [13%N]) = S k -> space_prefix (a :: l) = S k.
Proof.
  cbn [space_prefix]. destruct (ascii_space a); [tauto|].
  destruct l as [|b l]; cbn [app].
  - rewrite space2_cr. discriminate.
  - destruct (space2 a b); [tauto|].
    destruct l as [|c l]; cbn [app]; [|tauto].
    rewrite space3_cr. discriminate.
Qed.

Lemma trim_front_cr (skip : nat) (l : list N) :
  trim_front space_prefix skip (l ++ [13%N]) = [] ->
  trim_front space_prefix skip l = [].
Proof.
  revert skip. induction l as [|a l IH]; intros skip.
  - destruct skip; reflexivity.
  - destruct skip as [|k].
    + change ((a :: l) ++ [13%N]) with (a :: l ++ [13%N]).
      cbn [trim_front].
      destruct (space_prefix (a :: l ++ [13%N])) as [|k] eqn:Hp;
        [discriminate|].
      rewrite (space_prefix_cr _ _ _ Hp). apply IH.
    + cbn [app trim_front]. apply IH.
Qed.

Lemma dropCR_bytes (raw : string) :
  dropCR raw = raw \/ bytes_of raw = bytes_of (dropCR raw) ++ [13%N].
Proof.
  induction raw as [|c raw IH]; [left; reflexivity|].
  destruct raw as [|d raw].
  - cbn [dropCR].
    destruct (Ascii.eqb_spec c "013"%char) as [->|]; [right|left]; reflexivity.
  - change (dropCR (String c (String d raw)))
      with (String c (dropCR (String d raw))).
    destruct IH as [->|IH]; [left; reflexivity|right].
    unfold bytes_of in *. cbn [list_ascii_of_string List.map] in *.
    rewrite IH. reflexivity.
Qed.

Lemma only_space_trim (s : string) : only_space s = true -> TrimSpace s = "".
Proof.
  unfold only_space, TrimSpace.
  destruct (trim_front space_prefix 0 (bytes_of s));
    [reflexivity | discriminate].
Qed.

Lemma only_space_dropCR (raw : string) :
  only_space raw = true -> only_space (dropCR raw) = true.
Proof.
  destruct (dropCR_bytes raw) as [->|Hb]; [tauto|].
  unfold only_space. rewrite Hb.
  destruct (trim_front space_prefix 0 (bytes_of (dropCR raw) ++ [13%N]))
    eqn:Ht; [|discriminate].
  rewrite (trim_front_cr _ _ Ht). reflexivity.
Qed.

(** ** The loop *)

Section Loop.
Variable Unmarshal : string -> option LogEntry.
Variables fileName projectName : string.

(** One turn of the loop of [parseJSONLFile] on a line that fits. *)
Lemma scan_loop_cons raw rest lc pc w :
  fits raw ->
  scan_loop Unmarshal fileName projectName (raw :: rest) lc pc w =
  let line := TrimSpace (dropCR raw) in
  if String.eqb line "" then
    scan_loop Unmarshal fileName projectName rest (S lc) pc w
  else
    match Unmarshal line with
    | None =>
        scan_loop Unmarshal fileName projectName rest (S lc) pc
          (print_all [ErrorUnmarshaling (S lc) fileName;
                      ProblematicLine line] w)
    | Some entry =>
        match processLogEntry entry projectName w with
        | (inl err, w') =>
            scan_loop Unmarshal fileName projectName rest (S lc) pc
              (print_all [ErrorProcessingEntry (S lc) fileName (UUID entry)
                            (SessionID entry) err; EntryDetails entry] w')
        | (inr _, w') =>
            scan_loop Unmarshal fileName projectName rest (S lc) (S pc) w'
        end
    end.
Proof.
  intros Hfit. cbn [scan_loop]. rewrite (scan_fits _ _ Hfit). cbn zeta.
  destruct (String.eqb _ ""); [reflexivity|].
  destruct (Unmarshal _) as [entry|].
  - unfold mbind, M_bind, attempt.
    destruct (processLogEntry entry projectName w) as [[err|[]] w']; cbn.
    + unfold print_all. cbn. rewrite <- app_assoc. reflexivity.
    + reflexivity.
  - unfold mbind, M_bind, print_all. cbn. rewrite <- app_assoc. reflexivity.
Qed.

(** The loop stops at the first line that does not fit. *)
Lemma scan_loop_too_long raw rest lc pc w :
  maxCapacity <= Z.of_nat (String.length raw) ->
  scan_loop Unmarshal fileName projectName (raw :: rest) lc pc w
  = (inr (lc, pc, Some ErrTooLong), w).
Proof.
  intros Hlong. cbn [scan_loop]. rewrite (scan_too_long _ _ Hlong).
  reflexivity.
Qed.

(** The loop reads a file to its end when every line fits. *)
Lemma scan_loop_reads_all input lc pc w :
  Forall fits input ->
  exists pc' w',
    scan_loop Unmarshal fileName projectName input lc pc w
    = (inr ((lc + length input)%nat, pc', None), w').
Proof.
  intros Hall. revert lc pc w.
  induction Hall as [|raw rest Hfit _ IH]; intros lc pc w.
  - exists pc, w. cbn. rewrite Nat.add_0_r. reflexivity.
  - rewrite scan_loop_cons by assumption. cbn zeta.
    replace (lc + length (raw :: rest))%nat
      with (S lc + length rest)%nat by (cbn; lia).
    destruct (String.eqb _ ""); [apply IH|].
    destruct (Unmarshal _) as [entry|]; [|apply IH].
    destruct (processLogEntry entry projectName w) as [[err|[]] w'];
      apply IH.
Qed.

(** The loop reads the lines before the first one that does not fit, and
    no line after them. *)
Lemma scan_loop_stops pre raw post lc pc w :
  Forall fits pre ->
  maxCapacity <= Z.of_nat (String.length raw) ->
  exists pc' w',
    scan_loop Unmarshal fileName projectName (pre ++ raw :: post) lc pc w
    = (inr ((lc + length pre)%nat, pc', Some ErrTooLong), w').
Proof.
  intros Hall Hlong. revert lc pc w.
  induction Hall as [|first pre Hfit _ IH]; intros lc pc w.
  - exists pc, w. cbn [app length]. rewrite scan_loop_too_long by exact Hlong.
    rewrite Nat.add_0_r. reflexivity.
  - cbn [app]. rewrite scan_loop_cons by assumption. cbn zeta.
    replace (lc + length (first :: pre))%nat
      with (S lc + length pre)%nat by (cbn; lia).
    destruct (String.eqb _ ""); [apply IH|].
    destruct (Unmarshal _) as [entry|]; [|apply IH].
    destruct (processLogEntry entry projectName w) as [[err|[]] w'];
      apply IH.
Qed.

(** C10, as amended. A line that is empty or made of white space only and
    that is shorter than the buffer of the scanner is passed by: the loop
    goes on with the next line in the same world (the same store, nothing
    printed) and the same count of processed lines; only the line counter
    moves. A line of white space of ten megabytes or more is not passed
    by: the scan ends there with [bufio.ErrTooLong], the line not counted
    and the lines after it unread. *)
Theorem blank_line_is_skipped raw rest lc pc w :
  only_space raw = true ->
  (fits raw ->
   scan_loop Unmarshal fileName projectName (raw :: rest) lc pc w
   = scan_loop Unmarshal fileName projectName rest (S lc) pc w)
  /\ (~ fits raw ->
      scan_loop Unmarshal fileName projectName (raw :: rest) lc pc w
      = (inr (lc, pc, Some ErrTooLong), w)).
Proof.
  intros Hblank. split.
  - intros Hfit. rewrite scan_loop_cons by assumption. cbn zeta.
    rewrite (only_space_trim _ (only_space_dropCR _ Hblank)). reflexivity.
  - intros Hlong. apply scan_loop_too_long. unfold fits in Hlong. lia.
Qed.

End Loop.

(** C5, the claim as it stands fails: a line of twenty megabytes is not
    read, the scan ends with [bufio.ErrTooLong] and [parseJSONLFile] returns
    that error with no line counted. *)
Lemma long_line_rejected :
  Z.of_nat (String.length long_line) = 20 * 1024 * 1024
  /\ Scan [long_line] = ScanError ErrTooLong
  /\ parseJSONLFile decode_braces (one_file [long_line]) "/x.jsonl"
       "-home-u-proj" fresh_world
     = (inl ErrTooLong, print_all [Processed 0 0 "/x.jsonl"] fresh_world).
Proof.
  assert (Hlong : maxCapacity <= Z.of_nat (String.length long_line))
    by (rewrite length_long_line; discriminate).
  split; [exact length_long_line|]. split.
  - apply scan_too_long; exact Hlong.
  - unfold parseJSONLFile. cbn [one_file os_Open]. unfold mbind, M_bind.
    rewrite scan_loop_too_long by exact Hlong. reflexivity.
Qed.

Lemma fits_short (raw : string) :
  (Z.of_nat (String.length raw) <? maxCapacity) = true -> fits raw.
Proof. unfold fits. intros H. apply Z.ltb_lt; exact H. Qed.

(** C5, as amended. Every line shorter than the buffer of the scanner
    (ten megabytes: 10 * 1024 * 1024 bytes) is handed to the loop in full,
    only a final carriage return taken off, and [parseJSONLFile] reads a
    file made of such lines to its end: it counts every line and returns
    no error. The first line of ten megabytes or more ends the scan:
    [parseJSONLFile] has read the lines before it, reads no line after it,
    and returns [bufio.ErrTooLong]. *)
Theorem lines_that_fit_are_read
    (Unmarshal : string -> option LogEntry) (fs : FileSystem)
    (filePath projectName : string) (input : list string) (w : World) :
  os_Open fs filePath = Some input ->
  (Forall fits input ->
   Forall (fun raw => forall rest,
             Scan (raw :: rest) = Token (dropCR raw) rest) input
   /\ exists pc' w',
        parseJSONLFile Unmarshal fs filePath projectName w = (inr tt, w')
        /\ last (stdout w') = Some (Processed pc' (length input) filePath))
  /\ (forall pre raw post,
        input = pre ++ raw :: post ->
        Forall fits pre ->
        maxCapacity <= Z.of_nat (String.length raw) ->
        exists pc' w',
          parseJSONLFile Unmarshal fs filePath projectName w
          = (inl ErrTooLong, w')
          /\ last (stdout w') = Some (Processed pc' (length pre) filePath)).
Proof.
  intros Hopen. unfold parseJSONLFile. rewrite Hopen. split.
  - intros Hall. split.
    + eapply Forall_impl; [exact Hall|]. intros raw Hfit rest.
      apply scan_fits; assumption.
    + destruct (scan_loop_reads_all Unmarshal (Base filePath) projectName
                  input 0 0 w Hall) as (pc' & w1 & Hrun).
      exists pc'. eexists. unfold mbind, M_bind. rewrite Hrun. cbn.
      split; [reflexivity | apply last_snoc].
  - intros pre raw post -> Hall Hlong.
    destruct (scan_loop_stops Unmarshal (Base filePath) projectName
                pre raw post 0 0 w Hall Hlong) as (pc' & w1 & Hrun).
    exists pc'. eexists. unfold mbind, M_bind. rewrite Hrun. cbn.
    split; [reflexivity | apply last_snoc].
Qed.

Lemma lines_that_fit_are_read_witness :
  exists pc' w',
    parseJSONLFile decode_braces (one_file ["{}"; "oops"; ""]) "/x.jsonl"
      "-home-u-proj" fresh_world = (inr tt, w')
    /\ last (stdout w') = Some (Processed pc' 3 "/x.jsonl").
Proof.
  refine (proj2 (proj1 (lines_that_fit_are_read decode_braces
                          (one_file ["{}"; "oops"; ""]) "/x.jsonl"
                          "-home-u-proj" ["{}"; "oops"; ""] fresh_world
                          eq_refl) _)).
  repeat constructor; apply fits_short; reflexivity.
Defined.

Lemma blank_line_is_skipped_witness :
  scan_loop decode_braces "x.jsonl" "-home-u-proj" ["  "; "{}"] 0 0 fresh_world
  = scan_loop decode_braces "x.jsonl" "-home-u-proj" ["{}"] 1 0 fresh_world.
Proof.
  apply (proj1 (blank_line_is_skipped decode_braces "x.jsonl" "-home-u-proj"
                  "  " ["{}"] 0 0 fresh_world eq_refl)).
  apply fits_short; reflexivity.
Defined.

Lemma only_space_blanks (n : nat) : only_space (blanks n) = true.
Proof.
  unfold only_space.
  assert (H : trim_front space_prefix 0 (bytes_of (blanks n)) = []).
  { induction n as [|n IH]; [reflexivity|]. exact IH. }
  rewrite H. reflexivity.
Qed.

Lemma length_blanks (n : nat) : String.length (blanks n) = n.
Proof.
  induction n as [|n IH]; [reflexivity|].
  cbn [blanks String.length]. congruence.
Qed.

(** C10, the claim as it stands fails: a line of ten megabytes of blanks is
    not passed by. The scan ends at it with [bufio.ErrTooLong], and the
    valid line after it is not read: [parseJSONLFile] returns the error
    with no line counted and the store as it was, while the file without
    the blank line has its message stored. *)
Lemma wide_blank_line_ends_the_scan :
  only_space wide_blank_line = true
  /\ parseJSONLFile decode_braces (one_file [wide_blank_line; "{}"]) "/x.jsonl"
       "-home-u-proj" fresh_world
     = (inl ErrTooLong, print_all [Processed 0 0 "/x.jsonl"] fresh_world)
  /\ messages
       (db (parseJSONLFile decode_braces (one_file ["{}"]) "/x.jsonl"
              "-home-u-proj" fresh_world).2)
     <> messages (db fresh_world).
Proof.
  assert (Hlong : maxCapacity <= Z.of_nat (String.length wide_blank_line)).
  { unfold wide_blank_line. rewrite length_blanks, Z2Nat.id; discriminate. }
  split; [apply only_space_blanks|]. split.
  - unfold parseJSONLFile. cbn [one_file os_Open]. unfold mbind, M_bind.
    rewrite scan_loop_too_long by exact Hlong. reflexivity.
  - intros Heq.
    assert (Hrow : is_Some
              (messages
                 (db (parseJSONLFile decode_braces (one_file ["{}"]) "/x.jsonl"
                        "-home-u-proj" fresh_world).2) !! EmptyString))
      by (vm_compute; eauto).
    rewrite Heq in Hrow. destruct Hrow as [row Hrow]. discriminate Hrow.
Qed.

End ScannerFacts.

(* ===================================================================== *)
(** * Properties of [processLogEntry] *)
(* ===================================================================== *)

Module EntryFacts.
Import GoStrings JSONLParser Notions ScannerFacts.

(** Run the monadic code of the parser on a world given by its fields. *)
Ltac run_parser :=
  cbv beta iota zeta delta
    [processLogEntry insertMessage CreateOrUpdateSession
     GetOrCreateWindowForMessage UpdateWindowStats UpdateSessionTokens
     mbind mret M_bind M_ret wrap fail attempt printf time_Now db_call
     db db_faults clock stdout].

(** With no failing database call, [processLogEntry] returns [nil] and
    leaves the store that [ingest] describes. *)
Lemma process_ok entry projectName w :
  db_faults w = [] ->
  processLogEntry entry projectName w =
  (inr tt, mkWorld (ingest entry projectName (clock w) (db w)) []
                   (clock w + 1) (stdout w ++ upsert_events entry)).
Proof.
  destruct w as [st faults clk out]. cbn [db_faults db clock stdout].
  intros ->. unfold ingest, upsert_events, processLogEntry.
  destruct (Resolver.resolveProject entry projectName) as [name path].
  run_parser.
  destruct (SessionWindowService.GetOrCreateWindowForMessage _ _)
    as [ws window].
  cbn [message_of m_MessageRole m_ID m_SessionID m_Timestamp
       m_InputTokens m_OutputTokens].
  destruct (bool_decide _); [reflexivity|].
  rewrite app_nil_r. reflexivity.
Qed.

(** The window call fails: the session call before it has been carried
    out. *)
Lemma process_window_fails entry projectName w tape :
  db_faults w = false :: true :: tape ->
  processLogEntry entry projectName w =
  (inl (Wrapped "failed to get/create session window" ErrStore),
   mkWorld (with_sessions (db w)
              (session_upsert entry projectName (sessions (db w))))
           tape (clock w) (stdout w)).
Proof.
  destruct w as [st faults clk out]. cbn [db_faults db clock stdout].
  intros ->. unfold session_upsert, processLogEntry.
  destruct (Resolver.resolveProject entry projectName) as [name path].
  run_parser. reflexivity.
Qed.

(** The insert fails: the session call and the window call before it have
    been carried out. *)
Lemma process_insert_fails entry projectName w tape :
  db_faults w = false :: false :: true :: tape ->
  processLogEntry entry projectName w =
  (inl (Wrapped "failed to insert message"
          (Wrapped "failed to upsert message" ErrStore)),
   mkWorld (with_windows
              (with_sessions (db w)
                 (session_upsert entry projectName (sessions (db w))))
              (SessionWindowService.GetOrCreateWindowForMessage
                 (Timestamp entry) (session_windows (db w))).1)
           tape (clock w + 1) (stdout w)).
Proof.
  destruct w as [st faults clk out]. cbn [db_faults db clock stdout].
  intros ->. unfold session_upsert, processLogEntry.
  destruct (Resolver.resolveProject entry projectName) as [name path].
  run_parser. cbn [with_sessions session_windows].
  destruct (SessionWindowService.GetOrCreateWindowForMessage _ _)
    as [ws window].
  reflexivity.
Qed.

Lemma session_upsert_present entry projectName tbl :
  is_Some (session_upsert entry projectName tbl !! SessionID entry).
Proof.
  unfold session_upsert, SessionService.CreateOrUpdateSession.
  destruct (tbl !! SessionID entry); rewrite lookup_insert_eq; eauto.
Qed.

(** C9. The session row is written before the message row, each in a call
    of its own: when the window call or the insert that follows fails,
    [processLogEntry] returns the error, the loop prints it and goes on
    with the next line without counting the entry, no message has been
    stored, and the session row that the first call created or updated is
    in the store. *)
Theorem session_survives_failed_entry
    (Unmarshal : string -> option LogEntry) (fileName projectName : string)
    (raw : string) (rest : list string) (lc pc : nat) (w : World)
    (entry : LogEntry) (tape : list bool) :
  fits raw ->
  TrimSpace (dropCR raw) <> "" ->
  Unmarshal (TrimSpace (dropCR raw)) = Some entry ->
  db_faults w = false :: true :: tape
  \/ db_faults w = false :: false :: true :: tape ->
  exists err w',
    processLogEntry entry projectName w = (inl err, w')
    /\ sessions (db w') = session_upsert entry projectName (sessions (db w))
    /\ is_Some (sessions (db w') !! SessionID entry)
    /\ messages (db w') = messages (db w)
    /\ scan_loop Unmarshal fileName projectName (raw :: rest) lc pc w
       = scan_loop Unmarshal fileName projectName rest (S lc) pc
           (print_all [ErrorProcessingEntry (S lc) fileName (UUID entry)
                         (SessionID entry) err; EntryDetails entry] w').
Proof.
  intros Hfit Hline Hdec Hfaults.
  pose proof (scan_loop_cons Unmarshal fileName projectName raw rest lc pc w Hfit)
    as Hloop.
  cbn zeta in Hloop. rewrite Hdec in Hloop.
  destruct (String.eqb_spec (TrimSpace (dropCR raw)) ""); [contradiction|].
  destruct Hfaults as [Hf|Hf];
    [rewrite (process_window_fails _ _ _ _ Hf) in *
    |rewrite (process_insert_fails _ _ _ _ Hf) in *];
    (eexists; eexists; split; [reflexivity|]);
    cbn [db sessions messages with_sessions with_windows];
    (split; [reflexivity|]); (split; [apply session_upsert_present|]);
    (split; [reflexivity|exact Hloop]).
Qed.

Lemma session_survives_failed_entry_witness :
  exists err w',
    processLogEntry blank_entry "-home-u-proj"
      (mkWorld empty_store [false; true] 0 []) = (inl err, w')
    /\ is_Some (sessions (db w') !! "")
    /\ messages (db w') = ∅.
Proof.
  destruct (session_survives_failed_entry decode_braces "x.jsonl"
              "-home-u-proj" "{}" [] 0 0
              (mkWorld empty_store [false; true] 0 []) blank_entry [])
    as (err & w' & Hrun & _ & Hsess & Hmsgs & _).
  - apply fits_short; reflexivity.
  - discriminate.
  - reflexivity.
  - left; reflexivity.
  - exists err, w'. split; [exact Hrun|]. split; [exact Hsess|exact Hmsgs].
Defined.

End EntryFacts.

(* ===================================================================== *)
(** * Properties of a sync run *)
(* ===================================================================== *)

Module SyncFacts.
Import GoStrings JSONLParser Notions ScannerFacts EntryFacts.

Section Run.
Variable Unmarshal : string -> option LogEntry.

(** One turn of the loop over the files of a project. *)
Lemma files_loop_cons fs projectName file rest w :
  files_loop Unmarshal fs projectName (file :: rest) w =
  match parseJSONLFile Unmarshal fs file projectName
          (print_all [ProcessingFile file] w) with
  | (inl err, w1) =>
      files_loop Unmarshal fs projectName rest
        (print_all [ErrorParsingFile file err] w1)
  | (inr _, w1) => files_loop Unmarshal fs projectName rest w1
  end.
Proof.
  cbn [files_loop]. unfold mbind, M_bind, attempt, printf at 1.
  change (mkWorld (db w) (db_faults w) (clock w)
            (stdout w ++ [ProcessingFile file]))
    with (print_all [ProcessingFile file] w).
  destruct (parseJSONLFile Unmarshal fs file projectName _)
    as [[err|[]] w1]; reflexivity.
Qed.

(** The loop over the files returns no error, whatever the files do. *)
Lemma files_loop_nil_error fs projectName files w :
  (files_loop Unmarshal fs projectName files w).1 = inr tt.
Proof.
  revert w. induction files as [|file rest IH]; intros w; [reflexivity|].
  rewrite files_loop_cons.
  destruct (parseJSONLFile Unmarshal fs file projectName _)
    as [[err|[]] w1]; apply IH.
Qed.


(** ** A file read with no failing database call *)

Lemma parse_failures_app out es :
  parse_failures (out ++ es) = (parse_failures out + parse_failures es)%nat.
Proof. unfold parse_failures. rewrite List.filter_app, length_app. reflexivity. Qed.

Lemma parse_failures_upsert out entry :
  parse_failures (out ++ upsert_events entry) = parse_failures out.
Proof.
  rewrite parse_failures_app. unfold upsert_events.
  destruct (bool_decide _); cbn; lia.
Qed.

Lemma scan_loop_no_faults fileName projectName input lc pc w :
  Forall fits input ->
  db_faults w = [] ->
  exists w',
    scan_loop Unmarshal fileName projectName input lc pc w
    = (inr ((lc + length input)%nat,
            (pc + length (valid_entries Unmarshal input))%nat, None), w')
    /\ db w' = replay (tagged projectName (valid_entries Unmarshal input))
                 (clock w) (db w)
    /\ db_faults w' = []
    /\ parse_failures (stdout w')
       = (parse_failures (stdout w) + malformed_lines Unmarshal input)%nat.
Proof.
  intros Hall. revert lc pc w.
  induction Hall as [|raw rest Hfit _ IH]; intros lc pc w Hf.
  - exists w. cbn. rewrite !Nat.add_0_r. auto.
  - rewrite scan_loop_cons by assumption.
    cbn [valid_entries malformed_lines]. unfold classify. cbn zeta.
    replace (lc + length (raw :: rest))%nat
      with (S lc + length rest)%nat by (cbn; lia).
    destruct (String.eqb _ ""); [apply IH; assumption|].
    destruct (Unmarshal _) as [entry|].
    + rewrite (process_ok _ _ _ Hf).
      destruct (IH (S lc) (S pc)
                  (mkWorld (ingest entry projectName (clock w) (db w)) []
                     (clock w + 1) (stdout w ++ upsert_events entry))
                  eq_refl) as (w' & Hrun & Hdb & Hfaults & Hout).
      exists w'. rewrite Hrun. unfold tagged. rewrite fmap_cons.
      cbn [db clock stdout length replay] in *.
      rewrite parse_failures_upsert in Hout.
      replace (pc + S (length (valid_entries Unmarshal rest)))%nat
        with (S pc + length (valid_entries Unmarshal rest))%nat by lia.
      auto.
    + destruct (IH (S lc) pc
                  (print_all [ErrorUnmarshaling (S lc) fileName;
                              ProblematicLine (TrimSpace (dropCR raw))] w)
                  Hf) as (w' & Hrun & Hdb & Hfaults & Hout).
      exists w'. rewrite Hrun.
      cbn [print_all db clock stdout] in *.
      rewrite parse_failures_app in Hout. cbn in Hout.
      split; [reflexivity|]. split; [exact Hdb|]. split; [exact Hfaults|].
      lia.
Qed.

End Run.


End SyncFacts.

(* ===================================================================== *)
(** * What one entry does to each table *)
(* ===================================================================== *)

Module IngestFacts.
Import GoStrings JSONLParser Notions.
Import SessionWindowService.

Lemma update_tokens_messages sid st :
  messages (TokenService.UpdateSessionTokens sid st) = messages st.
Proof.
  unfold TokenService.UpdateSessionTokens.
  destruct (sessions st !! sid); reflexivity.
Qed.

Lemma update_tokens_windows sid st :
  session_windows (TokenService.UpdateSessionTokens sid st) = session_windows st.
Proof.
  unfold TokenService.UpdateSessionTokens.
  destruct (sessions st !! sid); reflexivity.
Qed.

(** The message table after one entry. *)
Lemma ingest_messages entry projectName now st :
  messages (ingest entry projectName now st)
  = <[UUID entry := row_of entry (session_windows st) now]> (messages st).
Proof.
  unfold ingest, row_of, assigned_window.
  destruct (Resolver.resolveProject entry projectName) as [name path].
  cbn [with_sessions session_windows].
  destruct (GetOrCreateWindowForMessage _ _) as [ws window].
  rewrite update_tokens_messages. reflexivity.
Qed.

(** The window table after one entry: the table that
    [GetOrCreateWindowForMessage] leaves, with the statistics of the
    assigned window summed again over the new message table. *)
Lemma ingest_windows entry projectName now st :
  session_windows (ingest entry projectName now st)
  = update_where (assigned_window (Timestamp entry) (session_windows st))
      (fun w => with_stats w
         (selected (in_window (assigned_window (Timestamp entry)
                                 (session_windows st)))
            (messages (ingest entry projectName now st))))
      (GetOrCreateWindowForMessage (Timestamp entry) (session_windows st)).1.
Proof.
  rewrite ingest_messages.
  unfold ingest, row_of, assigned_window.
  destruct (Resolver.resolveProject entry projectName) as [name path].
  cbn [with_sessions session_windows].
  destruct (GetOrCreateWindowForMessage _ _) as [ws window].
  rewrite update_tokens_windows. reflexivity.
Qed.

Lemma replay_dom trace now st :
  dom (messages (replay trace now st))
  = dom (messages st) ∪ list_to_set ((fun x => UUID x.2) <$> trace).
Proof.
  revert now st. induction trace as [|[pn entry] rest IH]; intros now st.
  - cbn. set_solver.
  - cbn [replay]. rewrite IH, ingest_messages, dom_insert_L.
    rewrite fmap_cons. cbn [list_to_set snd]. set_solver.
Qed.

End IngestFacts.

(* ===================================================================== *)
(** * Valid and malformed lines of a file *)
(* ===================================================================== *)

Module FileFacts.
Import GoStrings JSONLParser Notions ScannerFacts EntryFacts SyncFacts IngestFacts.

Lemma tagged_ids projectName entries :
  (fun x : string * LogEntry => UUID x.2) <$> tagged projectName entries
  = UUID <$> entries.
Proof. unfold tagged. rewrite <- list_fmap_compose. reflexivity. Qed.

(** C3, as amended. When no database call fails and every line fits the
    buffer of the scanner, [parseJSONLFile] on a file with N valid and M
    malformed lines, in any order, returns no error, reads every line,
    processes all N valid lines and prints M parse failures; the store is
    the one that the valid entries alone leave, so no malformed line stops
    the lines after it. The message table then holds one row for each id
    among the valid lines: N new rows when these ids differ from each other
    and from the ids stored before. *)
Theorem valid_lines_are_ingested
    (Unmarshal : string -> option LogEntry) (fs : FileSystem)
    (filePath projectName : string) (input : list string) (w : World) :
  os_Open fs filePath = Some input ->
  Forall fits input ->
  db_faults w = [] ->
  exists w',
    parseJSONLFile Unmarshal fs filePath projectName w = (inr tt, w')
    /\ last (stdout w')
       = Some (Processed (length (valid_entries Unmarshal input))
                 (length input) filePath)
    /\ db w' = replay (tagged projectName (valid_entries Unmarshal input))
                 (clock w) (db w)
    /\ dom (messages (db w'))
       = dom (messages (db w))
         ∪ list_to_set (UUID <$> valid_entries Unmarshal input)
    /\ (NoDup (UUID <$> valid_entries Unmarshal input) ->
        (forall entry, entry ∈ valid_entries Unmarshal input ->
                       messages (db w) !! UUID entry = None) ->
        size (messages (db w'))
        = (size (messages (db w))
           + length (valid_entries Unmarshal input))%nat)
    /\ parse_failures (stdout w')
       = (parse_failures (stdout w) + malformed_lines Unmarshal input)%nat.
Proof.
  intros Hopen Hall Hf.
  destruct (scan_loop_no_faults Unmarshal (Base filePath) projectName input
              0 0 w Hall Hf) as (w1 & Hrun & Hdb & _ & Hout).
  cbn [Nat.add] in Hrun.
  exists (print_all [Processed (length (valid_entries Unmarshal input))
                       (length input) filePath] w1).
  split.
  { unfold parseJSONLFile. rewrite Hopen. unfold mbind, M_bind.
    rewrite Hrun. reflexivity. }
  cbn [print_all db stdout].
  split; [apply last_snoc|]. split; [exact Hdb|].
  assert (Hdom : dom (messages (db w1))
                 = dom (messages (db w))
                   ∪ list_to_set (UUID <$> valid_entries Unmarshal input))
    by (rewrite Hdb, replay_dom, tagged_ids; reflexivity).
  split; [exact Hdom|]. split.
  - intros Hnodup Hfresh.
    rewrite <- !size_dom, Hdom, size_union.
    + rewrite size_list_to_set, length_fmap by exact Hnodup. reflexivity.
    + intros id Hold Hnew. apply elem_of_list_to_set in Hnew.
      apply list_elem_of_fmap in Hnew as (entry & -> & Hin).
      apply elem_of_dom in Hold as [row Hrow].
      rewrite (Hfresh entry Hin) in Hrow. discriminate.
  - rewrite parse_failures_app, Hout. cbn. lia.
Qed.

Lemma valid_lines_are_ingested_witness :
  exists w',
    parseJSONLFile decode_braces (one_file ["{}"; "oops"; ""]) "/x.jsonl"
      "-home-u-proj" fresh_world = (inr tt, w')
    /\ last (stdout w') = Some (Processed 1 3 "/x.jsonl")
    /\ size (messages (db w')) = 1%nat
    /\ parse_failures (stdout w') = 1%nat.
Proof.
  destruct (valid_lines_are_ingested decode_braces
              (one_file ["{}"; "oops"; ""]) "/x.jsonl" "-home-u-proj"
              ["{}"; "oops"; ""] fresh_world)
    as (w' & Hrun & Hlast & _ & _ & Hsize & Hout).
  - reflexivity.
  - repeat constructor; apply fits_short; reflexivity.
  - reflexivity.
  - exists w'. split; [exact Hrun|]. split; [exact Hlast|].
    split; [|exact Hout].
    apply Hsize.
    + apply NoDup_singleton.
    + intros entry _. reflexivity.
Defined.

(** C3, the claim as it stands fails: two valid lines that carry the same
    id leave one stored message, not two. *)
Lemma same_id_lines_one_message :
  Forall fits ["{}"; "{}"]
  /\ length (valid_entries decode_braces ["{}"; "{}"]) = 2%nat
  /\ malformed_lines decode_braces ["{}"; "{}"] = 0%nat
  /\ (parseJSONLFile decode_braces (one_file ["{}"; "{}"]) "/x.jsonl"
        "-home-u-proj" fresh_world).1 = inr tt
  /\ size (messages (db (parseJSONLFile decode_braces (one_file ["{}"; "{}"])
                          "/x.jsonl" "-home-u-proj" fresh_world).2))
     = 1%nat.
Proof.
  split; [repeat constructor; apply fits_short; reflexivity|].
  repeat split; vm_compute; reflexivity.
Qed.

End FileFacts.

(* ===================================================================== *)
(** * Properties of the windows *)
(* ===================================================================== *)

Module WindowFacts.
Import GoStrings JSONLParser Notions ScannerFacts EntryFacts IngestFacts.
Import SessionWindowService.

Lemma update_where_proj {A} (proj : SessionWindow -> A) wid f ws :
  (forall w, proj (f w) = proj w) ->
  proj <$> update_where wid f ws = proj <$> ws.
Proof.
  intros Hf. unfold update_where. rewrite <- list_fmap_compose.
  apply list_fmap_ext. intros i w _. cbn.
  destruct (Nat.eqb _ _); [apply Hf | reflexivity].
Qed.

Lemma update_where_bounds wid f ws :
  (forall w, bounds (f w) = bounds w) ->
  bounds <$> update_where wid f ws = bounds <$> ws.
Proof. apply update_where_proj. Qed.

Lemma deactivate_preceding_bounds ts ws :
  bounds <$> deactivate_preceding ts ws = bounds <$> ws.
Proof.
  unfold deactivate_preceding.
  destruct (preceding_active ts ws) as [b|]; [|reflexivity].
  destruct (window_end b <=? ts); [|reflexivity].
  apply update_where_bounds. reflexivity.
Qed.

Lemma get_or_create_bounds ts ws :
  bounds <$> (GetOrCreateWindowForMessage ts ws).1
  = match findWindowForTime ts ws with
    | Some _ => bounds <$> ws
    | None => (bounds <$> ws) ++ [(ts, ts + SessionWindowDuration)]
    end.
Proof.
  unfold GetOrCreateWindowForMessage.
  destruct (findWindowForTime ts ws); [reflexivity|].
  cbn [fst]. rewrite fmap_app, deactivate_preceding_bounds. reflexivity.
Qed.

Lemma update_stats_bounds wid st :
  bounds <$> session_windows (UpdateWindowStats wid st)
  = bounds <$> session_windows st.
Proof. apply update_where_bounds. reflexivity. Qed.

(** Whatever database call fails, an entry leaves the intervals of the
    window table as they were or as [GetOrCreateWindowForMessage] makes
    them. *)
Lemma process_windows_bounds entry projectName w :
  let ws := session_windows (db w) in
  let ws' := session_windows (db (processLogEntry entry projectName w).2) in
  bounds <$> ws' = bounds <$> ws
  \/ bounds <$> ws'
     = bounds <$> (GetOrCreateWindowForMessage (Timestamp entry) ws).1.
Proof.
  destruct w as [st faults clk out]. cbn [db]. unfold processLogEntry.
  destruct (Resolver.resolveProject entry projectName) as [name path].
  destruct faults as [|[] [|[] [|[] [|[] [|[] tape]]]]]; run_parser;
    cbn [with_sessions session_windows];
    try (left; reflexivity);
    destruct (GetOrCreateWindowForMessage (Timestamp entry) (session_windows st))
      as [ws1 window]; cbn [fst snd];
    try (destruct (bool_decide _)); cbn [fst snd with_windows session_windows db];
    rewrite ?update_tokens_windows, ?update_stats_bounds;
    right; reflexivity.
Qed.

Lemma find_none_bounds ts ws b :
  findWindowForTime ts ws = None ->
  b ∈ bounds <$> ws ->
  ts < b.1 \/ b.2 <= ts.
Proof.
  intros Hfind Hin. apply list_elem_of_fmap in Hin as (w & -> & Hw).
  apply list_elem_of_In in Hw.
  pose proof (List.find_none _ _ Hfind w Hw) as Hc.
  unfold contains in Hc. cbn [bounds fst snd]. lia.
Qed.

Lemma fixed_length_get_or_create ts ws :
  fixed_length ws -> fixed_length (GetOrCreateWindowForMessage ts ws).1.
Proof.
  unfold fixed_length. rewrite get_or_create_bounds.
  destruct (findWindowForTime ts ws); [tauto|].
  intros H. apply Forall_app. split; [exact H|].
  repeat constructor. cbn. lia.
Qed.

Lemma disjoint_get_or_create ts ws :
  disjoint_windows ws ->
  clear_ahead ts ws ->
  disjoint_windows (GetOrCreateWindowForMessage ts ws).1.
Proof.
  unfold disjoint_windows, clear_ahead. rewrite get_or_create_bounds.
  destruct (findWindowForTime ts ws) eqn:Hfind; [tauto|].
  intros Hdis Hclear.
  assert (Hnew : forall k c, (bounds <$> ws) !! k = Some c ->
                   c.2 <= ts \/ ts + SessionWindowDuration <= c.1).
  { intros k c Hk.
    assert (Hc : c ∈ bounds <$> ws) by (eapply list_elem_of_lookup_2; eauto).
    pose proof (find_none_bounds _ _ _ Hfind Hc).
    rewrite Forall_forall in Hclear. specialize (Hclear c Hc). lia. }
  intros i j a b Hij Ha Hb.
  apply lookup_app_Some in Ha as [Ha|[Hi Ha]];
    apply lookup_app_Some in Hb as [Hb|[Hj Hb]].
  - eapply Hdis; eauto.
  - apply list_lookup_singleton_Some in Hb as [_ <-].
    cbn [fst snd]. specialize (Hnew _ _ Ha). lia.
  - apply list_lookup_singleton_Some in Ha as [_ <-].
    cbn [fst snd]. specialize (Hnew _ _ Hb). lia.
  - apply list_lookup_singleton_Some in Ha as [Ha _].
    apply list_lookup_singleton_Some in Hb as [Hb _]. lia.
Qed.

Lemma started_by_get_or_create ts ws :
  started_by ts ws -> started_by ts (GetOrCreateWindowForMessage ts ws).1.
Proof.
  unfold started_by. rewrite get_or_create_bounds.
  destruct (findWindowForTime ts ws); [tauto|].
  intros H. apply Forall_app. split; [exact H|].
  repeat constructor. cbn. lia.
Qed.

Lemma find_some_covered ts ws w0 :
  findWindowForTime ts ws = Some w0 -> covered ts ws.
Proof.
  intros Hfind. apply List.find_some in Hfind as [Hin Hc].
  unfold covered. apply Exists_exists. exists (bounds w0). split.
  - apply list_elem_of_fmap. exists w0. split; [reflexivity|].
    apply list_elem_of_In. exact Hin.
  - unfold contains in Hc. cbn [bounds fst snd]. lia.
Qed.

Lemma find_none_not_covered ts ws :
  findWindowForTime ts ws = None -> ~ covered ts ws.
Proof.
  intros Hfind Hcov. unfold covered in Hcov.
  apply Exists_exists in Hcov as (b & Hin & Hb).
  pose proof (find_none_bounds _ _ _ Hfind Hin). lia.
Qed.

Lemma disjoint_get_or_create_covered ts ws :
  disjoint_windows ws ->
  covered ts ws \/ clear_ahead ts ws ->
  disjoint_windows (GetOrCreateWindowForMessage ts ws).1.
Proof.
  intros Hdis [Hcov|Hclear]; [|apply disjoint_get_or_create; assumption].
  unfold disjoint_windows. rewrite get_or_create_bounds.
  destruct (findWindowForTime ts ws) eqn:Hfind; [exact Hdis|].
  destruct (find_none_not_covered _ _ Hfind Hcov).
Qed.

(** A window that is made in the five hours before the start of a stored
    window overlaps it. *)
Lemma overlap_get_or_create ts ws :
  ~ covered ts ws ->
  ~ clear_ahead ts ws ->
  fixed_length ws ->
  ~ disjoint_windows (GetOrCreateWindowForMessage ts ws).1.
Proof.
  intros Hcov Hclear Hfix Hdis. unfold disjoint_windows in Hdis.
  rewrite get_or_create_bounds in Hdis.
  destruct (findWindowForTime ts ws) as [w0|] eqn:Hfind.
  { apply Hcov. eapply find_some_covered; eauto. }
  apply Hclear. unfold clear_ahead. apply Forall_forall. intros b Hb.
  apply list_elem_of_lookup in Hb as [i Hi].
  assert (Hlen : (i < length (bounds <$> ws))%nat)
    by (eapply lookup_lt_Some; eauto).
  assert (Hne : i <> length (bounds <$> ws)) by lia.
  specialize (Hdis i (length (bounds <$> ws)) b (ts, ts + SessionWindowDuration) Hne).
  rewrite lookup_app_l in Hdis by exact Hlen.
  rewrite lookup_app_r, Nat.sub_diag in Hdis by lia.
  specialize (Hdis Hi eq_refl). cbn [fst snd] in Hdis.
  unfold fixed_length in Hfix. rewrite Forall_forall in Hfix.
  assert (Hb : b ∈ bounds <$> ws) by (eapply list_elem_of_lookup_2; eauto).
  specialize (Hfix b Hb). cbn beta in Hfix.
  unfold SessionWindowDuration in *. lia.
Qed.

(** C2, as amended. Whatever database call fails, after an entry every
    stored window is still exactly five hours long. The stored windows are
    still disjoint when the timestamp of the entry lies in a stored window
    (no window is made then) or no stored window starts in the five hours
    after it. That is so when every stored window starts at that timestamp
    or before, which then holds after the entry too: entries that come in
    the order of their timestamps keep the windows disjoint. The condition
    cannot be left out: a window that is made for a timestamp in the five
    hours before the start of a stored window overlaps that window. *)
Theorem windows_after_entry (entry : LogEntry) (projectName : string)
    (w : World) :
  let ws := session_windows (db w) in
  let ws' := session_windows (db (processLogEntry entry projectName w).2) in
  (fixed_length ws -> fixed_length ws')
  /\ (disjoint_windows ws ->
      covered (Timestamp entry) ws \/ clear_ahead (Timestamp entry) ws ->
      disjoint_windows ws')
  /\ (started_by (Timestamp entry) ws ->
      clear_ahead (Timestamp entry) ws /\ started_by (Timestamp entry) ws')
  /\ (fixed_length ws ->
      ~ covered (Timestamp entry) ws ->
      ~ clear_ahead (Timestamp entry) ws ->
      calls_succeed 2 w ->
      ~ disjoint_windows ws').
Proof.
  intros ws ws'.
  assert (Hclear : started_by (Timestamp entry) ws ->
                   clear_ahead (Timestamp entry) ws).
  { intros Hs. eapply Forall_impl; [exact Hs|]. intros b Hb. left; exact Hb. }
  assert (Hmade : calls_succeed 2 w ->
            bounds <$> ws'
            = bounds <$> (GetOrCreateWindowForMessage (Timestamp entry) ws).1).
  { subst ws ws'. destruct w as [st faults clk out]. unfold calls_succeed.
    cbn [db db_faults]. intros Hok. unfold processLogEntry.
    destruct (Resolver.resolveProject entry projectName) as [name path].
    destruct faults as [|[] [|[] [|[] [|[] [|[] tape]]]]]; cbn [take] in Hok;
      try (exfalso; repeat (apply Forall_cons in Hok as [? Hok]); discriminate);
      run_parser; cbn [with_sessions session_windows];
      destruct (GetOrCreateWindowForMessage (Timestamp entry) (session_windows st))
        as [ws1 window]; cbn [fst snd];
      try (destruct (bool_decide _)); cbn [fst snd with_windows session_windows db];
      rewrite ?update_tokens_windows, ?update_stats_bounds;
      reflexivity. }
  split; [|split; [|split]].
  - destruct (process_windows_bounds entry projectName w) as [Hb|Hb];
      fold ws ws' in Hb; unfold fixed_length; rewrite Hb;
      [tauto | apply fixed_length_get_or_create].
  - destruct (process_windows_bounds entry projectName w) as [Hb|Hb];
      fold ws ws' in Hb; unfold disjoint_windows; rewrite Hb;
      [tauto | apply disjoint_get_or_create_covered].
  - intros Hs. split; [apply Hclear, Hs|].
    destruct (process_windows_bounds entry projectName w) as [Hb|Hb];
      fold ws ws' in Hb; unfold started_by; rewrite Hb;
      [exact Hs | apply started_by_get_or_create, Hs].
  - intros Hfix Hcov Hnot Hok. unfold disjoint_windows.
    rewrite (Hmade Hok). apply overlap_get_or_create; assumption.
Qed.

(** Three entries in a row: the second one, more than five hours after the
    first, gets a window of its own; the third one lies in the window of
    the first, forty minutes before the start of the second window. *)
Lemma windows_after_entry_witness :
  let w1 := (processLogEntry (entry_at "m1" 28800) "-home-u-proj" fresh_world).2 in
  let w2 := (processLogEntry (entry_at "m2" 48000) "-home-u-proj" w1).2 in
  let w3 := (processLogEntry (entry_at "m3" 45600) "-home-u-proj" w2).2 in
  bounds <$> session_windows (db w3) = [(28800, 46800); (48000, 66000)]
  /\ ~ clear_ahead 45600 (session_windows (db w2))
  /\ disjoint_windows (session_windows (db w3)).
Proof.
  intros w1 w2 w3.
  assert (H2 : bounds <$> session_windows (db w2) = [(28800, 46800); (48000, 66000)])
    by (vm_compute; reflexivity).
  split; [vm_compute; reflexivity|]. split.
  - unfold clear_ahead. rewrite H2. intros Hc.
    apply Forall_cons in Hc as [_ Hc]. apply Forall_cons in Hc as [Hc _].
    cbn in Hc. unfold SessionWindowDuration in Hc. lia.
  - apply (proj1 (proj2 (windows_after_entry (entry_at "m3" 45600) "-home-u-proj" w2))).
    + apply (proj1 (proj2 (windows_after_entry (entry_at "m2" 48000) "-home-u-proj" w1))).
      * apply (proj1 (proj2 (windows_after_entry (entry_at "m1" 28800)
                               "-home-u-proj" fresh_world))).
        -- intros i j a b _ Ha. destruct i; discriminate Ha.
        -- right. constructor.
      * right. unfold clear_ahead.
        replace (bounds <$> session_windows (db w1)) with [(28800, 46800)]
          by (vm_compute; reflexivity).
        repeat constructor. cbn. lia.
    + left. unfold covered. rewrite H2. constructor. cbn. lia.
Defined.

(** C2, the claim as it stands fails: an entry whose timestamp lies two
    hours before the start of a stored window gets a window of its own,
    which overlaps the stored one. *)
Lemma out_of_order_windows_overlap :
  ~ disjoint_windows
      (session_windows
         (db (processLogEntry (entry_at "m2" 28800) "-home-u-proj"
                (processLogEntry (entry_at "m1" 36000) "-home-u-proj"
                   fresh_world).2).2)).
Proof.
  intros Hdis.
  specialize (Hdis 0%nat 1%nat (36000, 54000) (28800, 46800)).
  cbn [fst snd] in Hdis.
  destruct Hdis as [H|H]; try discriminate; try reflexivity;
    revert H; vm_compute; intros H; apply H; reflexivity.
Qed.

(** ** The statistics of a window *)

Lemma sum_permutation (l1 l2 : list Z) :
  l1 ≡ₚ l2 -> foldr Z.add 0 l1 = foldr Z.add 0 l2.
Proof. induction 1; cbn; lia. Qed.

Lemma map_to_list_selected {A} (P : string * A -> Prop)
    `{!forall x, Decision (P x)} (m : gmap string A) :
  map_to_list (filter P m) ≡ₚ filter P (map_to_list m).
Proof.
  rewrite map_filter_alt. apply map_to_list_to_map.
  eapply sublist_NoDup; [apply (NoDup_fst_map_to_list m)|].
  apply fmap_sublist, sublist_filter.
Qed.

(** The sum that [with_stats] stores is the sum over the list of the
    selected rows. *)
Lemma sum_over_selected (f : Message -> Z) (sel : Message -> bool)
    (msgs : gmap string MessageRow) :
  sum_over f (selected sel msgs)
  = foldr Z.add 0
      ((fun kv => f (row_message kv.2))
         <$> filter (fun kv : string * MessageRow => sel (row_message kv.2) = true)
               (map_to_list msgs)).
Proof.
  unfold sum_over, selected. rewrite map_fold_foldr.
  rewrite <- (sum_permutation _ _
                (fmap_Permutation _ _ _ (map_to_list_selected _ msgs))).
  induction (map_to_list (filter _ msgs)) as [|[k r] l IH]; [reflexivity|].
  cbn. rewrite IH. reflexivity.
Qed.

Lemma total_is_window_sum wid msgs :
  sum_over (fun m => m_InputTokens m + m_OutputTokens m)
    (selected (in_window wid) msgs)
  = window_token_sum wid msgs.
Proof.
  rewrite sum_over_selected. unfold window_token_sum, token_total.
  f_equal. f_equal. apply list_filter_iff. intros [k r]. unfold in_window.
  cbn. rewrite bool_decide_eq_true. reflexivity.
Qed.

Lemma update_where_elem wid f ws win :
  win ∈ update_where wid f ws ->
  exists w0, w0 ∈ ws
             /\ (w_id w0 = wid /\ win = f w0 \/ w_id w0 <> wid /\ win = w0).
Proof.
  unfold update_where. intros Hin.
  apply list_elem_of_fmap in Hin as (w0 & Hw & Hin).
  exists w0. split; [exact Hin|].
  destruct (Nat.eqb_spec (w_id w0) wid); [left|right]; auto.
Qed.

Lemma update_where_keeps_id wid f ws w0 :
  (forall w, w_id (f w) = w_id w) ->
  w0 ∈ ws -> exists win, win ∈ update_where wid f ws /\ w_id win = w_id w0.
Proof.
  intros Hf Hin. unfold update_where.
  exists (if Nat.eqb (w_id w0) wid then f w0 else w0). split.
  - apply list_elem_of_fmap. exists w0. split; [reflexivity | exact Hin].
  - destruct (Nat.eqb _ _); [apply Hf | reflexivity].
Qed.

(** The window that [GetOrCreateWindowForMessage] returns is stored. *)
Lemma assigned_window_stored ts ws :
  exists w0, w0 ∈ (GetOrCreateWindowForMessage ts ws).1
             /\ w_id w0 = assigned_window ts ws.
Proof.
  unfold assigned_window, GetOrCreateWindowForMessage, findWindowForTime.
  destruct (List.find (contains ts) ws) as [w0|] eqn:Hfind; cbn [fst snd].
  - exists w0. split; [|reflexivity].
    apply list_elem_of_In. eapply List.find_some; eauto.
  - eexists. split; [|reflexivity]. apply elem_of_app. right.
    apply list_elem_of_singleton. reflexivity.
Qed.

Lemma stats_of_updated_window wid st win :
  win ∈ session_windows (UpdateWindowStats wid st) ->
  w_id win = wid ->
  w_total_tokens win = window_token_sum wid (messages st).
Proof.
  intros Hin Hid. unfold UpdateWindowStats in Hin.
  cbn [session_windows with_windows] in Hin.
  apply update_where_elem in Hin as (w0 & _ & [[_ ->]|[Hne ->]]).
  - cbn [with_stats w_total_tokens]. apply total_is_window_sum.
  - contradiction.
Qed.

(** When the first four calls of [processLogEntry] succeed, the messages
    and the windows are those that [ingest] leaves, whether the last call
    succeeds or not. *)
Lemma process_stats_done entry projectName w :
  calls_succeed 4 w ->
  messages (db (processLogEntry entry projectName w).2)
  = messages (ingest entry projectName (clock w) (db w))
  /\ session_windows (db (processLogEntry entry projectName w).2)
     = session_windows (ingest entry projectName (clock w) (db w)).
Proof.
  destruct w as [st faults clk out]. unfold calls_succeed.
  cbn [db db_faults clock]. intros Hok.
  unfold processLogEntry, ingest.
  destruct (Resolver.resolveProject entry projectName) as [name path].
  cbn [with_sessions session_windows].
  destruct faults as [|[] [|[] [|[] [|[] [|[] tape]]]]]; cbn [take] in Hok;
    try (exfalso; repeat (apply Forall_cons in Hok as [? Hok]); discriminate);
    run_parser; cbn [with_sessions session_windows];
    destruct (GetOrCreateWindowForMessage (Timestamp entry) (session_windows st))
      as [ws window]; cbn [fst snd];
    try (destruct (bool_decide _)); cbn [fst snd db];
    rewrite ?update_tokens_messages, ?update_tokens_windows;
    split; reflexivity.
Qed.

(** A row under a new id adds its tokens to the sum of its window. *)
Lemma window_sum_insert wid id row (msgs : gmap string MessageRow) :
  msgs !! id = None ->
  m_SessionWindowID (row_message row) = Some wid ->
  window_token_sum wid (<[id := row]> msgs)
  = token_total (row_message row) + window_token_sum wid msgs.
Proof.
  intros Hnew Hwid. rewrite <- !total_is_window_sum. unfold selected.
  rewrite map_filter_insert_True
    by (cbn; unfold in_window; apply bool_decide_eq_true; exact Hwid).
  unfold sum_over. rewrite map_fold_insert_L.
  - reflexivity.
  - intros. lia.
  - apply map_lookup_filter_None. left. exact Hnew.
Qed.

(** C4. After [UpdateWindowStats] has run for a window, the total that the
    window stores is the sum of input tokens plus output tokens over the
    messages that are assigned to the window at that time. That is the
    state after every entry for which [processLogEntry] has inserted the
    message and updated the window (its first four database calls
    succeed): the message of the entry is stored with the window it was
    assigned to, that window is stored, and its total is the sum over its
    messages; for a message with a new id that is the sum over the messages
    that the window had before, and the input and output tokens of the
    entry. *)
Theorem window_total_is_message_sum :
  (forall st wid win,
      win ∈ session_windows (UpdateWindowStats wid st) ->
      w_id win = wid ->
      w_total_tokens win
      = window_token_sum wid (messages (UpdateWindowStats wid st)))
  /\ (forall entry projectName w,
        calls_succeed 4 w ->
        let st' := db (processLogEntry entry projectName w).2 in
        let wid := assigned_window (Timestamp entry) (session_windows (db w)) in
        row_message <$> messages st' !! UUID entry
          = Some (message_of entry (Some wid))
        /\ (exists win, win ∈ session_windows st' /\ w_id win = wid)
        /\ (forall win,
              win ∈ session_windows st' -> w_id win = wid ->
              w_total_tokens win = window_token_sum wid (messages st')
              /\ (messages (db w) !! UUID entry = None ->
                  w_total_tokens win
                  = from_option InputTokens 0 (lm_Usage (EntryMessage entry))
                    + from_option OutputTokens 0 (lm_Usage (EntryMessage entry))
                    + window_token_sum wid (messages (db w))))).
Proof.
  split.
  - intros st wid win Hin Hid.
    change (messages (UpdateWindowStats wid st)) with (messages st).
    apply stats_of_updated_window; assumption.
  - intros entry projectName w Hok st' wid. subst st'.
    destruct (process_stats_done entry projectName w Hok) as [-> ->].
    split; [|split].
    + rewrite ingest_messages, lookup_insert_eq. reflexivity.
    + rewrite ingest_windows.
      destruct (assigned_window_stored (Timestamp entry) (session_windows (db w)))
        as (w0 & Hin & Hid).
      destruct (update_where_keeps_id wid
                  (fun w1 => with_stats w1
                     (selected (in_window wid)
                        (messages (ingest entry projectName (clock w) (db w)))))
                  _ w0 (fun _ => eq_refl) Hin) as (win & Hwin & Hwid).
      exists win. split; [exact Hwin|]. rewrite Hwid. exact Hid.
    + intros win Hin Hid. rewrite ingest_windows in Hin.
      assert (Hsum : w_total_tokens win
                     = window_token_sum wid
                         (messages (ingest entry projectName (clock w) (db w)))).
      { apply update_where_elem in Hin as (w0 & _ & [[_ ->]|[Hne ->]]).
        - cbn [with_stats w_total_tokens]. apply total_is_window_sum.
        - contradiction. }
      split; [exact Hsum|]. intros Hnew. rewrite Hsum, ingest_messages.
      rewrite window_sum_insert by (assumption || reflexivity).
      reflexivity.
Qed.

(** The two lines of the end-to-end scenario: after the second one the
    window of both holds 100 + 50 and 20 + 5 tokens. *)
Lemma window_total_is_message_sum_witness :
  let w1 := (processLogEntry first_line "-home-u-proj" fresh_world).2 in
  let st' := db (processLogEntry second_line "-home-u-proj" w1).2 in
  exists win, win ∈ session_windows st' /\ w_id win = 0%nat
              /\ w_total_tokens win = window_token_sum 0 (messages st')
              /\ w_total_tokens win = 175.
Proof.
  intros w1 st'.
  assert (Hok : calls_succeed 4 w1) by (vm_compute; constructor).
  destruct (proj2 window_total_is_message_sum second_line "-home-u-proj"
              w1 Hok) as (_ & (win & Hin & Hid) & Hsum).
  assert (Hwid : assigned_window (Timestamp second_line) (session_windows (db w1))
                 = 0%nat) by (vm_compute; reflexivity).
  rewrite Hwid in Hid, Hsum.
  exists win. split; [exact Hin|]. split; [exact Hid|].
  destruct (Hsum win Hin Hid) as [Htotal Hgrow].
  split; [exact Htotal|].
  rewrite Hgrow by (vm_compute; reflexivity).
  vm_compute. reflexivity.
Defined.

End WindowFacts.


(* ===================================================================== *)
(** * A sync run with no failing database call is a replay *)
(* ===================================================================== *)

Module TraceFacts.
Import GoStrings JSONLParser Notions ScannerFacts EntryFacts SyncFacts.





Lemma replays_print_l t es w w1 : replays t (print_all es w) w1 -> replays t w w1.
Proof. intros H; exact H. Qed.

Section Run.
Variable Unmarshal : string -> option LogEntry.







End Run.
End TraceFacts.


(* ===================================================================== *)
(** * A second sync run over the same files *)
(* ===================================================================== *)

Module ResyncFacts.
Import GoStrings JSONLParser Notions IngestFacts WindowFacts TraceFacts.
Import SessionWindowService.

(** ** The counters depend on the stored messages, not on [created_at] *)









(** ** What one entry does to the sessions and to the stored messages *)

Lemma upsert_is_insert sid name path ts (tbl : gmap string Session) :
  SessionService.CreateOrUpdateSession sid name path ts tbl
  = <[sid := upserted name path ts (tbl !! sid)]> tbl.
Proof.
  unfold SessionService.CreateOrUpdateSession, upserted.
  destruct (tbl !! sid); reflexivity.
Qed.

Lemma ingest_sessions entry projectName now st :
  sessions (ingest entry projectName now st)
  = <[SessionID entry :=
        TokenService.with_totals
          (upserted (Resolver.resolveProject entry projectName).1
                    (Resolver.resolveProject entry projectName).2
                    (Timestamp entry) (sessions st !! SessionID entry))
          (selected (in_session (SessionID entry))
                    (messages (ingest entry projectName now st)))]>
      (sessions st).
Proof.
  rewrite ingest_messages. unfold ingest, row_of, assigned_window.
  destruct (Resolver.resolveProject entry projectName) as [name path].
  cbn [fst snd with_sessions session_windows].
  destruct (GetOrCreateWindowForMessage _ _) as [ws window].
  unfold TokenService.UpdateSessionTokens.
  cbn [UpdateWindowStats upsert_message with_windows with_messages with_sessions
       sessions messages session_windows snd].
  rewrite upsert_is_insert, lookup_insert_eq.
  cbn [with_sessions sessions]. rewrite insert_insert_eq. reflexivity.
Qed.



(** ** The windows, by their ids and intervals *)













(** ** What a replay leaves *)


(** A session stays, and the session of an entry is stored. *)
Lemma ingest_session_kept entry projectName now st sid :
  is_Some (sessions st !! sid) ->
  is_Some (sessions (ingest entry projectName now st) !! sid).
Proof.
  intros Hs. rewrite ingest_sessions.
  destruct (decide (SessionID entry = sid)) as [<-|Hne].
  - rewrite lookup_insert_eq. eauto.
  - rewrite lookup_insert_ne by exact Hne. exact Hs.
Qed.

Lemma replay_session_kept trace now st sid :
  is_Some (sessions st !! sid) ->
  is_Some (sessions (replay trace now st) !! sid).
Proof.
  revert now st. induction trace as [|[pn e] trace IH]; intros now st Hs;
    [exact Hs|].
  cbn [replay]. apply IH, ingest_session_kept, Hs.
Qed.

Lemma ingest_session_stored entry projectName now st :
  is_Some (sessions (ingest entry projectName now st) !! SessionID entry).
Proof. rewrite ingest_sessions, lookup_insert_eq. eauto. Qed.










(** ** The second run *)





(** ** The second run *)









(** The two lines of the end-to-end scenario, ingested twice: the session
    (from 1000 to 1600, 175 tokens), the window and the messages are after
    the second pass as they are after the first. *)
Example scenario_ingested_twice :
  let pass := fun w =>
    (processLogEntry second_line "-home-u-proj"
       (processLogEntry first_line "-home-u-proj" w).2).2 in
  sessions (db (pass (pass fresh_world))) = sessions (db (pass fresh_world))
  /\ s_end_time <$> sessions (db (pass fresh_world)) !! "s1" = Some (Some 1600)
  /\ session_windows (db (pass (pass fresh_world)))
     = session_windows (db (pass fresh_world))
  /\ stored_messages (db (pass (pass fresh_world)))
     = stored_messages (db (pass fresh_world)).
Proof. repeat split; vm_compute; reflexivity. Qed.


(** Without the condition on the first run the counters can differ: a
    message that the first run moves out of a window is still counted there
    when the first run sums the window, and no longer when the second run
    does. Here message [a] is stored in the first window, and the entries
    of both runs are [b] in that window and [a] four days later. *)
Lemma moved_message_leaves_stale_count :
  let run := fun w =>
    (processLogEntry (entry_at "a" 360000) "-home-u-proj"
       (processLogEntry (entry_at "b" 0) "-home-u-proj" w).2).2 in
  let w0 := (processLogEntry (entry_at "a" 0) "-home-u-proj" fresh_world).2 in
  w_message_count <$> session_windows (db (run w0)) = [2; 1]
  /\ w_message_count <$> session_windows (db (run (run w0))) = [1; 1].
Proof. split; vm_compute; reflexivity. Qed.

End ResyncFacts.

(* ===================================================================== *)
(** * More on project names and project paths *)
(* ===================================================================== *)

Module NameFacts.
Import GoStrings Filepath Resolver Ledger ResolverFacts.

(** An element that the loops of [extractProjectNameFromCwd] accept lies
    within the bounds of the slice. *)
Lemma meaningful_nth_elem (parts : list string) (i : nat) :
  meaningful (nth i parts "") = true -> nth i parts "" ∈ parts.
Proof.
  intros Hm. destruct (Nat.lt_ge_cases i (length parts)) as [Hlt|Hge].
  - apply list_elem_of_In. apply nth_In. exact Hlt.
  - rewrite nth_overflow in Hm by exact Hge. discriminate Hm.
Qed.

Lemma parent_loop_elem (parts : list string) (j : nat) (p : string) :
  parent_loop parts j = Some p ->
  meaningful p = true /\ isCommonSubdir p = false /\ p ∈ parts.
Proof.
  induction j as [|j IH]; cbn [parent_loop]; [discriminate|].
  destruct (meaningful (nth j parts "")) eqn:Hm; cbn [andb]; [|exact IH].
  destruct (isCommonSubdir (nth j parts "")) eqn:Hc; cbn [negb]; [exact IH|].
  intros [= <-]. split; [exact Hm|]. split; [exact Hc|].
  apply meaningful_nth_elem; exact Hm.
Qed.

Lemma part_loop_elem (parts : list string) (i : nat) :
  meaningful (part_loop parts i) = true
  /\ (part_loop parts i = "unknown" \/ part_loop parts i ∈ parts).
Proof.
  induction i as [|i IH]; cbn [part_loop];
    [split; [reflexivity | left; reflexivity]|].
  destruct (meaningful (nth i parts "")) eqn:Hm; [|exact IH].
  destruct (isCommonSubdir (nth i parts "")) eqn:Hc.
  - destruct (parent_loop parts i) as [p|] eqn:Hp.
    + destruct (parent_loop_elem _ _ _ Hp) as (Hpm & _ & Hin). auto.
    + split; [exact Hm|]. right. apply meaningful_nth_elem; exact Hm.
  - split; [exact Hm|]. right. apply meaningful_nth_elem; exact Hm.
Qed.

(** X1. The name that [extractProjectNameFromCwd] gives is never empty,
    [.] or [..]: it is [unknown] or one of the elements of the cleaned
    working directory. This holds for every working directory, the empty
    one and the root included. *)
Theorem project_name_is_path_element (cwd : string) :
  meaningful (extractProjectNameFromCwd cwd) = true
  /\ (extractProjectNameFromCwd cwd = "unknown"
      \/ extractProjectNameFromCwd cwd ∈ Split (Clean cwd) slash).
Proof.
  unfold extractProjectNameFromCwd.
  destruct (String.eqb cwd ""); [split; [reflexivity | left; reflexivity]|].
  destruct (Nat.eqb _ 0); [split; [reflexivity | left; reflexivity]|].
  apply part_loop_elem.
Qed.

Lemma walk_all_generic (parts : list string) :
  isCommonSubdir (name_by_walk parts) = true ->
  Forall (fun part => meaningful part = true -> isCommonSubdir part = true) parts.
Proof.
  unfold name_by_walk. intros Hgen.
  destruct (List.find _ _) as [ancestor|] eqn:Hfind.
  - apply List.find_some in Hfind as [_ Hno]. rewrite Hgen in Hno.
    discriminate Hno.
  - apply Forall_forall. intros part Hin Hm.
    pose proof (List.find_none _ _ Hfind part) as Hnone.
    cbn beta in Hnone. apply negb_false_iff. apply Hnone.
    apply List.filter_In. split; [|exact Hm].
    apply List.in_rev. rewrite List.rev_involutive.
    apply list_elem_of_In. exact Hin.
Qed.

(** X2. [extractProjectNameFromCwd] gives one of the names [frontend],
    [backend], [src] and [lib] only for a working directory that has no
    other element to offer: every element of its cleaned path, the empty
    ones and the dots apart, is then one of these four names. *)
Theorem generic_name_means_generic_path (cwd : string) :
  isCommonSubdir (extractProjectNameFromCwd cwd) = true ->
  Forall (fun part => meaningful part = true -> isCommonSubdir part = true)
         (Split (Clean cwd) slash).
Proof.
  intros Hgen. destruct (String.eqb_spec cwd "") as [->|Hne];
    [discriminate Hgen|].
  rewrite extract_is_walk in Hgen by exact Hne.
  apply walk_all_generic. exact Hgen.
Qed.

Lemma generic_name_means_generic_path_witness :
  Forall (fun part => meaningful part = true -> isCommonSubdir part = true)
         [EmptyString; "src"; "lib"].
Proof.
  exact (generic_name_means_generic_path "/src/./lib/" eq_refl).
Defined.

Lemma replace_back (s : string) :
  ReplaceAll (ReplaceAll s "/"%char "-"%char) "-"%char "/"%char
  = ReplaceAll s "-"%char "/"%char.
Proof.
  induction s as [|c s IH]; [reflexivity|]. cbn [ReplaceAll]. rewrite IH.
  destruct (Ascii.eqb_spec c "/"%char) as [->|Hc]; reflexivity.
Qed.

Lemma replace_same (s : string) :
  ReplaceAll s "-"%char "/"%char = s <-> has_byte "-"%char s = false.
Proof.
  induction s as [|c s IH]; [split; reflexivity|].
  cbn [ReplaceAll has_byte].
  destruct (Ascii.eqb_spec c "-"%char) as [->|Hc]; cbn [orb].
  - split; discriminate.
  - rewrite <- IH. split; [intros [= H]; exact H | intros ->; reflexivity].
Qed.

Lemma replace_no_dash (s : string) :
  has_byte "-"%char (ReplaceAll s "-"%char "/"%char) = false.
Proof.
  induction s as [|c s IH]; [reflexivity|]. cbn [ReplaceAll].
  destruct (Ascii.eqb_spec c "-"%char) as [->|Hc]; cbn [has_byte];
    rewrite IH, orb_false_r; [reflexivity|].
  apply Ascii.eqb_neq. exact Hc.
Qed.

Lemma replace_length (s : string) (a b : ascii) :
  String.length (ReplaceAll s a b) = String.length s.
Proof. induction s as [|c s IH]; [reflexivity|]. cbn. rewrite IH. reflexivity. Qed.

(** X3. A project directory is named after its path with every [/]
    written as [-]. [convertProjectNameToPath] gives the path back from
    such a name exactly when the path holds no [-] of its own; a path with
    a [-] in it comes back as another path. *)
Theorem directory_name_round_trip (path : string) :
  HasPrefix path "/" = true ->
  (convertProjectNameToPath (ReplaceAll path "/"%char "-"%char) = path
   <-> has_byte "-"%char path = false).
Proof.
  destruct path as [|c path]; [discriminate|]. cbn [HasPrefix].
  destruct (Ascii.eqb_spec c "/"%char) as [->|]; [intros _ | discriminate].
  unfold convertProjectNameToPath. cbn [ReplaceAll Ascii.eqb HasPrefix tail1].
  change (HasPrefix (ReplaceAll path "/"%char "-"%char) "") with true.
  cbn [andb Bool.eqb]. rewrite replace_back. cbn [String.append has_byte].
  change (Ascii.eqb "/"%char "-"%char) with false. cbn [orb].
  rewrite <- replace_same. split; [intros [= H]; exact H | intros ->; reflexivity].
Qed.

Lemma directory_name_round_trip_witness :
  convertProjectNameToPath (ReplaceAll "/home/u/proj" "/"%char "-"%char)
  = "/home/u/proj".
Proof.
  apply (directory_name_round_trip "/home/u/proj"); reflexivity.
Defined.

(** X4. [convertProjectNameToPath] gives a path as long as the name. For
    a name that begins with [-] the path begins with [/] and holds no [-]
    at all; any other name is the path as it is. *)
Theorem path_of_directory_name_shape (projectName : string) :
  String.length (convertProjectNameToPath projectName)
  = String.length projectName
  /\ (HasPrefix projectName "-" = true ->
      HasPrefix (convertProjectNameToPath projectName) "/" = true
      /\ has_byte "-"%char (convertProjectNameToPath projectName) = false)
  /\ (HasPrefix projectName "-" = false ->
      convertProjectNameToPath projectName = projectName).
Proof.
  unfold convertProjectNameToPath.
  destruct (HasPrefix projectName "-") eqn:Hpre.
  - destruct (prefix_dash _ Hpre) as [rest ->]. cbn [tail1 String.append].
    split.
    { change (S (String.length (ReplaceAll rest "-"%char "/"%char))
              = S (String.length rest)).
      rewrite replace_length. reflexivity. }
    split; [|discriminate]. intros _. split; [reflexivity|].
    change (Ascii.eqb "/"%char "-"%char
            || has_byte "-"%char (ReplaceAll rest "-"%char "/"%char) = false).
    rewrite replace_no_dash. reflexivity.
  - split; [reflexivity|]. split; [discriminate | reflexivity].
Qed.

End NameFacts.

(* ===================================================================== *)
(** * More on the database calls of an entry *)
(* ===================================================================== *)

Module CallFacts.
Import GoStrings JSONLParser Notions Ledger ScannerFacts EntryFacts.

(** X5. [insertMessage] writes one row and touches nothing else. When its
    database call fails it returns the error wrapped as a failed upsert,
    with the store and the output as they were. When the call succeeds,
    the row of the message is found under its id with the time of the
    write, every other row, the sessions and the windows are as before, and
    one line is printed if the role is [assistant], none otherwise. *)
Theorem insert_message_outcome (message : Message) (w : World) :
  (forall tape,
      db_faults w = true :: tape ->
      insertMessage message w
      = (inl (Wrapped "failed to upsert message" ErrStore),
         mkWorld (db w) tape (clock w + 1) (stdout w)))
  /\ (calls_succeed 1 w ->
      exists w',
        insertMessage message w = (inr tt, w')
        /\ messages (db w') !! m_ID message
           = Some (mkMessageRow message (clock w))
        /\ (forall id, id <> m_ID message ->
                       messages (db w') !! id = messages (db w) !! id)
        /\ sessions (db w') = sessions (db w)
        /\ session_windows (db w') = session_windows (db w)
        /\ db_faults w' = tail (db_faults w)
        /\ stdout w' = stdout w ++ upsert_log message).
Proof.
  destruct w as [st faults clk out]. cbn [db_faults db clock stdout].
  split.
  - intros tape ->. unfold insertMessage.
    cbv beta iota zeta delta
      [mbind mret M_bind M_ret wrap printf time_Now db_call
       db db_faults clock stdout].
    reflexivity.
  - unfold calls_succeed. cbn [db_faults]. intros Hok.
    assert (Hrun : insertMessage message (mkWorld st faults clk out)
                   = (inr tt, mkWorld (upsert_message message clk st)
                                (tail faults) (clk + 1)
                                (out ++ upsert_log message))).
    { unfold insertMessage, upsert_log.
      destruct faults as [|[] tape].
      - cbv beta iota zeta delta
          [mbind mret M_bind M_ret wrap printf time_Now db_call
           db db_faults clock stdout tail].
        destruct (bool_decide _); [reflexivity|].
        rewrite app_nil_r. reflexivity.
      - apply Forall_cons in Hok as [Hhd _]. discriminate Hhd.
      - cbv beta iota zeta delta
          [mbind mret M_bind M_ret wrap printf time_Now db_call
           db db_faults clock stdout tail].
        destruct (bool_decide _); [reflexivity|].
        rewrite app_nil_r. reflexivity. }
    eexists. split; [exact Hrun|].
    cbn [db db_faults stdout upsert_message with_messages messages sessions
         session_windows].
    split; [apply lookup_insert_eq|].
    split; [intros id Hid; apply lookup_insert_ne; congruence|].
    auto.
Qed.

Lemma insert_message_outcome_witness :
  exists w',
    insertMessage (message_of first_line (Some 0%nat)) fresh_world = (inr tt, w')
    /\ messages (db w') !! "m1"
       = Some (mkMessageRow (message_of first_line (Some 0%nat)) 0)
    /\ stdout w' = [UpsertedAssistant "m1" "s1" 1000 150].
Proof.
  destruct (proj2 (insert_message_outcome (message_of first_line (Some 0%nat))
                     fresh_world))
    as (w' & Hrun & Hrow & _ & _ & _ & _ & Hout).
  - constructor.
  - exists w'. split; [exact Hrun|]. split; [exact Hrow|exact Hout].
Defined.

(** X6. [processLogEntry] returns no error exactly when none of its five
    database calls fails: the session call, the window call, the upsert,
    the window statistics and the session totals. *)
Theorem entry_succeeds_iff_its_calls_do
    (entry : LogEntry) (projectName : string) (w : World) :
  (processLogEntry entry projectName w).1 = inr tt <-> calls_succeed 5 w.
Proof.
  destruct w as [st faults clk out]. unfold calls_succeed, processLogEntry.
  cbn [db_faults].
  destruct (Resolver.resolveProject entry projectName) as [name path].
  destruct faults as [|[] [|[] [|[] [|[] [|[] tape]]]]];
    run_parser; cbn [with_sessions session_windows take];
    try destruct (SessionWindowService.GetOrCreateWindowForMessage _ _)
      as [ws window];
    cbn [message_of m_MessageRole];
    try destruct (bool_decide _); cbn [fst];
    (split; [intros H; try discriminate H; repeat constructor
            |intros H; try reflexivity;
             repeat match goal with
                    | H : Forall _ (_ :: _) |- _ =>
                        apply Forall_cons in H as [? H]
                    end; discriminate]).
Qed.

(** X7. When call number [k] of [processLogEntry] is the first to fail,
    the error names that step, the calls after it are not made, and what
    the calls before it wrote stays: a failure of the session call, the
    window call or the upsert leaves the messages as they were, while a
    failure of the window statistics or of the session totals leaves the
    row of the message in the table although the entry is reported as
    failed. (The services of the model write to their own tables and not
    to [messages].) *)
Theorem failed_entry_stage
    (entry : LogEntry) (projectName : string) (w : World) (k : nat)
    (tape : list bool) :
  (k < 5)%nat ->
  db_faults w = replicate k false ++ true :: tape ->
  exists w',
    processLogEntry entry projectName w = (inl (stage_error k), w')
    /\ db_faults w' = tape
    /\ ((k <= 2)%nat -> messages (db w') = messages (db w))
    /\ ((3 <= k)%nat ->
        messages (db w')
        = <[UUID entry := row_of entry (session_windows (db w)) (clock w)]>
            (messages (db w))).
Proof.
  intros Hk Hf. destruct w as [st faults clk out].
  cbn [db_faults db clock] in *. subst faults.
  unfold processLogEntry, row_of, assigned_window.
  destruct (Resolver.resolveProject entry projectName) as [name path].
  destruct k as [|[|[|[|[|k]]]]]; [| | | | |lia];
    cbn [replicate app]; run_parser; cbn [with_sessions session_windows];
    try destruct (SessionWindowService.GetOrCreateWindowForMessage _ _)
      as [ws window];
    cbn [message_of m_MessageRole snd];
    try destruct (bool_decide _);
    (eexists; split; [reflexivity|]; split; [reflexivity|]; split;
     [intros; try lia; try reflexivity|intros; try lia; try reflexivity]).
Qed.

Lemma failed_entry_stage_witness :
  exists w',
    processLogEntry blank_entry "-home-u-proj"
      (mkWorld empty_store [false; false; false; true] 0 [])
    = (inl (Wrapped "failed to update window stats" ErrStore), w')
    /\ is_Some (messages (db w') !! "").
Proof.
  destruct (failed_entry_stage blank_entry "-home-u-proj"
              (mkWorld empty_store [false; false; false; true] 0 []) 3 [])
    as (w' & Hrun & _ & _ & Hrow).
  - lia.
  - reflexivity.
  - exists w'. split; [exact Hrun|].
    rewrite Hrow by lia. rewrite lookup_insert_eq. eauto.
Defined.

End CallFacts.

(* ===================================================================== *)
(** * More on the lines of a file *)
(* ===================================================================== *)

Module LineFacts.
Import GoStrings JSONLParser Notions Ledger ScannerFacts EntryFacts SyncFacts.

Lemma entry_failures_app out es :
  entry_failures (out ++ es) = (entry_failures out + entry_failures es)%nat.
Proof. unfold entry_failures. rewrite List.filter_app, length_app. reflexivity. Qed.

(** [processLogEntry] prints at most the line of [insertMessage]. *)
Lemma process_prints entry projectName w :
  exists es,
    stdout (processLogEntry entry projectName w).2 = stdout w ++ es
    /\ (es = [] \/ exists id sid ts tokens,
                     es = [UpsertedAssistant id sid ts tokens]).
Proof.
  destruct w as [st faults clk out]. unfold processLogEntry.
  destruct (Resolver.resolveProject entry projectName) as [name path].
  destruct faults as [|[] [|[] [|[] [|[] [|[] tape]]]]];
    run_parser; cbn [with_sessions session_windows];
    try (exists []; rewrite app_nil_r; split; [reflexivity | left; reflexivity]);
    destruct (SessionWindowService.GetOrCreateWindowForMessage _ _) as [ws window];
    try (exists []; rewrite app_nil_r; split; [reflexivity | left; reflexivity]);
    cbn [message_of m_MessageRole];
    destruct (bool_decide _); cbn [snd stdout];
    try (exists []; rewrite app_nil_r; split; [reflexivity | left; reflexivity]);
    (eexists [_]; split; [reflexivity | right; eauto]).
Qed.

(** That line is no report of a failure, and is about no file. *)
Lemma process_prints_counts entry projectName w :
  exists es,
    stdout (processLogEntry entry projectName w).2 = stdout w ++ es
    /\ parse_failures es = 0%nat /\ entry_failures es = 0%nat /\ quiet es.
Proof.
  destruct (process_prints entry projectName w)
    as (es & Hes & [->|(id & sid & ts & tokens & ->)]);
    eexists; (split; [exact Hes|]); repeat split.
Qed.

(** What was printed has no part in what [processLogEntry] does to the
    database. *)
Lemma process_same_state entry projectName w1 w2 :
  same_state w1 w2 ->
  (processLogEntry entry projectName w1).1 = (processLogEntry entry projectName w2).1
  /\ same_state (processLogEntry entry projectName w1).2
                (processLogEntry entry projectName w2).2.
Proof.
  destruct w1 as [st faults clk out1], w2 as [st2 faults2 clk2 out2].
  unfold same_state. cbn [db db_faults clock]. intros (<- & <- & <-).
  unfold processLogEntry.
  destruct (Resolver.resolveProject entry projectName) as [name path].
  destruct faults as [|[] [|[] [|[] [|[] [|[] tape]]]]];
    run_parser; cbn [with_sessions session_windows];
    try destruct (SessionWindowService.GetOrCreateWindowForMessage _ _)
      as [ws window];
    cbn [message_of m_MessageRole];
    try destruct (bool_decide _); cbn [fst snd db db_faults clock];
    repeat split.
Qed.

Lemma classes_add_up Unmarshal input :
  length input
  = (blank_lines Unmarshal input + malformed_lines Unmarshal input
     + length (valid_entries Unmarshal input))%nat.
Proof.
  induction input as [|raw rest IH]; [reflexivity|].
  cbn [length blank_lines malformed_lines valid_entries].
  destruct (classify Unmarshal raw); cbn [length]; lia.
Qed.

(** ** White space *)

Lemma space_prefix_snoc_cr (a : N) (l : list N) :
  space_prefix (a :: l ++ [13%N]) = space_prefix (a :: l).
Proof.
  cbn [space_prefix]. destruct (ascii_space a); [reflexivity|].
  destruct l as [|b l]; cbn [app].
  - rewrite space2_cr. reflexivity.
  - destruct (space2 a b); [reflexivity|].
    destruct l as [|c l]; cbn [app]; [|reflexivity].
    rewrite space3_cr. reflexivity.
Qed.

Lemma trim_front_snoc_cr (skip : nat) (l : list N) :
  trim_front space_prefix skip (l ++ [13%N])
  = match trim_front space_prefix skip l with
    | [] => []
    | r => r ++ [13%N]
    end.
Proof.
  revert skip. induction l as [|a l IH]; intros skip.
  - destruct skip as [|[|k]]; reflexivity.
  - destruct skip as [|k].
    + change ((a :: l) ++ [13%N]) with (a :: l ++ [13%N]).
      cbn [trim_front]. rewrite space_prefix_snoc_cr.
      destruct (space_prefix (a :: l)); [reflexivity | apply IH].
    + cbn [app trim_front]. apply IH.
Qed.

(** A string with a carriage return after it is trimmed to the same. *)
Lemma TrimSpace_bytes_cr (s t : string) :
  bytes_of s = bytes_of t ++ [13%N] -> TrimSpace s = TrimSpace t.
Proof.
  intros Hb. unfold TrimSpace. rewrite Hb, trim_front_snoc_cr.
  destruct (trim_front space_prefix 0 (bytes_of t)) as [|x r]; [reflexivity|].
  rewrite rev_app_distr. reflexivity.
Qed.

Lemma bytes_of_app (s t : string) :
  bytes_of (s +:+ t) = bytes_of s ++ bytes_of t.
Proof.
  unfold bytes_of. induction s as [|c s IH]; [reflexivity|].
  change (String c s +:+ t) with (String c (s +:+ t)).
  cbn [list_ascii_of_string]. rewrite !map_cons, IH. reflexivity.
Qed.

(** What [dropCR] takes off, [strings.TrimSpace] would take off. *)
Lemma TrimSpace_dropCR (raw : string) : TrimSpace (dropCR raw) = TrimSpace raw.
Proof.
  destruct (dropCR_bytes raw) as [->|Hb]; [reflexivity|].
  symmetry. apply TrimSpace_bytes_cr. exact Hb.
Qed.

Lemma TrimSpace_CR (raw : string) : TrimSpace (raw +:+ CR) = TrimSpace raw.
Proof. apply TrimSpace_bytes_cr. rewrite bytes_of_app. reflexivity. Qed.

(** ** The loop *)

Section Loop.
Variable Unmarshal : string -> option LogEntry.
Variables fileName projectName : string.

(** The loop over lines that fit, followed by more lines: the loop reads
    the first lines to their end, only adds to what was printed, and goes
    on from the counters and the world it has reached. *)
Lemma scan_loop_app pre lc pc w :
  Forall fits pre ->
  exists pc1 w1 es,
    scan_loop Unmarshal fileName projectName pre lc pc w
    = (inr ((lc + length pre)%nat, pc1, None), w1)
    /\ stdout w1 = stdout w ++ es
    /\ forall rest,
         scan_loop Unmarshal fileName projectName (pre ++ rest) lc pc w
         = scan_loop Unmarshal fileName projectName rest
             (lc + length pre)%nat pc1 w1.
Proof.
  intros Hall. revert lc pc w.
  induction Hall as [|raw pre Hfit _ IH]; intros lc pc w.
  - exists pc, w, []. cbn. rewrite Nat.add_0_r, app_nil_r. auto.
  - cbn [app]. rewrite scan_loop_cons by exact Hfit.
    assert (Hcons : forall rest,
              scan_loop Unmarshal fileName projectName (raw :: pre ++ rest) lc pc w
              = _) by (intros rest; apply scan_loop_cons; exact Hfit).
    cbn zeta in *.
    replace (lc + length (raw :: pre))%nat
      with (S lc + length pre)%nat by (cbn; lia).
    destruct (String.eqb _ "").
    { destruct (IH (S lc) pc w) as (pc1 & w1 & es & Hrun & Hout & Hrest).
      exists pc1, w1, es. split; [exact Hrun|]. split; [exact Hout|].
      intros rest. rewrite Hcons. apply Hrest. }
    destruct (Unmarshal _) as [entry|].
    + destruct (process_prints entry projectName w) as (es0 & Hes0 & _).
      destruct (processLogEntry entry projectName w) as [[err|[]] w0];
        cbn [snd] in Hes0.
      * destruct (IH (S lc) pc
                    (print_all [ErrorProcessingEntry (S lc) fileName
                                  (UUID entry) (SessionID entry) err;
                                EntryDetails entry] w0))
          as (pc1 & w1 & es & Hrun & Hout & Hrest).
        exists pc1, w1. eexists. split; [exact Hrun|]. split.
        -- rewrite Hout. cbn [print_all stdout]. rewrite Hes0, <- !app_assoc.
           reflexivity.
        -- intros rest. rewrite Hcons. apply Hrest.
      * destruct (IH (S lc) (S pc) w0) as (pc1 & w1 & es & Hrun & Hout & Hrest).
        exists pc1, w1. eexists. split; [exact Hrun|]. split.
        -- rewrite Hout, Hes0, <- app_assoc. reflexivity.
        -- intros rest. rewrite Hcons. apply Hrest.
    + destruct (IH (S lc) pc
                  (print_all [ErrorUnmarshaling (S lc) fileName;
                              ProblematicLine (TrimSpace (dropCR raw))] w))
        as (pc1 & w1 & es & Hrun & Hout & Hrest).
      exists pc1, w1. eexists. split; [exact Hrun|]. split.
      * rewrite Hout. cbn [print_all stdout]. rewrite <- app_assoc. reflexivity.
      * intros rest. rewrite Hcons. apply Hrest.
Qed.

(** The loop only adds to what was printed. *)
Lemma scan_loop_grows input lc pc w :
  exists es,
    stdout (scan_loop Unmarshal fileName projectName input lc pc w).2
    = stdout w ++ es.
Proof.
  revert lc pc w. induction input as [|raw rest IH]; intros lc pc w.
  - exists []. rewrite app_nil_r. reflexivity.
  - destruct (Z.ltb_spec (Z.of_nat (String.length raw)) maxCapacity)
      as [Hfit|Hlong].
    + rewrite scan_loop_cons by exact Hfit. cbn zeta.
      destruct (String.eqb _ ""); [apply IH|].
      destruct (Unmarshal _) as [entry|].
      * destruct (process_prints entry projectName w) as (es & Hes & _).
        destruct (processLogEntry entry projectName w) as [[err|[]] w1];
          cbn [snd] in Hes.
        -- destruct (IH (S lc) pc
                       (print_all [ErrorProcessingEntry (S lc) fileName
                                     (UUID entry) (SessionID entry) err;
                                   EntryDetails entry] w1)) as [es' Hes'].
           rewrite Hes'. cbn [print_all stdout]. rewrite Hes, <- !app_assoc.
           eauto.
        -- destruct (IH (S lc) (S pc) w1) as [es' Hes'].
           rewrite Hes', Hes, <- app_assoc. eauto.
      * destruct (IH (S lc) pc
                     (print_all [ErrorUnmarshaling (S lc) fileName;
                                 ProblematicLine (TrimSpace (dropCR raw))] w))
          as [es' Hes'].
        rewrite Hes'. cbn [print_all stdout]. rewrite <- app_assoc. eauto.
    + rewrite scan_loop_too_long by lia. exists []. rewrite app_nil_r.
      reflexivity.
Qed.

(** The loop, whatever the database calls do: the counters and the
    printed failures account for every line that was read. *)
Lemma scan_loop_ledger input lc pc w :
  exists pc' w',
    scan_loop Unmarshal fileName projectName input lc pc w
    = (inr ((lc + length (scanned input))%nat, pc',
            if bool_decide (scanned input = input) then None
            else Some ErrTooLong),
       w')
    /\ parse_failures (stdout w')
       = (parse_failures (stdout w) + malformed_lines Unmarshal (scanned input))%nat
    /\ (pc' + entry_failures (stdout w'))%nat
       = (pc + entry_failures (stdout w)
          + length (valid_entries Unmarshal (scanned input)))%nat.
Proof.
  revert lc pc w. induction input as [|raw rest IH]; intros lc pc w.
  - exists pc, w. cbn. rewrite !Nat.add_0_r. auto.
  - cbn [scanned].
    destruct (Z.ltb_spec (Z.of_nat (String.length raw)) maxCapacity)
      as [Hfit|Hlong].
    + rewrite scan_loop_cons by exact Hfit.
      cbn [valid_entries malformed_lines length]. unfold classify. cbn zeta.
      replace (lc + S (length (scanned rest)))%nat
        with (S lc + length (scanned rest))%nat by lia.
      assert (Hdec : forall (A : Type) (x y : A),
                (if bool_decide (raw :: scanned rest = raw :: rest) then x else y)
                = if bool_decide (scanned rest = rest) then x else y).
      { intros A x y. do 2 case_bool_decide; congruence. }
      rewrite Hdec.
      destruct (String.eqb _ ""); [apply IH|].
      destruct (Unmarshal _) as [entry|].
      * destruct (process_prints_counts entry projectName w)
          as (es & Hout & Hp & He & _).
        destruct (processLogEntry entry projectName w) as [[err|[]] w1];
          cbn [snd] in Hout.
        -- destruct (IH (S lc) pc
                       (print_all [ErrorProcessingEntry (S lc) fileName
                                     (UUID entry) (SessionID entry) err;
                                   EntryDetails entry] w1))
             as (pc' & w' & Hrun & Hpf & Hef).
           exists pc', w'. rewrite Hrun. split; [reflexivity|].
           cbn [print_all stdout] in Hpf, Hef.
           rewrite Hout, !parse_failures_app, Hp in Hpf.
           rewrite Hout, !entry_failures_app, He in Hef.
           cbn in Hpf, Hef. cbn [length]. split; lia.
        -- destruct (IH (S lc) (S pc) w1) as (pc' & w' & Hrun & Hpf & Hef).
           exists pc', w'. rewrite Hrun. split; [reflexivity|].
           rewrite Hout, parse_failures_app, Hp in Hpf.
           rewrite Hout, entry_failures_app, He in Hef.
           cbn [length]. split; lia.
      * destruct (IH (S lc) pc
                     (print_all [ErrorUnmarshaling (S lc) fileName;
                                 ProblematicLine (TrimSpace (dropCR raw))] w))
          as (pc' & w' & Hrun & Hpf & Hef).
        exists pc', w'. rewrite Hrun. split; [reflexivity|].
        cbn [print_all stdout] in Hpf, Hef.
        rewrite parse_failures_app in Hpf. rewrite entry_failures_app in Hef.
        cbn in Hpf, Hef. split; lia.
    + rewrite scan_loop_too_long by lia. exists pc, w.
      rewrite bool_decide_eq_false_2 by discriminate.
      cbn. rewrite !Nat.add_0_r. auto.
Qed.

(** Lines that are trimmed to the same are read alike. *)
Lemma scan_loop_trimmed input input' lc pc w :
  Forall fits input -> Forall fits input' ->
  TrimSpace <$> input' = TrimSpace <$> input ->
  scan_loop Unmarshal fileName projectName input' lc pc w
  = scan_loop Unmarshal fileName projectName input lc pc w.
Proof.
  intros Hfit. revert input' lc pc w.
  induction Hfit as [|raw rest Hraw _ IH]; intros input' lc pc w Hfit' Heq.
  - destruct input'; [reflexivity | discriminate Heq].
  - destruct Hfit' as [|raw' rest' Hraw' Hrest']; [discriminate Heq|].
    rewrite !fmap_cons in Heq.
    assert (Hhd : TrimSpace raw' = TrimSpace raw) by congruence.
    assert (Htl : TrimSpace <$> rest' = TrimSpace <$> rest) by congruence.
    rewrite !scan_loop_cons by assumption. cbn zeta.
    rewrite !TrimSpace_dropCR, Hhd.
    destruct (String.eqb _ ""); [apply IH; assumption|].
    destruct (Unmarshal _) as [entry|]; [|apply IH; assumption].
    destruct (processLogEntry entry projectName w) as [[err|[]] w1];
      apply IH; assumption.
Qed.

End Loop.

Section Files.
Variable Unmarshal : string -> option LogEntry.
Variable projectName : string.

(** The loop of [parseJSONLFile] does to the database what the entries
    of its valid lines make it do: neither the name of the file, nor the
    counters, nor the lines without an entry, nor what was printed have a
    part in it. *)
Lemma scan_loop_same_state fileName fileName' input input' lc pc lc' pc' w w' :
  Forall fits input -> Forall fits input' ->
  valid_entries Unmarshal input = valid_entries Unmarshal input' ->
  same_state w w' ->
  same_state (scan_loop Unmarshal fileName projectName input lc pc w).2
             (scan_loop Unmarshal fileName' projectName input' lc' pc' w').2.
Proof.
  intros Hfit. revert input' lc pc lc' pc' w w'.
  induction Hfit as [|raw rest Hraw _ IH].
  - intros input' lc pc lc' pc' w w' Hfit'. revert lc' pc' w'.
    induction Hfit' as [|raw' rest' Hraw' _ IH'];
      intros lc' pc' w' Hval Hs; [exact Hs|].
    rewrite scan_loop_cons by exact Hraw'. cbn zeta.
    cbn [valid_entries] in Hval. unfold classify in Hval. cbn zeta in Hval.
    destruct (String.eqb _ ""); [apply IH'; assumption|].
    destruct (Unmarshal _) as [entry|]; [discriminate Hval|].
    apply IH'; assumption.
  - intros input' lc pc lc' pc' w w' Hfit' Hval Hs.
    rewrite scan_loop_cons by exact Hraw. cbn zeta.
    cbn [valid_entries] in Hval. unfold classify in Hval. cbn zeta in Hval.
    destruct (String.eqb (TrimSpace (dropCR raw)) "");
      [apply IH; assumption|].
    destruct (Unmarshal (TrimSpace (dropCR raw))) as [entry|];
      [|apply IH; assumption].
    revert lc' pc' w' Hs.
    induction Hfit' as [|raw' rest' Hraw' Hrest' IH'];
      intros lc' pc' w' Hs; [discriminate Hval|].
    rewrite (scan_loop_cons Unmarshal fileName' projectName raw' rest')
      by exact Hraw'.
    cbn zeta. cbn [valid_entries] in Hval. unfold classify in Hval.
    cbn zeta in Hval.
    destruct (String.eqb (TrimSpace (dropCR raw')) "");
      [apply IH'; assumption|].
    destruct (Unmarshal (TrimSpace (dropCR raw'))) as [entry'|];
      [|apply IH'; assumption].
    injection Hval as <- Hval.
    destruct (process_same_state entry projectName w w' Hs) as [Hres Hs1].
    destruct (processLogEntry entry projectName w) as [[err|[]] w1],
             (processLogEntry entry projectName w') as [[err'|[]] w1'];
      cbn [fst snd] in Hres, Hs1; try discriminate Hres;
      apply IH; assumption.
Qed.

End Files.

(** X8. For a file that is given by its lines (it opens and is read with
    no error of the reader), [parseJSONLFile] accounts for every line it
    reads, whatever the database calls do. It reads the lines before the
    first one that the buffer has no room for; it returns
    [bufio.ErrTooLong] when there is such a line and no error when there
    is none. The line it prints last gives the number of lines read; each
    of them is either empty once trimmed, or refused by [json.Unmarshal]
    and reported once, or decoded, and then either counted as processed or
    reported once as failed. *)
Theorem every_line_is_accounted
    (Unmarshal : string -> option LogEntry) (fs : FileSystem)
    (filePath projectName : string) (input : list string) (w : World) :
  os_Open fs filePath = Some input ->
  exists p w',
    parseJSONLFile Unmarshal fs filePath projectName w
    = (if bool_decide (scanned input = input) then inr tt else inl ErrTooLong,
       w')
    /\ last (stdout w') = Some (Processed p (length (scanned input)) filePath)
    /\ parse_failures (stdout w')
       = (parse_failures (stdout w)
          + malformed_lines Unmarshal (scanned input))%nat
    /\ (p + entry_failures (stdout w'))%nat
       = (entry_failures (stdout w)
          + length (valid_entries Unmarshal (scanned input)))%nat
    /\ (length (scanned input) + parse_failures (stdout w)
        + entry_failures (stdout w))%nat
       = (p + blank_lines Unmarshal (scanned input)
          + parse_failures (stdout w') + entry_failures (stdout w'))%nat.
Proof.
  intros Hopen.
  destruct (scan_loop_ledger Unmarshal (Base filePath) projectName input 0 0 w)
    as (p & w1 & Hrun & Hpf & Hef).
  cbn [Nat.add] in Hrun, Hef.
  exists p.
  exists (print_all [Processed p (length (scanned input)) filePath] w1).
  split.
  { unfold parseJSONLFile. rewrite Hopen. unfold mbind, M_bind.
    rewrite Hrun. case_bool_decide; reflexivity. }
  cbn [print_all stdout]. split; [apply last_snoc|].
  rewrite parse_failures_app, entry_failures_app. cbn.
  pose proof (classes_add_up Unmarshal (scanned input)).
  repeat split; lia.
Qed.

Lemma every_line_is_accounted_witness :
  exists p w',
    parseJSONLFile decode_braces (one_file ["{}"; "oops"; ""; "{}"]) "/x.jsonl"
      "-home-u-proj" (mkWorld empty_store [true] 0 []) = (inr tt, w')
    /\ last (stdout w') = Some (Processed p 4 "/x.jsonl")
    /\ parse_failures (stdout w') = 1%nat
    /\ (p + entry_failures (stdout w'))%nat = 2%nat.
Proof.
  destruct (every_line_is_accounted decode_braces
              (one_file ["{}"; "oops"; ""; "{}"]) "/x.jsonl" "-home-u-proj"
              ["{}"; "oops"; ""; "{}"] (mkWorld empty_store [true] 0 [])
              eq_refl)
    as (p & w' & Hrun & Hlast & Hpf & Hef & _).
  exists p, w'. split; [exact Hrun|]. split; [exact Hlast|].
  split; [exact Hpf | exact Hef].
Defined.

(** X9. A line that [json.Unmarshal] refuses is reported with its place
    in the file and as it was decoded: [parseJSONLFile] prints the number
    of the line, counted from 1 with the empty lines, and the last element
    of the path of the file, and after it the line without the white space
    around it. *)
Theorem malformed_line_is_reported_with_its_number
    (Unmarshal : string -> option LogEntry) (fs : FileSystem)
    (filePath projectName : string) (pre post : list string) (raw : string)
    (w : World) :
  os_Open fs filePath = Some (pre ++ raw :: post) ->
  Forall fits pre ->
  fits raw ->
  classify Unmarshal raw = MalformedLine ->
  exists before after,
    stdout (parseJSONLFile Unmarshal fs filePath projectName w).2
    = stdout w ++ before
      ++ [ErrorUnmarshaling (S (length pre)) (Base filePath);
          ProblematicLine (TrimSpace raw)]
      ++ after.
Proof.
  intros Hopen Hpre Hfit Hbad.
  destruct (scan_loop_app Unmarshal (Base filePath) projectName pre 0 0 w Hpre)
    as (pc1 & w1 & es & _ & Hout & Hrest).
  cbn [Nat.add] in Hrest.
  unfold parseJSONLFile. rewrite Hopen. unfold mbind, M_bind.
  rewrite Hrest, scan_loop_cons by exact Hfit. cbn zeta.
  unfold classify in Hbad. cbn zeta in Hbad.
  rewrite TrimSpace_dropCR in *.
  destruct (String.eqb _ ""); [discriminate Hbad|].
  destruct (Unmarshal _); [discriminate Hbad|].
  destruct (scan_loop_grows Unmarshal (Base filePath) projectName post
              (S (length pre)) pc1
              (print_all [ErrorUnmarshaling (S (length pre)) (Base filePath);
                          ProblematicLine (TrimSpace raw)] w1))
    as [es' Hes'].
  destruct (scan_loop _ _ _ post _ _ _) as [[e|[[lc' pc'] scanErr]] w2];
    cbn [snd] in Hes'; cbn [print_all stdout] in Hes'.
  - exists es, es'. cbn [snd]. rewrite Hes', Hout, <- !app_assoc. reflexivity.
  - exists es. eexists (es' ++ [_]).
    destruct scanErr; cbn [snd printf fail mret M_ret stdout];
      rewrite Hes', Hout, <- !app_assoc; reflexivity.
Qed.

Lemma malformed_line_is_reported_with_its_number_witness :
  exists before after,
    stdout (parseJSONLFile decode_braces (one_file ["{}"; ""; " oops "; "{}"])
              "/logs/x.jsonl" "-home-u-proj" fresh_world).2
    = before
      ++ [ErrorUnmarshaling 3 "x.jsonl"; ProblematicLine "oops"]
      ++ after.
Proof.
  destruct (malformed_line_is_reported_with_its_number decode_braces
              (one_file ["{}"; ""; " oops "; "{}"]) "/logs/x.jsonl"
              "-home-u-proj" ["{}"; ""] ["{}"] " oops " fresh_world eq_refl)
    as (before & after & Hout).
  - repeat constructor; apply fits_short; reflexivity.
  - apply fits_short; reflexivity.
  - reflexivity.
  - exists before, after. exact Hout.
Defined.

(** X10. Nothing of a file is read after a line that the buffer has no
    room for: [parseJSONLFile] leaves the world as it leaves it for the
    file that ends before that line, the store, the output and the counts
    in its last line included, and differs only in returning
    [bufio.ErrTooLong]. *)
Theorem nothing_is_read_after_a_long_line
    (Unmarshal : string -> option LogEntry) (fs fs' : FileSystem)
    (filePath projectName : string) (pre post : list string) (raw : string)
    (w : World) :
  os_Open fs filePath = Some (pre ++ raw :: post) ->
  os_Open fs' filePath = Some pre ->
  Forall fits pre ->
  maxCapacity <= Z.of_nat (String.length raw) ->
  exists w',
    parseJSONLFile Unmarshal fs filePath projectName w = (inl ErrTooLong, w')
    /\ parseJSONLFile Unmarshal fs' filePath projectName w = (inr tt, w').
Proof.
  intros Hopen Hopen' Hpre Hlong.
  destruct (scan_loop_app Unmarshal (Base filePath) projectName pre 0 0 w Hpre)
    as (pc1 & w1 & es & Hrun & _ & Hrest).
  cbn [Nat.add] in Hrun, Hrest.
  exists (print_all [Processed pc1 (length pre) filePath] w1).
  unfold parseJSONLFile. rewrite Hopen, Hopen'. unfold mbind, M_bind.
  rewrite Hrest, Hrun, scan_loop_too_long by exact Hlong.
  split; reflexivity.
Qed.

Lemma nothing_is_read_after_a_long_line_witness :
  exists w',
    parseJSONLFile decode_braces (one_file ["{}"; long_line; "{}"]) "/x.jsonl"
      "-home-u-proj" fresh_world = (inl ErrTooLong, w')
    /\ parseJSONLFile decode_braces (one_file ["{}"]) "/x.jsonl"
         "-home-u-proj" fresh_world = (inr tt, w').
Proof.
  apply (nothing_is_read_after_a_long_line decode_braces
           (one_file ["{}"; long_line; "{}"]) (one_file ["{}"]) "/x.jsonl"
           "-home-u-proj" ["{}"] ["{}"] long_line fresh_world eq_refl eq_refl).
  - repeat constructor; apply fits_short; reflexivity.
  - rewrite length_long_line. discriminate.
Defined.

Lemma length_with_cr (raw : string) :
  String.length (raw +:+ CR) = S (String.length raw).
Proof.
  induction raw as [|c raw IH]; [reflexivity|].
  change (String c raw +:+ CR) with (String c (raw +:+ CR)).
  cbn [String.length]. rewrite IH. reflexivity.
Qed.

(** X11. The white space around a line that the scanner hands over has no
    part in how the line is read. A carriage return at the end of a line
    is trimmed away with the rest, so that, their lines being shorter than
    the buffer of the scanner, a file with CRLF line ends is read as the
    same file with LF line ends, and two files whose lines are the same
    once trimmed make [parseJSONLFile] return the same and leave the same
    world. The bound on the lines is needed: a line one byte shorter than
    the buffer fits, and with a carriage return it does not. *)
Theorem white_space_around_lines_is_ignored :
  (forall raw, TrimSpace (raw +:+ CR) = TrimSpace raw)
  /\ (forall (Unmarshal : string -> option LogEntry) (fs fs' : FileSystem)
        (filePath projectName : string) (input input' : list string) (w : World),
        os_Open fs filePath = Some input ->
        os_Open fs' filePath = Some input' ->
        Forall fits input -> Forall fits input' ->
        TrimSpace <$> input' = TrimSpace <$> input ->
        parseJSONLFile Unmarshal fs' filePath projectName w
        = parseJSONLFile Unmarshal fs filePath projectName w)
  /\ (forall raw,
        Z.of_nat (String.length raw) = maxCapacity - 1 ->
        fits raw /\ ~ fits (raw +:+ CR)).
Proof.
  split; [exact TrimSpace_CR|]. split.
  - intros Unmarshal fs fs' filePath projectName input input' w
           Hopen Hopen' Hfit Hfit' Heq.
    unfold parseJSONLFile. rewrite Hopen, Hopen'. unfold mbind, M_bind.
    rewrite (scan_loop_trimmed Unmarshal _ _ input input') by assumption.
    reflexivity.
  - intros raw Hlen. unfold fits. rewrite length_with_cr. lia.
Qed.

Lemma white_space_around_lines_is_ignored_witness :
  parseJSONLFile decode_braces (one_file ["{}" +:+ CR; " oops" +:+ CR; CR])
    "/x.jsonl" "-home-u-proj" fresh_world
  = parseJSONLFile decode_braces (one_file ["{}"; "oops"; EmptyString])
      "/x.jsonl" "-home-u-proj" fresh_world.
Proof.
  apply (proj1 (proj2 white_space_around_lines_is_ignored) decode_braces
           (one_file ["{}"; "oops"; EmptyString])
           (one_file ["{}" +:+ CR; " oops" +:+ CR; CR])
           "/x.jsonl" "-home-u-proj" ["{}"; "oops"; EmptyString]
           ["{}" +:+ CR; " oops" +:+ CR; CR] fresh_world eq_refl eq_refl).
  - repeat constructor; apply fits_short; reflexivity.
  - repeat constructor; apply fits_short; reflexivity.
  - reflexivity.
Defined.

(** X12. What [parseJSONLFile] does to the database is decided by the
    entries of the valid lines alone, in their order. Two files of lines
    that fit the buffer and decode to the same entries leave the same
    store, consume the same database calls and advance the clock alike,
    whatever calls fail: empty lines, lines that [json.Unmarshal] refuses,
    the name of the file and the numbers of the lines have no part in
    it. *)
Theorem store_follows_the_entries
    (Unmarshal : string -> option LogEntry) (fs fs' : FileSystem)
    (filePath filePath' projectName : string) (input input' : list string)
    (w : World) :
  os_Open fs filePath = Some input ->
  os_Open fs' filePath' = Some input' ->
  Forall fits input -> Forall fits input' ->
  valid_entries Unmarshal input = valid_entries Unmarshal input' ->
  same_state (parseJSONLFile Unmarshal fs filePath projectName w).2
             (parseJSONLFile Unmarshal fs' filePath' projectName w).2.
Proof.
  intros Hopen Hopen' Hfit Hfit' Hval.
  pose proof (scan_loop_same_state Unmarshal projectName (Base filePath)
                (Base filePath') input input' 0 0 0 0 w w Hfit Hfit' Hval
                (conj eq_refl (conj eq_refl eq_refl))) as Hs.
  unfold parseJSONLFile. rewrite Hopen, Hopen'. unfold mbind, M_bind.
  destruct (scan_loop _ _ _ input _ _ _) as [[e|[[lc pc] scanErr]] w1],
           (scan_loop _ _ _ input' _ _ _) as [[e'|[[lc' pc'] scanErr']] w1'];
    cbn [snd] in Hs;
    try destruct scanErr; try destruct scanErr'; exact Hs.
Qed.

Lemma store_follows_the_entries_witness :
  same_state
    (parseJSONLFile decode_braces (one_file ["{}"; "{}"]) "/x.jsonl"
       "-home-u-proj" (mkWorld empty_store [false; false; true] 0 [])).2
    (parseJSONLFile decode_braces (one_file ["oops"; " {}"; EmptyString; "{}"])
       "/y.jsonl" "-home-u-proj"
       (mkWorld empty_store [false; false; true] 0 [])).2.
Proof.
  apply (store_follows_the_entries decode_braces (one_file ["{}"; "{}"])
           (one_file ["oops"; " {}"; EmptyString; "{}"])
           "/x.jsonl" "/y.jsonl" "-home-u-proj" ["{}"; "{}"]
           ["oops"; " {}"; EmptyString; "{}"]
           (mkWorld empty_store [false; false; true] 0 []) eq_refl eq_refl).
  - repeat constructor; apply fits_short; reflexivity.
  - repeat constructor; apply fits_short; reflexivity.
  - reflexivity.
Defined.

End LineFacts.

(* ===================================================================== *)
(** * More on a sync run *)
(* ===================================================================== *)

Module RunFacts.
Import GoStrings JSONLParser Notions Ledger ScannerFacts EntryFacts SyncFacts.

Section Run.
Variable Unmarshal : string -> option LogEntry.

(** One turn of the loop over the entries of the projects directory, for
    a directory and for a file. *)
Lemma entries_loop_dir fs claudeDir entry rest w :
  IsDir entry = true ->
  entries_loop Unmarshal fs claudeDir (entry :: rest) w =
  match syncProjectLogs Unmarshal fs (Join [claudeDir; Name entry]) (Name entry)
          (print_all [SyncingProject (Name entry)] w) with
  | (inl err, w1) =>
      entries_loop Unmarshal fs claudeDir rest
        (print_all [ErrorSyncingProject (Name entry) err] w1)
  | (inr _, w1) => entries_loop Unmarshal fs claudeDir rest w1
  end.
Proof.
  intros Hdir. cbn [entries_loop]. rewrite Hdir.
  unfold mbind, M_bind, attempt, printf at 1.
  change (mkWorld (db w) (db_faults w) (clock w)
            (stdout w ++ [SyncingProject (Name entry)]))
    with (print_all [SyncingProject (Name entry)] w).
  destruct (syncProjectLogs Unmarshal fs _ _ _) as [[err|[]] w1]; reflexivity.
Qed.

Lemma entries_loop_file fs claudeDir entry rest w :
  IsDir entry = false ->
  entries_loop Unmarshal fs claudeDir (entry :: rest) w
  = entries_loop Unmarshal fs claudeDir rest w.
Proof. intros Hdir. cbn [entries_loop]. rewrite Hdir. reflexivity. Qed.

(** The loop over the projects returns no error, whatever the projects
    do. *)
Lemma entries_loop_nil_error fs claudeDir entries w :
  (entries_loop Unmarshal fs claudeDir entries w).1 = inr tt.
Proof.
  revert w. induction entries as [|entry rest IH]; intros w; [reflexivity|].
  destruct (IsDir entry) eqn:Hdir.
  - rewrite entries_loop_dir by exact Hdir.
    destruct (syncProjectLogs Unmarshal fs _ _ _) as [[err|[]] w1]; apply IH.
  - rewrite entries_loop_file by exact Hdir. apply IH.
Qed.

Lemma entries_loop_dirs_only fs claudeDir entries w :
  entries_loop Unmarshal fs claudeDir entries w
  = entries_loop Unmarshal fs claudeDir (List.filter IsDir entries) w.
Proof.
  revert w. induction entries as [|entry rest IH]; intros w; [reflexivity|].
  cbn [List.filter]. destruct (IsDir entry) eqn:Hdir.
  - rewrite !entries_loop_dir by exact Hdir.
    destruct (syncProjectLogs Unmarshal fs _ _ _) as [[err|[]] w1]; apply IH.
  - rewrite entries_loop_file by exact Hdir. apply IH.
Qed.

(** X13. [SyncAllLogs] syncs the directories of the projects directory
    and nothing else. The line [Found n projects] counts every entry of
    the directory, plain files included; the run is then the loop over the
    entries that are directories, in their order. *)
Theorem only_directories_are_synced
    (fs : FileSystem) (home : string) (entries : list DirEntry) (w : World) :
  os_UserHomeDir fs = Some home ->
  os_Stat fs (Join [home; ".claude"; "projects"]) <> StatNotExist ->
  os_ReadDir fs (Join [home; ".claude"; "projects"]) = Some entries ->
  SyncAllLogs Unmarshal fs w
  = entries_loop Unmarshal fs (Join [home; ".claude"; "projects"])
      (List.filter IsDir entries)
      (print_all [LookingForProjects (Join [home; ".claude"; "projects"]);
                  FoundProjects (length entries)] w).
Proof.
  intros Hhome Hstat Hread. unfold SyncAllLogs. rewrite Hhome, Hread.
  rewrite <- entries_loop_dirs_only.
  unfold mbind, M_bind, printf, print_all. cbn [db db_faults clock stdout].
  destruct (os_Stat fs _); [|contradiction|];
    cbn [db db_faults clock stdout]; rewrite <- app_assoc; reflexivity.
Qed.

(** X14. [SyncAllLogs] returns an error exactly when the home directory
    is not known, the projects directory does not exist, or it cannot be
    read; no failure of a project, of a file, of a line or of a database
    call makes it return one. When it returns an error it has made no
    database call. *)
Theorem sync_fails_only_without_its_directory (fs : FileSystem) (w : World) :
  ((SyncAllLogs Unmarshal fs w).1 = inr tt
   <-> exists home,
         os_UserHomeDir fs = Some home
         /\ os_Stat fs (Join [home; ".claude"; "projects"]) <> StatNotExist
         /\ is_Some (os_ReadDir fs (Join [home; ".claude"; "projects"])))
  /\ ((SyncAllLogs Unmarshal fs w).1 <> inr tt ->
      db (SyncAllLogs Unmarshal fs w).2 = db w
      /\ db_faults (SyncAllLogs Unmarshal fs w).2 = db_faults w
      /\ clock (SyncAllLogs Unmarshal fs w).2 = clock w).
Proof.
  unfold SyncAllLogs.
  destruct (os_UserHomeDir fs) as [home|].
  2:{ split; [split; [discriminate | intros (home & H & _); discriminate H]|].
      intros _. auto. }
  unfold mbind, M_bind, printf, fail.
  set (dir := Join [home; ".claude"; "projects"]).
  destruct (os_Stat fs dir) eqn:Hstat.
  - destruct (os_ReadDir fs dir) as [entries|] eqn:Hread.
    + unfold mbind, M_bind, printf.
      split.
      * split; [|intros _; apply entries_loop_nil_error].
        intros _. exists home. fold dir. rewrite Hstat, Hread.
        split; [reflexivity|]. split; [discriminate | eauto].
      * intros Hne. exfalso. apply Hne. apply entries_loop_nil_error.
    + cbn. split; [|auto]. split; [discriminate|].
      intros (home' & [= <-] & _ & Hsome). fold dir in Hsome.
      rewrite Hread in Hsome. destruct Hsome as [x Hx]; discriminate Hx.
  - cbn. split; [|auto]. split; [discriminate|].
    intros (home' & [= <-] & Hne & _). fold dir in Hne. contradiction.
  - destruct (os_ReadDir fs dir) as [entries|] eqn:Hread.
    + unfold mbind, M_bind, printf.
      split.
      * split; [|intros _; apply entries_loop_nil_error].
        intros _. exists home. fold dir. rewrite Hstat, Hread.
        split; [reflexivity|]. split; [discriminate | eauto].
      * intros Hne. exfalso. apply Hne. apply entries_loop_nil_error.
    + cbn. split; [|auto]. split; [discriminate|].
      intros (home' & [= <-] & _ & Hsome). fold dir in Hsome.
      rewrite Hread in Hsome. destruct Hsome as [x Hx]; discriminate Hx.
Qed.

(** X15. [syncProjectLogs] returns an error exactly when [filepath.Glob]
    refuses the pattern of the project. [SyncAllLogs] reports such a
    project and goes on with the next one: nothing of the project is
    read, and no database call is made for it. *)
Theorem project_with_bad_pattern_is_passed_by
    (fs : FileSystem) (claudeDir : string) (entry : DirEntry)
    (rest : list DirEntry) (w : World) :
  (forall projectPath projectName v,
      (syncProjectLogs Unmarshal fs projectPath projectName v).1 = inr tt
      <-> is_Some (filepath_Glob fs (Join [projectPath; "*.jsonl"])))
  /\ (IsDir entry = true ->
      filepath_Glob fs (Join [Join [claudeDir; Name entry]; "*.jsonl"]) = None ->
      entries_loop Unmarshal fs claudeDir (entry :: rest) w
      = entries_loop Unmarshal fs claudeDir rest
          (print_all [SyncingProject (Name entry);
                      ErrorSyncingProject (Name entry)
                        (Wrapped "failed to glob jsonl files" ErrBadPattern)] w)).
Proof.
  split.
  - intros projectPath projectName v. unfold syncProjectLogs.
    destruct (filepath_Glob fs _) as [files|].
    + unfold mbind, M_bind, printf. split; [eauto|].
      intros _. apply files_loop_nil_error.
    + cbn. split; [discriminate|]. intros [x Hx]; discriminate Hx.
  - intros Hdir Hglob. rewrite entries_loop_dir by exact Hdir.
    unfold syncProjectLogs. rewrite Hglob.
    unfold fail, print_all. cbn [db db_faults clock stdout].
    rewrite <- app_assoc. reflexivity.
Qed.

End Run.

Lemma only_directories_are_synced_witness :
  SyncAllLogs decode_braces (bad_pattern_first ["{}"]) fresh_world
  = entries_loop decode_braces (bad_pattern_first ["{}"])
      "/home/u/.claude/projects"
      [mkDirEntry "[" true; mkDirEntry "-home-u-proj" true]
      (print_all [LookingForProjects "/home/u/.claude/projects";
                  FoundProjects 3] fresh_world).
Proof.
  apply (only_directories_are_synced decode_braces (bad_pattern_first ["{}"])
           "/home/u"
           [mkDirEntry "[" true; mkDirEntry "notes.txt" false;
            mkDirEntry "-home-u-proj" true]
           fresh_world eq_refl).
  - discriminate.
  - reflexivity.
Defined.

Lemma project_with_bad_pattern_is_passed_by_witness :
  entries_loop decode_braces (bad_pattern_first ["{}"])
    "/home/u/.claude/projects"
    [mkDirEntry "[" true; mkDirEntry "-home-u-proj" true] fresh_world
  = entries_loop decode_braces (bad_pattern_first ["{}"])
      "/home/u/.claude/projects" [mkDirEntry "-home-u-proj" true]
      (print_all [SyncingProject "[";
                  ErrorSyncingProject "["
                    (Wrapped "failed to glob jsonl files" ErrBadPattern)]
         fresh_world).
Proof.
  apply (proj2 (project_with_bad_pattern_is_passed_by decode_braces
                  (bad_pattern_first ["{}"]) "/home/u/.claude/projects"
                  (mkDirEntry "[" true) [mkDirEntry "-home-u-proj" true]
                  fresh_world));
    reflexivity.
Defined.

End RunFacts.

(* ===================================================================== *)
(** * A sync run as the sequence of its entries *)
(* ===================================================================== *)

Module SequenceFacts.
Import GoStrings JSONLParser Notions Ledger ScannerFacts EntryFacts SyncFacts LineFacts
  RunFacts.

Lemma same_state_trans w1 w2 w3 :
  same_state w1 w2 -> same_state w2 w3 -> same_state w1 w3.
Proof. intros (H1 & H2 & H3) (H4 & H5 & H6). repeat split; congruence. Qed.

Lemma same_state_sym w1 w2 : same_state w1 w2 -> same_state w2 w1.
Proof. intros (H1 & H2 & H3). repeat split; congruence. Qed.

Lemma run_trace_same_state trace w1 w2 :
  same_state w1 w2 -> same_state (run_trace trace w1) (run_trace trace w2).
Proof.
  revert w1 w2. induction trace as [|[pn entry] rest IH]; intros w1 w2 Hs;
    [exact Hs|].
  cbn [run_trace]. apply IH. apply process_same_state. exact Hs.
Qed.

Lemma run_trace_app t1 t2 w :
  run_trace (t1 ++ t2) w = run_trace t2 (run_trace t1 w).
Proof.
  revert w. induction t1 as [|[pn entry] rest IH]; intros w; [reflexivity|].
  cbn [app run_trace]. apply IH.
Qed.

(** What is printed between two entries has no part in the state. *)
Lemma run_trace_print trace es w :
  same_state (run_trace trace (print_all es w)) (run_trace trace w).
Proof. apply run_trace_same_state. repeat split. Qed.

Section Run.
Variable Unmarshal : string -> option LogEntry.

Lemma scan_loop_trace fileName projectName input lc pc w :
  same_state (scan_loop Unmarshal fileName projectName input lc pc w).2
             (run_trace (tagged projectName (scanned_entries Unmarshal input)) w).
Proof.
  revert lc pc w. induction input as [|raw rest IH]; intros lc pc w.
  - repeat split.
  - cbn [scanned_entries].
    destruct (Z.ltb_spec (Z.of_nat (String.length raw)) maxCapacity)
      as [Hfit|Hlong].
    + rewrite scan_loop_cons by exact Hfit. unfold classify. cbn zeta.
      destruct (String.eqb _ ""); [apply IH|].
      destruct (Unmarshal _) as [entry|].
      * unfold tagged. rewrite fmap_cons. cbn [run_trace].
        destruct (processLogEntry entry projectName w) as [[err|[]] w1];
          cbn [snd].
        -- eapply same_state_trans; [apply IH|]. apply run_trace_print.
        -- apply IH.
      * eapply same_state_trans; [apply IH|]. apply run_trace_print.
    + rewrite scan_loop_too_long by lia. repeat split.
Qed.

Lemma parse_trace fs file projectName w :
  same_state (parseJSONLFile Unmarshal fs file projectName w).2
             (run_trace (file_trace Unmarshal fs projectName file) w).
Proof.
  unfold parseJSONLFile, file_trace.
  destruct (os_Open fs file) as [input|]; [|repeat split].
  pose proof (scan_loop_trace (Base file) projectName input 0 0 w) as Hs.
  unfold mbind, M_bind.
  destruct (scan_loop _ _ _ _ _ _ _) as [[e|[[lc pc] scanErr]] w1];
    cbn [snd] in *; [exact Hs|].
  destruct scanErr; exact Hs.
Qed.

Lemma files_loop_trace fs projectName files w :
  same_state (files_loop Unmarshal fs projectName files w).2
             (run_trace (flat_map (file_trace Unmarshal fs projectName) files) w).
Proof.
  revert w. induction files as [|file rest IH]; intros w; [repeat split|].
  rewrite files_loop_cons. cbn [flat_map]. rewrite run_trace_app.
  pose proof (parse_trace fs file projectName (print_all [ProcessingFile file] w))
    as Hp.
  assert (Hq : same_state
                 (parseJSONLFile Unmarshal fs file projectName
                    (print_all [ProcessingFile file] w)).2
                 (run_trace (file_trace Unmarshal fs projectName file) w))
    by (eapply same_state_trans; [exact Hp | apply run_trace_print]).
  destruct (parseJSONLFile Unmarshal fs file projectName _) as [[err|[]] w1];
    cbn [snd] in Hq.
  - eapply same_state_trans; [apply IH|]. apply run_trace_same_state. exact Hq.
  - eapply same_state_trans; [apply IH|]. apply run_trace_same_state. exact Hq.
Qed.

Lemma project_trace_state fs projectPath projectName w :
  same_state (syncProjectLogs Unmarshal fs projectPath projectName w).2
             (run_trace (project_trace Unmarshal fs projectPath projectName) w).
Proof.
  unfold syncProjectLogs, project_trace.
  destruct (filepath_Glob fs _) as [files|]; [|repeat split].
  unfold mbind, M_bind, printf.
  eapply same_state_trans; [apply files_loop_trace|].
  apply run_trace_same_state. repeat split.
Qed.

Lemma entries_loop_trace fs claudeDir entries w :
  same_state (entries_loop Unmarshal fs claudeDir entries w).2
             (run_trace
                (flat_map (fun entry =>
                             if IsDir entry
                             then project_trace Unmarshal fs
                                    (Join [claudeDir; Name entry]) (Name entry)
                             else [])
                          entries) w).
Proof.
  revert w. induction entries as [|entry rest IH]; intros w; [repeat split|].
  cbn [flat_map]. rewrite run_trace_app.
  destruct (IsDir entry) eqn:Hdir.
  - rewrite entries_loop_dir by exact Hdir.
    pose proof (project_trace_state fs (Join [claudeDir; Name entry])
                  (Name entry) (print_all [SyncingProject (Name entry)] w)) as Hp.
    assert (Hq : same_state
                   (syncProjectLogs Unmarshal fs (Join [claudeDir; Name entry])
                      (Name entry) (print_all [SyncingProject (Name entry)] w)).2
                   (run_trace (project_trace Unmarshal fs
                                 (Join [claudeDir; Name entry]) (Name entry)) w))
      by (eapply same_state_trans; [exact Hp | apply run_trace_print]).
    destruct (syncProjectLogs Unmarshal fs _ _ _) as [[err|[]] w1];
      cbn [snd] in Hq;
      (eapply same_state_trans; [apply IH|]; apply run_trace_same_state;
       exact Hq).
  - rewrite entries_loop_file by exact Hdir. apply IH.
Qed.

Lemma sync_trace_state fs w :
  same_state (SyncAllLogs Unmarshal fs w).2 (run_trace (sync_trace Unmarshal fs) w).
Proof.
  unfold SyncAllLogs, sync_trace.
  destruct (os_UserHomeDir fs) as [home|]; [|repeat split].
  unfold mbind, M_bind, printf, fail.
  destruct (os_Stat fs _); try (repeat split; fail);
    (destruct (os_ReadDir fs _) as [entries|]; [|repeat split];
     unfold mbind, M_bind, printf;
     eapply same_state_trans; [apply entries_loop_trace|];
     apply run_trace_same_state; repeat split).
Qed.

End Run.

(** X16. A sync run does to the database what its entries do, whatever
    database calls fail: the store, the database calls consumed and the
    clock after [SyncAllLogs] are those after its entries went through
    [processLogEntry] one after the other, in the order of the directories,
    of the files in each directory and of the lines in each file. So two
    file systems that give the same sequence of entries leave the same
    state: the layout of the directories, the names of the files and the
    lines without an entry have no part in it. *)
Theorem sync_does_what_its_entries_do
    (Unmarshal : string -> option LogEntry) (fs : FileSystem) (w : World) :
  same_state (SyncAllLogs Unmarshal fs w).2
             (run_trace (sync_trace Unmarshal fs) w)
  /\ (forall fs',
        sync_trace Unmarshal fs' = sync_trace Unmarshal fs ->
        same_state (SyncAllLogs Unmarshal fs' w).2
                   (SyncAllLogs Unmarshal fs w).2).
Proof.
  split; [apply sync_trace_state|].
  intros fs' Heq. eapply same_state_trans; [apply sync_trace_state|].
  rewrite Heq. apply same_state_sym, sync_trace_state.
Qed.

End SequenceFacts.

(* ===================================================================== *)
(** * The files of a project *)
(* ===================================================================== *)

Module CoverFacts.
Import GoStrings JSONLParser Notions Ledger ScannerFacts EntryFacts SyncFacts LineFacts
  RunFacts.

Lemma quiet_nil : quiet [].
Proof. repeat split. Qed.

Lemma quiet_app es1 es2 : quiet es1 -> quiet es2 -> quiet (es1 ++ es2).
Proof.
  intros (A1 & B1 & C1) (A2 & B2 & C2). unfold quiet.
  rewrite !omap_app, A1, A2, B1, B2, C1, C2. repeat split.
Qed.

Section Run.
Variable Unmarshal : string -> option LogEntry.

Lemma scan_loop_quiet fileName projectName input lc pc w :
  exists es,
    stdout (scan_loop Unmarshal fileName projectName input lc pc w).2
    = stdout w ++ es
    /\ quiet es.
Proof.
  revert lc pc w. induction input as [|raw rest IH]; intros lc pc w.
  - exists []. rewrite app_nil_r. split; [reflexivity | apply quiet_nil].
  - destruct (Z.ltb_spec (Z.of_nat (String.length raw)) maxCapacity)
      as [Hfit|Hlong].
    + rewrite scan_loop_cons by exact Hfit. cbn zeta.
      destruct (String.eqb _ ""); [apply IH|].
      destruct (Unmarshal _) as [entry|].
      * destruct (process_prints_counts entry projectName w)
          as (es & Hes & _ & _ & Hq).
        destruct (processLogEntry entry projectName w) as [[err|[]] w1];
          cbn [snd] in Hes.
        -- destruct (IH (S lc) pc
                       (print_all [ErrorProcessingEntry (S lc) fileName
                                     (UUID entry) (SessionID entry) err;
                                   EntryDetails entry] w1)) as (es' & Hes' & Hq').
           rewrite Hes'. cbn [print_all stdout]. rewrite Hes, <- !app_assoc.
           eexists. split; [reflexivity|].
           apply quiet_app; [exact Hq|]. apply quiet_app; [repeat split|exact Hq'].
        -- destruct (IH (S lc) (S pc) w1) as (es' & Hes' & Hq').
           rewrite Hes', Hes, <- app_assoc. eexists. split; [reflexivity|].
           apply quiet_app; assumption.
      * destruct (IH (S lc) pc
                     (print_all [ErrorUnmarshaling (S lc) fileName;
                                 ProblematicLine (TrimSpace (dropCR raw))] w))
          as (es' & Hes' & Hq').
        rewrite Hes'. cbn [print_all stdout]. rewrite <- app_assoc.
        eexists. split; [reflexivity|].
        apply quiet_app; [repeat split|exact Hq'].
    + rewrite scan_loop_too_long by lia. exists []. rewrite app_nil_r.
      split; [reflexivity | apply quiet_nil].
Qed.

(** The loop over the files announces every file, gives the counts of
    the files it could open, and reports the files it could not read to
    their end. *)
Lemma files_loop_cover fs projectName files w :
  let out := stdout (files_loop Unmarshal fs projectName files w).2 in
  omap announced_file out = omap announced_file (stdout w) ++ files
  /\ omap counted_file out
     = omap counted_file (stdout w) ++ List.filter (opens fs) files
  /\ omap failed_file out
     = omap failed_file (stdout w)
       ++ List.filter (fun file => negb (reads_to_end fs file)) files.
Proof.
  revert w. induction files as [|file rest IH]; intros w out.
  - subst out. cbn. rewrite !app_nil_r. auto.
  - subst out. rewrite files_loop_cons. cbn [List.filter].
    unfold parseJSONLFile, opens, reads_to_end.
    destruct (os_Open fs file) as [input|] eqn:Hopen.
    + unfold mbind, M_bind.
      destruct (scan_loop_ledger Unmarshal (Base file) projectName input 0 0
                  (print_all [ProcessingFile file] w))
        as (pc' & w1 & Hrun & _).
      destruct (scan_loop_quiet (Base file) projectName input 0 0
                  (print_all [ProcessingFile file] w)) as (es & Hes & Hq).
      rewrite Hrun in *. cbn [snd print_all stdout] in Hes.
      destruct Hq as (Qa & Qc & Qf).
      case_bool_decide; cbn [negb printf fail mret M_ret].
      * destruct (IH (mkWorld (db w1) (db_faults w1) (clock w1)
                        (stdout w1 ++ [Processed pc' (0 + length (scanned input)) file])))
          as (Ha & Hc & Hf).
        cbn [stdout] in Ha, Hc, Hf.
        rewrite Ha, Hc, Hf, Hes, !omap_app, Qa, Qc, Qf. cbn.
        rewrite !app_nil_r, <- !app_assoc. auto.
      * destruct (IH (print_all [ErrorParsingFile file ErrTooLong]
                        (mkWorld (db w1) (db_faults w1) (clock w1)
                           (stdout w1 ++ [Processed pc' (0 + length (scanned input)) file]))))
          as (Ha & Hc & Hf).
        cbn [print_all stdout] in Ha, Hc, Hf.
        rewrite Ha, Hc, Hf, Hes, !omap_app, Qa, Qc, Qf. cbn.
        rewrite !app_nil_r, <- !app_assoc. auto.
    + cbn [fail negb].
      destruct (IH (print_all [ErrorParsingFile file (Wrapped "failed to open file" ErrOpen)]
                      (print_all [ProcessingFile file] w))) as (Ha & Hc & Hf).
      cbn [print_all stdout] in Ha, Hc, Hf.
      rewrite Ha, Hc, Hf, !omap_app. cbn.
      rewrite !app_nil_r, <- !app_assoc. auto.
Qed.

(** X17. [syncProjectLogs] leaves out no file and takes none twice,
    whatever lines the files hold and whatever database calls fail: it
    announces the files that [filepath.Glob] gave, each once and in their
    order, and it prints the counts of exactly the files that it could
    open. The files being given by their lines (a file that opens is read
    with no error of the reader), it reports an error for exactly the
    files that it could not open or that hold a line too long for the
    scanner. *)
Theorem every_file_of_a_project_is_parsed
    (fs : FileSystem) (projectPath projectName : string) (files : list string)
    (w : World) :
  filepath_Glob fs (Join [projectPath; "*.jsonl"]) = Some files ->
  let out := stdout (syncProjectLogs Unmarshal fs projectPath projectName w).2 in
  omap announced_file out = omap announced_file (stdout w) ++ files
  /\ omap counted_file out
     = omap counted_file (stdout w) ++ List.filter (opens fs) files
  /\ omap failed_file out
     = omap failed_file (stdout w)
       ++ List.filter (fun file => negb (reads_to_end fs file)) files.
Proof.
  intros Hglob out. subst out. unfold syncProjectLogs. rewrite Hglob.
  unfold mbind, M_bind, printf.
  destruct (files_loop_cover fs projectName files
              (mkWorld (db w) (db_faults w) (clock w)
                 (stdout w ++ [FoundFiles (length files) projectPath])))
    as (Ha & Hc & Hf).
  cbn [stdout] in Ha, Hc, Hf.
  rewrite Ha, Hc, Hf, !omap_app. cbn. rewrite !app_nil_r. auto.
Qed.

End Run.

Lemma every_file_of_a_project_is_parsed_witness :
  let out := stdout (syncProjectLogs decode_braces (two_files ["{}"])
                       "/home/u/.claude/projects/-home-u-proj" "-home-u-proj"
                       fresh_world).2 in
  omap announced_file out = ["/a.jsonl"; "/b.jsonl"]
  /\ omap counted_file out = ["/b.jsonl"]
  /\ omap failed_file out = ["/a.jsonl"].
Proof.
  exact (every_file_of_a_project_is_parsed decode_braces (two_files ["{}"])
           "/home/u/.claude/projects/-home-u-proj" "-home-u-proj"
           ["/a.jsonl"; "/b.jsonl"] fresh_world eq_refl).
Defined.

End CoverFacts.

(* ===================================================================== *)
(** * Where the stored messages come from *)
(* ===================================================================== *)

Module OriginFacts.
Import GoStrings JSONLParser Notions Ledger ScannerFacts EntryFacts SyncFacts IngestFacts
  LineFacts RunFacts SequenceFacts.

(** The table of messages after [processLogEntry]: as it was, or with the
    row of the entry written under the id of the entry. *)
Lemma process_messages entry projectName w :
  messages (db (processLogEntry entry projectName w).2) = messages (db w)
  \/ messages (db (processLogEntry entry projectName w).2)
     = <[UUID entry := row_of entry (session_windows (db w)) (clock w)]>
         (messages (db w)).
Proof.
  destruct w as [st faults clk out]. cbn [db clock].
  unfold processLogEntry, row_of, assigned_window.
  destruct (Resolver.resolveProject entry projectName) as [name path].
  destruct faults as [|[] [|[] [|[] [|[] [|[] tape]]]]];
    run_parser; cbn [with_sessions session_windows];
    try destruct (SessionWindowService.GetOrCreateWindowForMessage _ _)
      as [ws window];
    cbn [message_of m_MessageRole];
    try destruct (bool_decide _); cbn [snd db];
    rewrite ?update_tokens_messages;
    first [left; reflexivity | right; reflexivity].
Qed.

Lemma run_trace_rows trace w :
  (forall id, is_Some (messages (db w) !! id) ->
              is_Some (messages (db (run_trace trace w)) !! id))
  /\ (forall id row,
        messages (db (run_trace trace w)) !! id = Some row ->
        messages (db w) !! id = Some row
        \/ exists projectName entry wid,
             (projectName, entry) ∈ trace
             /\ id = UUID entry
             /\ row_message row = message_of entry (Some wid)).
Proof.
  revert w. induction trace as [|[pn entry] rest IH]; intros w.
  - split; [auto|]. intros id row H. left. exact H.
  - cbn [run_trace].
    destruct (IH (processLogEntry entry pn w).2) as [Hkeep Hrows].
    destruct (process_messages entry pn w) as [Hm|Hm]; rewrite Hm in *.
    + split; [exact Hkeep|]. intros id row H.
      destruct (Hrows id row H) as [Hold|(pn' & e' & wid & Hin & Hid & Hrow)];
        [left; exact Hold|].
      right. exists pn', e', wid. split; [|auto].
      apply elem_of_cons. right. exact Hin.
    + split.
      * intros id Hsome. apply Hkeep.
        destruct (decide (id = UUID entry)) as [->|Hne].
        -- rewrite lookup_insert_eq. eauto.
        -- rewrite lookup_insert_ne by congruence. exact Hsome.
      * intros id row H.
        destruct (Hrows id row H) as [Hold|(pn' & e' & wid & Hin & Hid & Hrow)].
        -- destruct (decide (id = UUID entry)) as [->|Hne].
           ++ rewrite lookup_insert_eq in Hold. injection Hold as <-.
              right. exists pn, entry. eexists. split; [|split; reflexivity].
              apply elem_of_cons. left. reflexivity.
           ++ rewrite lookup_insert_ne in Hold by congruence. left. exact Hold.
        -- right. exists pn', e', wid. split; [|auto].
           apply elem_of_cons. right. exact Hin.
Qed.

(** X18. A sync run neither loses a message nor makes one up, whatever
    database calls fail: every id stored before [SyncAllLogs] is stored
    after it, and every row stored after it is a row that was there before
    or the row of an entry of the logs, under the id of that entry and with
    a session window id. (The services of the model write to their own
    tables and not to [messages].) *)
Theorem stored_messages_come_from_the_logs
    (Unmarshal : string -> option LogEntry) (fs : FileSystem) (w : World) :
  (forall id,
      is_Some (messages (db w) !! id) ->
      is_Some (messages (db (SyncAllLogs Unmarshal fs w).2) !! id))
  /\ (forall id row,
        messages (db (SyncAllLogs Unmarshal fs w).2) !! id = Some row ->
        messages (db w) !! id = Some row
        \/ exists projectName entry wid,
             (projectName, entry) ∈ sync_trace Unmarshal fs
             /\ id = UUID entry
             /\ row_message row = message_of entry (Some wid)).
Proof.
  destruct (sync_trace_state Unmarshal fs w) as (Hdb & _ & _).
  rewrite Hdb. apply run_trace_rows.
Qed.

Lemma stored_messages_come_from_the_logs_witness :
  exists row wid,
    messages (db (SyncAllLogs decode_braces (one_file ["{}"; "oops"])
                    (mkWorld empty_store [false; false; false; true] 0 [])).2)
      !! EmptyString = Some row
    /\ row_message row = message_of blank_entry (Some wid).
Proof.
  assert (Hsome : is_Some
            (messages (db (SyncAllLogs decode_braces (one_file ["{}"; "oops"])
                             (mkWorld empty_store [false; false; false; true]
                                0 [])).2) !! EmptyString))
    by (vm_compute; eauto).
  destruct Hsome as [row Hrow].
  destruct (proj2 (stored_messages_come_from_the_logs decode_braces
                     (one_file ["{}"; "oops"])
                     (mkWorld empty_store [false; false; false; true] 0 []))
              EmptyString row Hrow)
    as [Hold|(pn & e & wid & Hin & _ & Hmsg)].
  - discriminate Hold.
  - vm_compute in Hin. apply list_elem_of_singleton in Hin.
    injection Hin as -> ->. exists row, wid. split; [exact Hrow | exact Hmsg].
Defined.

End OriginFacts.

(* ===================================================================== *)
(** * The path of the database *)
(* ===================================================================== *)

Module PathFacts.
Import GoStrings Filepath JSONLParser Notions Ledger Database.

Lemma Split_nonempty (s : string) : Split s slash <> [].
Proof.
  destruct s as [|c s]; cbn [Split]; [discriminate|].
  destruct (Ascii.eqb c slash); [discriminate|].
  destruct (Split s slash); discriminate.
Qed.

Lemma Split_app (s t : string) :
  Split (s +:+ String slash t) slash = Split s slash ++ Split t slash.
Proof.
  induction s as [|c s IH].
  - reflexivity.
  - change (String c s +:+ String slash t) with (String c (s +:+ String slash t)).
    cbn [Split]. rewrite IH.
    destruct (Ascii.eqb c slash); [reflexivity|].
    pose proof (Split_nonempty s) as Hne.
    destruct (Split s slash) as [|p ps]; [contradiction|]. reflexivity.
Qed.

Lemma Split_plain (s : string) :
  has_byte slash s = false -> Split s slash = [s].
Proof.
  induction s as [|c s IH]; [reflexivity|]. cbn [has_byte Split].
  intros H. apply orb_false_iff in H as [Hc Hs]. rewrite Hc, (IH Hs).
  reflexivity.
Qed.

Lemma Split_no_slash (s : string) :
  Forall (fun c => has_byte slash c = false) (Split s slash).
Proof.
  induction s as [|c s IH]; cbn [Split]; [repeat constructor|].
  destruct (Ascii.eqb c slash) eqn:Hc; [constructor; [reflexivity|exact IH]|].
  destruct (Split s slash) as [|p ps]; [repeat constructor; cbn; rewrite Hc; reflexivity|].
  apply Forall_cons in IH as [Hp Hps]. constructor; [|exact Hps].
  cbn [has_byte]. rewrite Hc, Hp. reflexivity.
Qed.

Lemma append_assoc (a b c : string) : (a +:+ b) +:+ c = a +:+ (b +:+ c).
Proof.
  induction a as [|x a IH]; [reflexivity|].
  change (String x ((a +:+ b) +:+ c) = String x (a +:+ (b +:+ c))).
  rewrite IH. reflexivity.
Qed.

Lemma concat_snoc (l : list string) (x : string) :
  l <> [] ->
  String.concat "/" (l ++ [x]) = String.concat "/" l +:+ String slash x.
Proof.
  induction l as [|a l IH]; [contradiction|]. intros _.
  destruct l as [|b l].
  - reflexivity.
  - change (String.concat "/" ((a :: b :: l) ++ [x]))
      with (a +:+ ("/" +:+ String.concat "/" ((b :: l) ++ [x]))).
    change (String.concat "/" (a :: b :: l))
      with (a +:+ ("/" +:+ String.concat "/" (b :: l))).
    rewrite IH by discriminate.
    rewrite !append_assoc. reflexivity.
Qed.

Lemma plain_name_spec (name : string) :
  plain_name name = true ->
  name <> "" /\ name <> "." /\ name <> ".." /\ has_byte slash name = false.
Proof.
  unfold plain_name, Resolver.meaningful. intros H.
  apply andb_true_iff in H as [H Hs]. apply andb_true_iff in H as [H H3].
  apply andb_true_iff in H as [H1 H2].
  apply negb_true_iff in H1, H2, H3, Hs.
  apply String.eqb_neq in H1, H2, H3. auto.
Qed.

Lemma clean_step_plain rooted stack name :
  plain_name name = true -> clean_step rooted stack name = name :: stack.
Proof.
  intros H. destruct (plain_name_spec _ H) as (H1 & H2 & H3 & _).
  unfold clean_step.
  apply String.eqb_neq in H1, H2, H3. rewrite H1, H2, H3. reflexivity.
Qed.

Lemma clean_step_empty rooted stack : clean_step rooted stack "" = stack.
Proof. reflexivity. Qed.

(** The elements of a stack that [filepath.Clean] builds are not empty
    and hold no slash. *)
Lemma clean_stack_elements rooted stack :
  clean_stack rooted stack ->
  Forall (fun c => c <> "" /\ has_byte slash c = false) stack.
Proof.
  induction 1 as [|n _|name stack Hname _ IH].
  - constructor.
  - apply Forall_replicate. split; [discriminate|reflexivity].
  - constructor; [|exact IH].
    destruct (plain_name_spec _ Hname) as (H1 & _ & _ & H4). auto.
Qed.

(** One step of [filepath.Clean] keeps the stack in shape. *)
Lemma clean_step_stack rooted stack c :
  clean_stack rooted stack ->
  has_byte slash c = false ->
  clean_stack rooted (clean_step rooted stack c).
Proof.
  intros Hst Hc. unfold clean_step.
  destruct (String.eqb_spec c "") as [->|H1]; [exact Hst|].
  destruct (String.eqb_spec c ".") as [->|H2]; [exact Hst|]. cbn [orb].
  destruct (String.eqb_spec c "..") as [->|H3].
  - destruct Hst as [|n Hr|name stack Hname Hst].
    + destruct rooted; [constructor|]. apply (clean_up false 0). reflexivity.
    + apply (clean_up rooted (S n)). exact Hr.
    + destruct (String.eqb_spec name "..") as [->|_]; [discriminate Hname|].
      exact Hst.
  - apply clean_name; [|exact Hst].
    unfold plain_name, Resolver.meaningful.
    apply String.eqb_neq in H1, H2, H3. rewrite H1, H2, H3, Hc. reflexivity.
Qed.

Lemma fold_clean_stack rooted cs stack :
  Forall (fun c => has_byte slash c = false) cs ->
  clean_stack rooted stack ->
  clean_stack rooted (fold_left (clean_step rooted) cs stack).
Proof.
  intros Hcs. revert stack. induction Hcs as [|c cs Hc _ IH]; intros stack Hst;
    [exact Hst|].
  cbn [fold_left]. apply IH. apply clean_step_stack; assumption.
Qed.

Lemma rev_replicate {A} (n : nat) (x : A) :
  List.rev (replicate n x) = replicate n x.
Proof.
  induction n as [|n IH]; [reflexivity|]. cbn [replicate List.rev].
  rewrite IH. clear IH. induction n as [|n IH]; [reflexivity|].
  cbn [replicate app]. rewrite IH. reflexivity.
Qed.

Lemma dots_fold (n m : nat) :
  fold_left (clean_step false) (replicate n "..") (replicate m "..")
  = replicate (n + m) "..".
Proof.
  revert m. induction n as [|n IH]; intros m; [reflexivity|].
  cbn [replicate fold_left].
  replace (clean_step false (replicate m "..") "..") with (replicate (S m) "..")
    by (destruct m; reflexivity).
  rewrite IH. f_equal. lia.
Qed.

(** [filepath.Clean] builds the same stack again from the elements of a
    stack that it has built. *)
Lemma refold rooted stack :
  clean_stack rooted stack ->
  fold_left (clean_step rooted) (List.rev stack) [] = stack.
Proof.
  induction 1 as [|n Hr|name stack Hname _ IH].
  - reflexivity.
  - rewrite Hr, rev_replicate.
    transitivity (replicate (S n + 0) "..");
      [exact (dots_fold (S n) 0) | f_equal; lia].
  - cbn [List.rev]. rewrite fold_left_app, IH. cbn [fold_left].
    apply clean_step_plain. exact Hname.
Qed.

Lemma Split_concat (l : list string) :
  l <> [] ->
  Forall (fun c => has_byte slash c = false) l ->
  Split (String.concat "/" l) slash = l.
Proof.
  induction l as [|a l IH]; [contradiction|]. intros _ Hall.
  apply Forall_cons in Hall as [Ha Hl].
  destruct l as [|b l]; [apply Split_plain; exact Ha|].
  change (String.concat "/" (a :: b :: l))
    with (a +:+ String slash (String.concat "/" (b :: l))).
  rewrite Split_app, (Split_plain _ Ha), IH by (discriminate || exact Hl).
  reflexivity.
Qed.

Lemma Split_render rooted stack :
  clean_stack rooted stack -> stack <> [] ->
  Split (render rooted stack) slash
  = (if rooted then [EmptyString] else []) ++ List.rev stack.
Proof.
  intros Hst Hne.
  assert (Hsplit : Split (String.concat "/" (List.rev stack)) slash
                   = List.rev stack).
  { apply Split_concat.
    - destruct stack; [contradiction|]. cbn [List.rev].
      destruct (List.rev stack); discriminate.
    - apply Forall_forall. intros c Hin.
      pose proof (clean_stack_elements _ _ Hst) as Hel.
      rewrite Forall_forall in Hel. apply Hel.
      apply list_elem_of_In, List.in_rev, list_elem_of_In. exact Hin. }
  unfold render. destruct rooted.
  - change ("/" +:+ String.concat "/" (List.rev stack))
      with (String slash (String.concat "/" (List.rev stack))).
    cbn [Split]. change (Ascii.eqb slash slash) with true. cbn iota.
    rewrite Hsplit. reflexivity.
  - exact Hsplit.
Qed.

Lemma HasPrefix_slash (s : string) :
  HasPrefix s "/" = match s with
                    | String c _ => Ascii.eqb c slash
                    | EmptyString => false
                    end.
Proof.
  destruct s as [|c s]; [reflexivity|]. cbn [HasPrefix].
  destruct s; apply andb_true_r.
Qed.

Lemma first_not_slash (c : string) :
  c <> "" -> has_byte slash c = false -> HasPrefix c "/" = false.
Proof.
  rewrite HasPrefix_slash. destruct c as [|x c]; [contradiction|].
  intros _ H. cbn [has_byte] in H. apply orb_false_iff in H as [H _]. exact H.
Qed.

Lemma HasPrefix_append (s t : string) :
  s <> "" -> HasPrefix (s +:+ t) "/" = HasPrefix s "/".
Proof.
  rewrite !HasPrefix_slash. destruct s as [|c s]; [contradiction|]. reflexivity.
Qed.

Lemma concat_nonempty (a : string) (l : list string) :
  a <> "" -> String.concat "/" (a :: l) <> "".
Proof.
  intros Ha. destruct a as [|c a]; [contradiction|].
  destruct l; discriminate.
Qed.

Lemma concat_first (a : string) (l : list string) :
  a <> "" ->
  HasPrefix (String.concat "/" (a :: l)) "/" = HasPrefix a "/".
Proof.
  intros Ha. destruct l as [|b l]; [reflexivity|].
  change (String.concat "/" (a :: b :: l))
    with (a +:+ String slash (String.concat "/" (b :: l))).
  apply HasPrefix_append. exact Ha.
Qed.

(** The bottom of a stack: the first element of the path. *)
Lemma rev_stack_head rooted stack :
  clean_stack rooted stack -> stack <> [] ->
  exists a l, List.rev stack = a :: l /\ a <> "" /\ has_byte slash a = false.
Proof.
  intros Hst Hne. pose proof (clean_stack_elements _ _ Hst) as Hel.
  destruct (List.rev stack) as [|a l] eqn:Hrev.
  - exfalso. apply Hne. apply (f_equal (@List.rev string)) in Hrev.
    rewrite List.rev_involutive in Hrev. exact Hrev.
  - exists a, l. split; [reflexivity|].
    rewrite Forall_forall in Hel. apply Hel.
    apply list_elem_of_In, List.in_rev. rewrite Hrev. left. reflexivity.
Qed.

Lemma render_nonempty rooted stack :
  clean_stack rooted stack -> stack <> [] -> render rooted stack <> "".
Proof.
  intros Hst Hne. destruct (rev_stack_head _ _ Hst Hne) as (a & l & Hrev & Ha & _).
  unfold render. rewrite Hrev. destruct rooted; [discriminate|].
  apply concat_nonempty. exact Ha.
Qed.

Lemma render_rooted rooted stack :
  clean_stack rooted stack -> stack <> [] ->
  HasPrefix (render rooted stack) "/" = rooted.
Proof.
  intros Hst Hne. destruct (rev_stack_head _ _ Hst Hne) as (a & l & Hrev & Ha & Hs).
  unfold render. rewrite Hrev. destruct rooted.
  - rewrite HasPrefix_slash. reflexivity.
  - change ("" +:+ String.concat "/" (a :: l)) with (String.concat "/" (a :: l)).
    rewrite concat_first by exact Ha. apply first_not_slash; assumption.
Qed.

(** [filepath.Clean] of what it wrote is what it wrote. *)
Lemma Clean_holds rooted stack :
  forall tail,
  clean_stack rooted stack -> stack <> [] ->
  tail = "" \/ tail = "/" ->
  Clean (render rooted stack +:+ tail) = render rooted stack.
Proof.
  intros tail Hst Hne Htail.
  pose proof (render_nonempty _ _ Hst Hne) as Hnon.
  assert (Hsplit : fold_left (clean_step rooted)
                     (Split (render rooted stack +:+ tail) slash) []
                   = stack).
  { assert (Hbody : fold_left (clean_step rooted)
                      (Split (render rooted stack) slash) [] = stack).
    { rewrite Split_render by assumption. rewrite fold_left_app.
      replace (fold_left (clean_step rooted)
                 (if rooted then [EmptyString] else []) [])
        with (@nil string) by (destruct rooted; reflexivity).
      apply refold. exact Hst. }
    destruct Htail as [->| ->].
    - replace (render rooted stack +:+ "") with (render rooted stack);
        [exact Hbody|].
      generalize (render rooted stack). clear.
      induction s as [|c s IH]; [reflexivity|].
      change (String c s +:+ "") with (String c (s +:+ "")). rewrite <- IH.
      reflexivity.
    - change "/" with (String slash EmptyString).
      rewrite Split_app, fold_left_app, Hbody. reflexivity. }
  unfold Clean.
  assert (Hne' : render rooted stack +:+ tail <> "").
  { destruct (render rooted stack); [contradiction | discriminate]. }
  apply String.eqb_neq in Hne'. rewrite Hne'.
  rewrite HasPrefix_append by exact Hnon.
  rewrite render_rooted by assumption. cbn zeta. rewrite Hsplit.
  assert (Hout : (if rooted
                  then String slash (String.concat "/" (List.rev stack))
                  else String.concat "/" (List.rev stack))
                 = render rooted stack) by (destruct rooted; reflexivity).
  rewrite Hout. apply String.eqb_neq in Hnon. rewrite Hnon. reflexivity.
Qed.

(** [filepath.Clean] of a path that is not empty, by its stack. *)
Lemma Clean_stack (path : string) :
  path <> "" ->
  let rooted := HasPrefix path "/" in
  let stack := fold_left (clean_step rooted) (Split path slash) [] in
  clean_stack rooted stack
  /\ Clean path = if String.eqb (render rooted stack) "" then "."
                  else render rooted stack.
Proof.
  intros Hne rooted stack. split.
  - apply fold_clean_stack; [apply Split_no_slash | constructor].
  - unfold Clean. apply String.eqb_neq in Hne. rewrite Hne. cbn zeta.
    fold rooted. fold stack.
    assert (Hout : (if rooted
                    then String slash (String.concat "/" (List.rev stack))
                    else String.concat "/" (List.rev stack))
                   = render rooted stack) by (destruct rooted; reflexivity).
    rewrite Hout. reflexivity.
Qed.

(** A plain name after a path: one more element on the stack. *)
Lemma Clean_push (path name : string) :
  path <> "" ->
  plain_name name = true ->
  let rooted := HasPrefix path "/" in
  let stack := fold_left (clean_step rooted) (Split path slash) [] in
  HasPrefix (path +:+ String slash name) "/" = rooted
  /\ fold_left (clean_step rooted) (Split (path +:+ String slash name) slash) []
     = name :: stack
  /\ Clean (path +:+ String slash name) = render rooted (name :: stack).
Proof.
  intros Hne Hname rooted stack.
  destruct (plain_name_spec _ Hname) as (_ & _ & _ & Hslash).
  assert (Hr : HasPrefix (path +:+ String slash name) "/" = rooted)
    by (apply HasPrefix_append; exact Hne).
  assert (Hst : fold_left (clean_step rooted)
                  (Split (path +:+ String slash name) slash) []
                = name :: stack).
  { rewrite Split_app, fold_left_app, (Split_plain _ Hslash). cbn [fold_left].
    apply clean_step_plain. exact Hname. }
  split; [exact Hr|]. split; [exact Hst|].
  assert (Hne' : path +:+ String slash name <> "")
    by (destruct path; [contradiction | discriminate]).
  destruct (Clean_stack _ Hne') as [Hclean ->]. cbn zeta.
  rewrite Hr, Hst in *.
  assert (Hnon : render rooted (name :: stack) <> "")
    by (apply render_nonempty; [exact Hclean | discriminate]).
  apply String.eqb_neq in Hnon. rewrite Hnon. reflexivity.
Qed.

Lemma render_push rooted name stack :
  stack <> [] ->
  render rooted (name :: stack) = render rooted stack +:+ String slash name.
Proof.
  intros Hne. unfold render. cbn [List.rev].
  rewrite concat_snoc.
  - rewrite append_assoc. reflexivity.
  - destruct stack; [contradiction|]. cbn [List.rev].
    destruct (List.rev stack); discriminate.
Qed.

Lemma no_slash_nothing (name : string) :
  has_byte slash name = false -> through_last_slash name = "".
Proof.
  destruct name as [|c name]; [reflexivity|]. intros H.
  cbn [through_last_slash].
  replace (existsb (Ascii.eqb slash) (list_ascii_of_string (String c name)))
    with false; [reflexivity|].
  symmetry. revert H. generalize (String c name). clear.
  induction s as [|d s IH]; [reflexivity|]. cbn [has_byte list_ascii_of_string existsb].
  intros H. apply orb_false_iff in H as [Hd Hs].
  rewrite Ascii.eqb_sym, Hd, (IH Hs). reflexivity.
Qed.

Lemma slash_found (path name : string) :
  existsb (Ascii.eqb slash)
    (list_ascii_of_string (path +:+ String slash name)) = true.
Proof.
  induction path as [|c path IH].
  - cbn. reflexivity.
  - change (String c path +:+ String slash name)
      with (String c (path +:+ String slash name)).
    cbn [list_ascii_of_string existsb]. rewrite IH. apply orb_true_r.
Qed.

Lemma through_last_slash_name (path name : string) :
  has_byte slash name = false ->
  through_last_slash (path +:+ String slash name) = path +:+ "/".
Proof.
  intros Hname. induction path as [|c path IH].
  - change ("" +:+ String slash name) with (String slash name).
    cbn [through_last_slash].
    change (existsb (Ascii.eqb slash) (list_ascii_of_string (String slash name)))
      with true. cbn iota.
    rewrite (no_slash_nothing _ Hname). reflexivity.
  - change (String c path +:+ String slash name)
      with (String c (path +:+ String slash name)).
    cbn [through_last_slash].
    change (String c (path +:+ String slash name))
      with (String c path +:+ String slash name).
    rewrite slash_found. rewrite IH. reflexivity.
Qed.

(** [filepath.Dir] takes a plain name off the end of a cleaned path. *)
Lemma Dir_of_join (home dir file : string) :
  plain_name dir = true ->
  plain_name file = true ->
  Dir (Join [home; dir; file]) = Join [home; dir].
Proof.
  intros Hdir Hfile.
  destruct (plain_name_spec _ Hdir) as (Hd1 & _ & _ & _).
  destruct (plain_name_spec _ Hfile) as (Hf1 & _ & _ & Hf4).
  assert (Hmain : forall path,
            path <> "" ->
            Dir (Clean ((path +:+ String slash dir) +:+ String slash file))
            = Clean (path +:+ String slash dir)).
  { intros path Hne.
    assert (Hne' : path +:+ String slash dir <> "")
      by (destruct path; [contradiction | discriminate]).
    destruct (Clean_push path dir Hne Hdir) as (Hr & Hst & Hclean).
    destruct (Clean_push (path +:+ String slash dir) file Hne' Hfile)
      as (_ & _ & Hclean2).
    cbn zeta in *. rewrite Hr, Hst in Hclean2. rewrite Hclean, Hclean2.
    rewrite render_push by discriminate.
    unfold Dir. rewrite through_last_slash_name by exact Hf4.
    apply Clean_holds; [|discriminate|right; reflexivity].
    apply clean_name; [exact Hdir|].
    apply fold_clean_stack; [apply Split_no_slash | constructor]. }
  unfold Join. cbn [List.filter].
  apply String.eqb_neq in Hd1, Hf1. rewrite Hd1, Hf1. cbn [negb].
  destruct (String.eqb_spec home "") as [->|Hh]; cbn [negb].
  - change (String.concat "/" [dir; file]) with (dir +:+ String slash file).
    change (String.concat "/" [dir]) with dir.
    apply String.eqb_neq in Hd1.
    destruct (Clean_stack dir Hd1) as [_ Hc]. cbn zeta in Hc.
    destruct (plain_name_spec _ Hdir) as (_ & _ & _ & Hd4).
    assert (Hroot : HasPrefix dir "/" = false)
      by (apply first_not_slash; assumption).
    rewrite Hroot, (Split_plain _ Hd4) in Hc. cbn [fold_left] in Hc.
    rewrite clean_step_plain in Hc by exact Hdir.
    assert (Hone : Clean dir = dir).
    { rewrite Hc. unfold render. cbn [List.rev app String.concat].
      change ("" +:+ dir) with dir.
      apply String.eqb_neq in Hd1. rewrite Hd1. reflexivity. }
    rewrite Hone.
    destruct (Clean_push dir file Hd1 Hfile) as (_ & _ & Hclean2).
    cbn zeta in Hclean2. rewrite Hroot, (Split_plain _ Hd4) in Hclean2.
    cbn [fold_left] in Hclean2.
    rewrite clean_step_plain in Hclean2 by exact Hdir.
    rewrite Hclean2, render_push by discriminate.
    unfold Dir. rewrite through_last_slash_name by exact Hf4.
    rewrite Clean_holds; [|apply clean_name; [exact Hdir|constructor]
                          |discriminate|right; reflexivity].
    unfold render. reflexivity.
  - change (String.concat "/" [home; dir; file])
      with (home +:+ String slash (dir +:+ String slash file)).
    change (String.concat "/" [home; dir]) with (home +:+ String slash dir).
    replace (home +:+ String slash (dir +:+ String slash file))
      with ((home +:+ String slash dir) +:+ String slash file)
      by (rewrite append_assoc; reflexivity).
    apply Hmain. exact Hh.
Qed.

(** X19. The directory that [Initialize] makes before it opens the
    database is the directory [.claudeee] under the home directory, which
    is the one that holds the database file: [filepath.Dir] of the path of
    the file is the joined path of that directory, however the home
    directory is spelled (relative, with dot elements, with slashes
    repeated or at its end, or empty). *)
Theorem database_directory_holds_the_database (homeDir : string) :
  Dir (Join [homeDir; ".claudeee"; "claudeee.db"]) = Join [homeDir; ".claudeee"].
Proof. apply Dir_of_join; reflexivity. Qed.

End PathFacts.

(* ===================================================================== *)
(** * The tables and the opening of the database *)
(* ===================================================================== *)

Module DatabaseFacts.
Import GoStrings Filepath JSONLParser Database.

Lemma keeps_refl c : keeps c c.
Proof.
  split; [|auto]. intros table columns H. exists []. rewrite app_nil_r. exact H.
Qed.

Lemma keeps_trans c1 c2 c3 : keeps c1 c2 -> keeps c2 c3 -> keeps c1 c3.
Proof.
  intros [Ht1 Hi1] [Ht2 Hi2]. split.
  - intros table columns H. destruct (Ht1 _ _ H) as [more1 H1].
    destruct (Ht2 _ _ H1) as [more2 H2]. exists (more1 ++ more2).
    rewrite app_assoc. exact H2.
  - auto.
Qed.

(** A statement that is carried out keeps what the catalog holds. *)
Lemma run_query_keeps q c c' : run_query q c = Some c' -> keeps c c'.
Proof.
  destruct q as [table columns fks|table column|index table columns];
    cbn [run_query].
  - destruct (tables c !! table) eqn:Ht; [intros [= <-]; apply keeps_refl|].
    destruct (forallb _ _); [|discriminate]. intros [= <-].
    split; cbn [tables indexes]; [|auto].
    intros t cols H. exists []. rewrite app_nil_r.
    rewrite lookup_insert_ne; [exact H | congruence].
  - destruct (tables c !! table) as [cols|] eqn:Ht; [|discriminate].
    destruct (bool_decide _); intros [= <-]; [apply keeps_refl|].
    split; cbn [tables indexes]; [|auto].
    intros t cols' H. destruct (decide (t = table)) as [->|Hne].
    + rewrite lookup_insert_eq. exists [column]. congruence.
    + rewrite lookup_insert_ne by congruence. exists []. rewrite app_nil_r.
      exact H.
  - destruct (indexes c !! index) eqn:Hi; [intros [= <-]; apply keeps_refl|].
    destruct (forallb _ _); [|discriminate]. intros [= <-].
    split; cbn [tables indexes].
    + intros t cols H. exists []. rewrite app_nil_r. exact H.
    + intros i on H. rewrite lookup_insert_ne; [exact H | congruence].
Qed.

Lemma has_column_keeps c c' table column :
  keeps c c' -> has_column c table column = true ->
  has_column c' table column = true.
Proof.
  intros [Ht _]. unfold has_column.
  destruct (tables c !! table) as [cols|] eqn:H; [|discriminate].
  destruct (Ht _ _ H) as [more ->]. intros Hin.
  apply bool_decide_eq_true in Hin. apply bool_decide_eq_true.
  rewrite fmap_app. apply elem_of_app. left. exact Hin.
Qed.

Lemma settled_keeps c c' q : keeps c c' -> settled c q = true -> settled c' q = true.
Proof.
  intros Hk. destruct q as [table columns fks|table column|index table columns];
    cbn [settled].
  - intros H. apply bool_decide_eq_true in H as [cols H].
    destruct Hk as [Ht _]. destruct (Ht _ _ H) as [more H'].
    apply bool_decide_eq_true. eauto.
  - apply has_column_keeps; exact Hk.
  - intros H. apply bool_decide_eq_true in H as [on H].
    destruct Hk as [_ Hi]. apply bool_decide_eq_true. rewrite (Hi _ _ H). eauto.
Qed.

(** A statement that is carried out is settled. *)
Lemma run_query_settles q c c' : run_query q c = Some c' -> settled c' q = true.
Proof.
  destruct q as [table columns fks|table column|index table columns];
    cbn [run_query settled].
  - destruct (tables c !! table) eqn:Ht.
    + intros [= <-]. apply bool_decide_eq_true. rewrite Ht. eauto.
    + destruct (forallb _ _); [|discriminate]. intros [= <-].
      apply bool_decide_eq_true. cbn [tables]. rewrite lookup_insert_eq. eauto.
  - unfold has_column.
    destruct (tables c !! table) as [cols|] eqn:Ht; [|discriminate].
    destruct (bool_decide _) eqn:Hin; intros [= <-].
    + rewrite Ht. exact Hin.
    + cbn [tables]. rewrite lookup_insert_eq. apply bool_decide_eq_true.
      rewrite fmap_app. apply elem_of_app. right. cbn. apply list_elem_of_singleton.
      reflexivity.
  - destruct (indexes c !! index) eqn:Hi.
    + intros [= <-]. apply bool_decide_eq_true. rewrite Hi. eauto.
    + destruct (forallb _ _); [|discriminate]. intros [= <-].
      apply bool_decide_eq_true. cbn [indexes]. rewrite lookup_insert_eq. eauto.
Qed.

(** A settled statement does nothing. *)
Lemma run_query_settled q c : settled c q = true -> run_query q c = Some c.
Proof.
  destruct q as [table columns fks|table column|index table columns];
    cbn [run_query settled].
  - intros H. apply bool_decide_eq_true in H as [cols ->]. reflexivity.
  - unfold has_column. destruct (tables c !! table) as [cols|]; [|discriminate].
    intros ->. reflexivity.
  - intros H. apply bool_decide_eq_true in H as [on ->]. reflexivity.
Qed.

(** One turn of the loop of [createTables]. *)
Lemma exec_loop_cons q qs m :
  exec_loop (q :: qs) m =
  match db_Exec q m with
  | (inl err, m') => (inl (QueryFailed q err), m')
  | (inr _, m') => exec_loop qs m'
  end.
Proof.
  cbn [exec_loop]. unfold mbind, D_bind, exec_or_return.
  destruct (db_Exec q m) as [[err|[]] m']; reflexivity.
Qed.

Lemma db_Exec_calls q m :
  calls (db_Exec q m).2 = calls m ++ [Exec q]
  /\ tape (db_Exec q m).2 = (next_outcome (tape m)).2
  /\ home (db_Exec q m).2 = home m.
Proof.
  unfold db_Exec. destruct (next_outcome (tape m)) as [[] rest]; cbn [snd].
  - auto.
  - destruct (run_query q (catalog m)); auto.
Qed.

Lemma db_Exec_ok q m m' :
  db_Exec q m = (inr tt, m') ->
  (next_outcome (tape m)).1 = false
  /\ run_query q (catalog m) = Some (catalog m').
Proof.
  unfold db_Exec. destruct (next_outcome (tape m)) as [[] rest]; [discriminate|].
  destruct (run_query q (catalog m)); [|discriminate].
  intros [= <-]. auto.
Qed.

Lemma db_Exec_keeps q m : keeps (catalog m) (catalog (db_Exec q m).2).
Proof.
  unfold db_Exec. destruct (next_outcome (tape m)) as [[] rest]; cbn [snd catalog].
  - apply keeps_refl.
  - destruct (run_query q (catalog m)) eqn:Hq; cbn [snd catalog].
    + apply run_query_keeps with q; exact Hq.
    + apply keeps_refl.
Qed.

(** The loop of [createTables] over any statements: what it sends, what
    it keeps, which statement its error names, and what it has settled
    when it returns no error. *)
Lemma exec_loop_run qs m :
  keeps (catalog m) (catalog (exec_loop qs m).2)
  /\ home (exec_loop qs m).2 = home m
  /\ (exists sent,
        sent `prefix_of` qs
        /\ calls (exec_loop qs m).2 = calls m ++ (Exec <$> sent)
        /\ match (exec_loop qs m).1 with
           | inr _ => sent = qs
           | inl e => exists q err, e = QueryFailed q err /\ last sent = Some q
           end)
  /\ ((exec_loop qs m).1 = inr tt ->
      Forall (fun q => settled (catalog (exec_loop qs m).2) q = true) qs).
Proof.
  revert m. induction qs as [|q qs IH]; intros m.
  - cbn. split; [apply keeps_refl|]. split; [reflexivity|]. split; [|auto].
    exists []. rewrite app_nil_r. auto.
  - rewrite exec_loop_cons.
    pose proof (db_Exec_keeps q m) as Hk.
    pose proof (db_Exec_calls q m) as (Hc & _ & Hh).
    destruct (db_Exec q m) as [[err|[]] m1] eqn:Hq; cbn [snd fst] in *.
    + split; [exact Hk|]. split; [exact Hh|]. split; [|discriminate].
      exists [q]. split; [exists qs; reflexivity|].
      split; [exact Hc|]. eauto.
    + destruct (IH m1) as (Hk1 & Hh1 & (sent & Hpre & Hsent & Hres) & Hset).
      split; [eapply keeps_trans; eassumption|].
      split; [congruence|]. split.
      * exists (q :: sent). split; [apply prefix_cons; exact Hpre|].
        split; [rewrite Hsent, Hc, fmap_cons, <- app_assoc; reflexivity|].
        destruct (exec_loop qs m1).1 as [e|u].
        -- destruct Hres as (q' & err & -> & Hlast). exists q', err.
           split; [reflexivity|]. destruct sent; [discriminate Hlast|exact Hlast].
        -- rewrite Hres. reflexivity.
      * intros Hok. constructor; [|apply Hset; exact Hok].
        apply settled_keeps with (catalog m1); [exact Hk1|].
        apply run_query_settles with (catalog m).
        apply (db_Exec_ok _ _ _ Hq).
Qed.

(** On a catalog where the statements are settled and with no failing
    call, the loop changes nothing. *)
Lemma exec_loop_settled qs m :
  tape m = [] ->
  Forall (fun q => settled (catalog m) q = true) qs ->
  exec_loop qs m
  = (inr tt, mkMachine (home m) [] (catalog m) (calls m ++ (Exec <$> qs))).
Proof.
  revert m. induction qs as [|q qs IH]; intros m Ht Hall.
  - cbn. rewrite app_nil_r. destruct m; cbn in *; subst; reflexivity.
  - apply Forall_cons in Hall as [Hq Hall]. rewrite exec_loop_cons.
    unfold db_Exec. rewrite Ht. cbn [next_outcome].
    rewrite (run_query_settled _ _ Hq).
    rewrite IH; [|reflexivity|exact Hall]. cbn [home catalog calls].
    rewrite fmap_cons, <- app_assoc. reflexivity.
Qed.

Lemma db_Exec_fails q m err m' :
  db_Exec q m = (inl err, m') -> catalog m' = catalog m.
Proof.
  unfold db_Exec. destruct (next_outcome (tape m)) as [[] rest].
  - intros [= _ <-]. reflexivity.
  - destruct (run_query q (catalog m)); [discriminate|].
    intros [= _ <-]. reflexivity.
Qed.

(** Statements that were carried out are settled and stay so, and they
    keep what the catalog held. *)
Lemma carry_out_settles qs c c' :
  carry_out qs c = Some c' ->
  keeps c c' /\ Forall (fun q => settled c' q = true) qs.
Proof.
  revert c. induction qs as [|q qs IH]; intros c.
  - intros [= <-]. split; [apply keeps_refl | constructor].
  - cbn [carry_out]. destruct (run_query q c) as [c1|] eqn:Hq; [|discriminate].
    intros Hrest. destruct (IH c1 Hrest) as [Hk Hall]. split.
    + eapply keeps_trans; [eapply run_query_keeps; exact Hq | exact Hk].
    + constructor; [|exact Hall].
      apply settled_keeps with c1; [exact Hk|].
      eapply run_query_settles; exact Hq.
Qed.

(** The loop of [createTables] over any statements: the catalog it leaves
    is the one that the statements before the first failure make. *)
Lemma exec_loop_carried qs m :
  exists done,
    carry_out done (catalog m) = Some (catalog (exec_loop qs m).2)
    /\ match (exec_loop qs m).1 with
       | inr _ =>
           done = qs
           /\ calls (exec_loop qs m).2 = calls m ++ (Exec <$> qs)
       | inl e =>
           exists q err rest,
             qs = done ++ q :: rest
             /\ e = QueryFailed q err
             /\ calls (exec_loop qs m).2 = calls m ++ (Exec <$> done ++ [q])
       end.
Proof.
  revert m. induction qs as [|q qs IH]; intros m.
  - exists []. cbn. rewrite app_nil_r. auto.
  - rewrite exec_loop_cons.
    pose proof (db_Exec_calls q m) as (Hc & _ & _).
    destruct (db_Exec q m) as [[err|[]] m1] eqn:Hq; cbn [snd fst] in *.
    + exists []. split.
      * cbn [carry_out]. rewrite (db_Exec_fails _ _ _ _ Hq). reflexivity.
      * exists q, err, qs. auto.
    + destruct (IH m1) as (done & Hcarry & Hres). exists (q :: done). split.
      * cbn [carry_out]. rewrite (proj2 (db_Exec_ok _ _ _ Hq)). exact Hcarry.
      * destruct (exec_loop qs m1).1 as [e|u].
        -- destruct Hres as (q' & err & rest & -> & -> & Hcalls).
           exists q', err, rest. split; [reflexivity|]. split; [reflexivity|].
           rewrite Hcalls, Hc, <- app_assoc. reflexivity.
        -- destruct Hres as [-> Hcalls]. split; [reflexivity|].
           rewrite Hcalls, Hc, fmap_cons, <- app_assoc. reflexivity.
Qed.

(** X20. [createTables] sends its statements in the order of the source
    and stops at the first one that fails. When it returns no error it
    has sent the whole list; when it returns an error, the error names the
    statement that was sent last, and no statement after that one was
    sent. The database is then exactly what the statements before the
    failing one have made of it: each of them was carried out and is
    settled, the failing one has changed nothing, and what the database
    held before is kept. Nothing is undone and nothing is dropped. *)
Theorem create_tables_stops_at_first_failure (m : Machine) :
  exists done,
    carry_out done (catalog m) = Some (catalog (createTables m).2)
    /\ Forall (fun q => settled (catalog (createTables m).2) q = true) done
    /\ keeps (catalog m) (catalog (createTables m).2)
    /\ match (createTables m).1 with
       | inr _ =>
           done = queries
           /\ calls (createTables m).2 = calls m ++ (Exec <$> queries)
       | inl e =>
           exists q err rest,
             queries = done ++ q :: rest
             /\ e = QueryFailed q err
             /\ calls (createTables m).2 = calls m ++ (Exec <$> done ++ [q])
       end.
Proof.
  destruct (exec_loop_carried queries m) as (done & Hcarry & Hres).
  destruct (carry_out_settles _ _ _ Hcarry) as [Hk Hall].
  exists done. auto.
Qed.

(** X21. When [createTables] returns no error, each of its statements
    has nothing left to do, whatever the database held before: the three
    tables and the ten indexes exist, and [messages] has the column
    [session_window_id], also when the table comes from a version that did
    not have it. [createTables] on that database again, with no failing
    call, returns no error and leaves the catalog as it is. *)
Theorem create_tables_settles_its_statements (m m1 : Machine) :
  createTables m = (inr tt, m1) ->
  Forall (fun q => settled (catalog m1) q = true) queries
  /\ has_column (catalog m1) "messages" "session_window_id" = true
  /\ (forall m2,
        catalog m2 = catalog m1 ->
        tape m2 = [] ->
        (createTables m2).1 = inr tt
        /\ catalog (createTables m2).2 = catalog m1).
Proof.
  intros Hrun.
  destruct (exec_loop_run queries m) as (_ & _ & _ & Hset).
  unfold createTables in *. rewrite Hrun in Hset. cbn [fst snd] in Hset.
  specialize (Hset eq_refl). split; [exact Hset|]. split.
  - rewrite Forall_forall in Hset.
    apply (Hset (AddColumn "messages" (mkColumn "session_window_id" "TEXT" ""))).
    unfold queries. repeat (first [apply list_elem_of_here | apply list_elem_of_further]).
  - intros m2 Hcat Ht. rewrite exec_loop_settled.
    + cbn [fst snd catalog]. auto.
    + exact Ht.
    + rewrite Hcat. exact Hset.
Qed.

Lemma create_tables_settles_its_statements_witness :
  has_column (catalog old_machine) "messages" "session_window_id" = false
  /\ has_column (catalog (createTables old_machine).2) "messages"
       "session_window_id" = true.
Proof.
  split; [reflexivity|].
  apply (create_tables_settles_its_statements old_machine
           (createTables old_machine).2).
  vm_compute. reflexivity.
Defined.

(** X22. On a new database and with no failing call, [createTables]
    returns no error and makes three tables and ten indexes; the columns of
    [messages] are then the eighteen columns that the statement of
    [insertMessage] names, in the same order. *)
Theorem new_database_has_the_columns_of_the_upsert (m : Machine) :
  catalog m = empty_catalog ->
  tape m = [] ->
  (createTables m).1 = inr tt
  /\ column_names (catalog (createTables m).2) "messages" = Some upsert_columns
  /\ size (tables (catalog (createTables m).2)) = 3%nat
  /\ size (indexes (catalog (createTables m).2)) = 10%nat.
Proof.
  destruct m as [h t c cs]. cbn [catalog tape]. intros -> ->.
  repeat split; vm_compute; reflexivity.
Qed.

Lemma new_database_has_the_columns_of_the_upsert_witness :
  column_names (catalog (createTables new_machine).2) "messages"
  = Some upsert_columns.
Proof.
  exact (proj1 (proj2 (new_database_has_the_columns_of_the_upsert new_machine
                         eq_refl eq_refl))).
Defined.

Lemma go_well_two m :
  go_well 2 m ->
  tape m = [] \/ tape m = [false] \/ exists rest, tape m = false :: false :: rest.
Proof.
  unfold go_well. destruct (tape m) as [|a [|b rest]]; cbn [take]; [auto| |].
  - intros H. apply Forall_cons in H as [-> _]. auto.
  - intros H. apply Forall_cons in H as [-> H].
    apply Forall_cons in H as [-> _]. eauto.
Qed.

Lemma tape_cases m :
  go_well 2 m
  \/ (exists rest, tape m = true :: rest)
  \/ (exists rest, tape m = false :: true :: rest).
Proof.
  unfold go_well. destruct (tape m) as [|[] [|[] rest]]; cbn [take]; eauto;
    left; repeat constructor.
Qed.

Section WithSyncState.
Variable InitializeSchema : D unit.

(** [Initialize] once [os.MkdirAll] and [sql.Open] went well. *)
Lemma initialize_opens m h :
  home m = Some h ->
  go_well 2 m ->
  Initialize InitializeSchema m =
  match createTables (opened m (Join [h; ".claudeee"; "claudeee.db"])) with
  | (inl e, m1) => (inl (Because "failed to create tables" e), m1)
  | (inr _, m1) =>
      match InitializeSchema m1 with
      | (inl e, m2) => (inl (Because "failed to initialize sync schema" e), m2)
      | (inr _, m2) => (inr (Join [h; ".claudeee"; "claudeee.db"]), m2)
      end
  end.
Proof.
  intros Hh Ht. apply go_well_two in Ht. unfold opened.
  destruct m as [hm tp cat cs]. cbn [home tape catalog calls] in *. subst hm.
  destruct Ht as [->|[->|[rest ->]]];
    cbv beta iota zeta delta
      [Initialize mbind mret D_bind D_ret because UserHomeDir outside
       next_outcome home tape catalog calls drop];
    rewrite <- app_assoc; cbn [app];
    destruct (createTables _) as [[e|[]] m1]; try reflexivity;
    destruct (InitializeSchema m1) as [[e|[]] m2]; reflexivity.
Qed.

Ltac run_initialize :=
  cbv beta iota zeta delta
    [Initialize mbind mret D_bind D_ret because UserHomeDir outside
     next_outcome home tape catalog calls].

Lemma initialize_no_home m :
  home m = None ->
  Initialize InitializeSchema m
  = (inl (Because "failed to get home directory" ErrNoHome), m).
Proof. destruct m as [hm tp cat cs]. cbn [home]. intros ->. reflexivity. Qed.

Lemma initialize_mkdir_fails m h rest :
  home m = Some h ->
  tape m = true :: rest ->
  Initialize InitializeSchema m
  = (inl (Because "failed to create database directory" ErrMkdir),
     mkMachine (Some h) rest (catalog m)
       (calls m ++ [MkdirAll (Dir (Join [h; ".claudeee"; "claudeee.db"])) 493])).
Proof.
  destruct m as [hm tp cat cs]. cbn [home tape catalog calls].
  intros -> ->. run_initialize. reflexivity.
Qed.

Lemma initialize_open_fails m h rest :
  home m = Some h ->
  tape m = false :: true :: rest ->
  Initialize InitializeSchema m
  = (inl (Because "failed to open database" ErrDriver),
     mkMachine (Some h) rest (catalog m)
       (calls m ++ [MkdirAll (Dir (Join [h; ".claudeee"; "claudeee.db"])) 493;
                    SqlOpen "duckdb" (Join [h; ".claudeee"; "claudeee.db"])])).
Proof.
  destruct m as [hm tp cat cs]. cbn [home tape catalog calls].
  intros -> ->. run_initialize. rewrite <- app_assoc. reflexivity.
Qed.

(** X23. [Initialize] stops at its first step that fails and wraps the
    error of that step. With no home directory it makes no call at all;
    when the directory cannot be made the database is not opened; when the
    database cannot be opened no statement is sent; when [createTables]
    fails the schema of the sync state is not initialised, whatever that
    step would do. *)
Theorem initialize_stops_at_first_failure (m : Machine) :
  (home m = None ->
   Initialize InitializeSchema m
   = (inl (Because "failed to get home directory" ErrNoHome), m))
  /\ (forall h rest,
        home m = Some h ->
        tape m = true :: rest ->
        Initialize InitializeSchema m
        = (inl (Because "failed to create database directory" ErrMkdir),
           mkMachine (Some h) rest (catalog m)
             (calls m ++ [MkdirAll (Dir (Join [h; ".claudeee"; "claudeee.db"])) 493])))
  /\ (forall h rest,
        home m = Some h ->
        tape m = false :: true :: rest ->
        Initialize InitializeSchema m
        = (inl (Because "failed to open database" ErrDriver),
           mkMachine (Some h) rest (catalog m)
             (calls m ++ [MkdirAll (Dir (Join [h; ".claudeee"; "claudeee.db"])) 493;
                          SqlOpen "duckdb" (Join [h; ".claudeee"; "claudeee.db"])])))
  /\ (forall h e m1,
        home m = Some h ->
        go_well 2 m ->
        createTables (opened m (Join [h; ".claudeee"; "claudeee.db"])) = (inl e, m1) ->
        Initialize InitializeSchema m
        = (inl (Because "failed to create tables" e), m1)).
Proof.
  split; [apply initialize_no_home|].
  split; [intros; apply initialize_mkdir_fails; assumption|].
  split; [intros; apply initialize_open_fails; assumption|].
  intros h e m1 Hh Hgo Hrun.
  rewrite (initialize_opens m h Hh Hgo), Hrun. reflexivity.
Qed.

(** X24. When [Initialize] returns a handle, it is for the file
    [.claudeee/claudeee.db] under the home directory, and the steps before
    the schema of the sync state were, in this order: the directory of that
    file made, the file opened with the [duckdb] driver, and every
    statement of [createTables] sent. The schema of the sync state is
    initialised last, on a database in which every statement of
    [createTables] is settled and nothing that was there before is lost. *)
Theorem initialize_returns_a_ready_database (m m' : Machine) (dbPath : string) :
  Initialize InitializeSchema m = (inr dbPath, m') ->
  exists h m1,
    home m = Some h
    /\ dbPath = Join [h; ".claudeee"; "claudeee.db"]
    /\ calls m1
       = calls m ++ [MkdirAll (Dir dbPath) 493; SqlOpen "duckdb" dbPath]
         ++ (Exec <$> queries)
    /\ Forall (fun q => settled (catalog m1) q = true) queries
    /\ keeps (catalog m) (catalog m1)
    /\ InitializeSchema m1 = (inr tt, m').
Proof.
  intros Hrun.
  destruct (home m) as [h|] eqn:Hh.
  2:{ rewrite (initialize_no_home m Hh) in Hrun. discriminate Hrun. }
  destruct (tape_cases m) as [Hgo|[[rest Ht]|[rest Ht]]].
  2:{ rewrite (initialize_mkdir_fails m h rest Hh Ht) in Hrun. discriminate Hrun. }
  2:{ rewrite (initialize_open_fails m h rest Hh Ht) in Hrun. discriminate Hrun. }
  rewrite (initialize_opens m h Hh Hgo) in Hrun.
  destruct (exec_loop_run queries (opened m (Join [h; ".claudeee"; "claudeee.db"])))
    as (Hk & _ & (sent & _ & Hc & Hres) & Hset).
  fold createTables in *.
  destruct (createTables _) as [[e|[]] m1]; [discriminate Hrun|].
  cbn [fst snd] in *. subst sent.
  destruct (InitializeSchema m1) as [[e|[]] m2] eqn:His; [discriminate Hrun|].
  injection Hrun as <- <-.
  exists h, m1. split; [reflexivity|]. split; [reflexivity|].
  split; [rewrite Hc; unfold opened; cbn [calls]; rewrite <- app_assoc; reflexivity|].
  split; [apply Hset; reflexivity|]. split; [exact Hk|exact His].
Qed.

End WithSyncState.

Lemma initialize_returns_a_ready_database_witness :
  exists m1,
    calls m1
    = [MkdirAll "/home/u/.claudeee" 493;
       SqlOpen "duckdb" "/home/u/.claudeee/claudeee.db"]
      ++ (Exec <$> queries)
    /\ Forall (fun q => settled (catalog m1) q = true) queries.
Proof.
  destruct (initialize_returns_a_ready_database (fun m => (inr tt, m))
              new_machine (Initialize (fun m => (inr tt, m)) new_machine).2
              "/home/u/.claudeee/claudeee.db")
    as (h & m1 & Hh & _ & Hc & Hset & _).
  - vm_compute. reflexivity.
  - exists m1. split; [exact Hc | exact Hset].
Defined.

End DatabaseFacts.

(* ===================================================================== *)
(** * The requests of the frontend client *)
(* ===================================================================== *)

Module ApiFacts.
Import ApiClient.

(** X25. In [request] the options are spread after the [headers] of the
    literal, so the headers of the caller take the place of the default
    instead of being merged with it: [fetch] gets the headers of the
    options when they have some, and [Content-Type: application/json]
    alone when they have none. Headers of a caller without a content type
    go out without one. The method and the body are those of the
    options. *)
Theorem caller_headers_replace_the_default (options : RequestInit) :
  headers (fetch_init options)
  = Some (default {[ "Content-Type" := "application/json" ]} (headers options))
  /\ method (fetch_init options) = method options
  /\ body (fetch_init options) = body options
  /\ (forall given,
        headers options = Some given ->
        given !! "Content-Type" = None ->
        forall sent, headers (fetch_init options) = Some sent ->
                     sent !! "Content-Type" = None).
Proof.
  unfold fetch_init, merged_headers, spread. cbn [method headers body].
  destruct options as [m [h|] b]; cbn [method headers body default].
  - split; [reflexivity|]. split; [destruct m; reflexivity|].
    split; [destruct b; reflexivity|].
    intros given [= <-] Hnone sent [= <-]. exact Hnone.
  - split; [reflexivity|]. split; [destruct m; reflexivity|].
    split; [destruct b; reflexivity|]. discriminate.
Qed.

Section Client.
Variable Json : Type.
Variable fetch : string -> RequestInit -> option (Response Json).
Variable baseURL : string.

(** X26. The promise of [request] is fulfilled exactly when [fetch]
    resolves to a response that is [ok] and whose body is JSON, and then
    with that JSON value. A response that is not [ok] rejects it with the
    status in the message, whatever its body holds. *)
Theorem request_settles (endpoint : string) (options : RequestInit) :
  (forall value,
      request Json fetch baseURL endpoint options = Fulfilled value
      <-> exists response,
            fetch (baseURL +:+ endpoint) (fetch_init options) = Some response
            /\ ok response = true
            /\ json response = Some value)
  /\ (forall response,
        fetch (baseURL +:+ endpoint) (fetch_init options) = Some response ->
        ok response = false ->
        request Json fetch baseURL endpoint options
        = RejectedError ("HTTP error! status: " +:+ decimal (status response))).
Proof.
  unfold request. split.
  - intros value.
    destruct (fetch _ _) as [response|].
    + destruct (ok response) eqn:Hok; cbn [negb].
      * destruct (json response) as [v|] eqn:Hjson.
        -- split.
           ++ intros [= ->]. exists response. auto.
           ++ intros (r & [= <-] & _ & Hj). congruence.
        -- split; [discriminate|].
           intros (r & [= <-] & _ & Hj). congruence.
      * split; [discriminate|].
        intros (r & [= <-] & Hok' & _). congruence.
    + split; [discriminate|]. intros (r & Hr & _). discriminate Hr.
  - intros response -> ->. reflexivity.
Qed.

End Client.

(** The client against a server that knows [/api/sync-logs] only. *)
Example sync_is_a_post :
  syncLogs string sync_only "/api" = Fulfilled "synced"
  /\ getTasks string sync_only "/api" = RejectedError "HTTP error! status: 404"
  /\ session_detail_url "s1" (Some 0) (Some 50)
     = "/sessions/s1?page=0&page_size=50"
  /\ session_detail_url "s1" None None = "/sessions/s1".
Proof. repeat split; vm_compute; reflexivity. Qed.

End ApiFacts.
